(** * dialplan_validator: a shallow embedding of [dialplan_validator.c]

    The C program reads a dialplan file line by line with [fgets] into a
    fixed buffer, cuts and trims that buffer in place, and reports syntax
    problems on [stderr] while counting them in a [validator_state].

    Modelling choices.
    - A C string passed as [const char *] is a [cstring]: the list of its
      characters up to, and without, the terminating NUL.
    - A buffer passed as [char *] and written to ([trim], the parsers) is a
      [mem] (the bytes of the line buffer, NUL included) together with an
      offset into it; a write of NUL is a [poke], and every later read goes
      through [cstr], so that two pointers into the same buffer see each
      other's writes exactly as in the C code.
    - [int] and [long] values are [Z].  The delimiter counters are bounded
      by the length of a line (below [MAX_LINE]).  [errors], [warnings] and
      [line_num] grow by at most one per line: on a run of at most
      [INT_MAX] lines they stay within the range of an [int] and the model
      is the program; beyond it the C counters overflow, which has no
      defined behaviour, and the theorems about the counters of a whole run
      carry that bound.
    - [fprintf(stderr, ...)] appends a diagnostic to the [err_stream] of the
      [world]; [state->errors++] is a separate step, as in the source. *)

From Stdlib Require Import ZArith Ascii String List Lia Bool Sorted.
From Stdlib Require DecimalString.
From stdpp Require Import base list.
From Equations Require Import Equations.
Import ListNotations.

Local Open Scope char_scope.
Local Open Scope Z_scope.

Definition cstring := list ascii.

Definition NUL : ascii := "000".
Definition NEWLINE : ascii := "010".
Definition DQUOTE : ascii := "034".
Definition SQUOTE : ascii := "039".
Definition BACKSLASH : ascii := "092".

(** String literals of the source, as character lists. *)
Definition lit (s : string) : cstring := list_ascii_of_string s.

Definition MAX_LINE : nat := 4096.
Definition MAX_VAR_NAME : nat := 80.

(** ** <ctype.h>, "C" locale *)
Module CType.

Definition isspace (c : ascii) : bool :=
  Ascii.eqb c " " || Ascii.eqb c "009" || Ascii.eqb c "010"
  || Ascii.eqb c "011" || Ascii.eqb c "012" || Ascii.eqb c "013".

Definition isdigit (c : ascii) : bool :=
  let n := N_of_ascii c in (48 <=? n)%N && (n <=? 57)%N.

Definition tolower (c : ascii) : ascii :=
  let n := N_of_ascii c in
  if (65 <=? n)%N && (n <=? 90)%N then ascii_of_N (n + 32) else c.

End CType.
Import CType.

(** ** <string.h> and [strtol], on C strings *)
Module CString.

Definition code (c : ascii) : Z := Z.of_N (N_of_ascii c).

(** [*s]: the first character, NUL at the end of the string. *)
Definition deref (s : cstring) : ascii := hd NUL s.

Definition strlen (s : cstring) : nat := length s.

(** [strchr s c] for [c <> NUL]: offset of the first [c] in [s]. *)
Fixpoint strchr (s : cstring) (c : ascii) : option nat :=
  match s with
  | [] => None
  | x :: s' => if Ascii.eqb x c then Some O else option_map S (strchr s' c)
  end.

Fixpoint is_prefix (needle s : cstring) : bool :=
  match needle, s with
  | [], _ => true
  | _ :: _, [] => false
  | a :: needle', b :: s' => Ascii.eqb a b && is_prefix needle' s'
  end.

(** [strstr s needle]: offset of the first occurrence of [needle]. *)
Fixpoint strstr (s needle : cstring) : option nat :=
  if is_prefix needle s then Some O
  else match s with
       | [] => None
       | _ :: s' => option_map S (strstr s' needle)
       end.

Fixpoint strcmp (a b : cstring) : Z :=
  match a, b with
  | [], [] => 0
  | [], y :: _ => - code y
  | x :: _, [] => code x
  | x :: a', y :: b' => if Ascii.eqb x y then strcmp a' b' else code x - code y
  end.

Fixpoint strncasecmp (a b : cstring) (n : nat) : Z :=
  match n with
  | O => 0
  | S n' =>
      let x := tolower (deref a) in
      let y := tolower (deref b) in
      if negb (Ascii.eqb x y) then code x - code y
      else if Ascii.eqb (deref a) NUL then 0
      else strncasecmp (tl a) (tl b) n'
  end.

(** [strncpy(dst, src, n)] into a zero-initialised array of more than [n]
    bytes: the C string left in [dst]. *)
Definition strncpy (src : cstring) (n : nat) : cstring := take n src.

Definition LONG_MAX : Z := 2 ^ 63 - 1.
Definition LONG_MIN : Z := - 2 ^ 63.

Definition clamp_long (v : Z) : Z :=
  if v >? LONG_MAX then LONG_MAX else if v <? LONG_MIN then LONG_MIN else v.

Fixpoint skip_space (s : cstring) : nat :=
  match s with
  | c :: s' => if isspace c then S (skip_space s') else O
  | [] => O
  end.

(** Value and number of characters of the leading run of decimal digits. *)
Fixpoint digits (acc : Z) (s : cstring) : Z * nat :=
  match s with
  | c :: s' =>
      if isdigit c then
        let '(v, k) := digits (10 * acc + (code c - 48)) s' in (v, S k)
      else (acc, O)
  | [] => (acc, O)
  end.

(** [strtol(s, &endptr, 10)]: the value and the offset of [endptr] in [s].
    Without any digit the value is 0 and [endptr] is [s] itself.  A value
    out of range is clamped; [long] is taken to be 64 bits wide, and the
    only use of the value, the test [pri < 1], does not depend on the
    width. *)
Definition strtol (s : cstring) : Z * nat :=
  let ws := skip_space s in
  let s1 := drop ws s in
  let '(neg, sgn) :=
    match s1 with
    | c :: _ => if Ascii.eqb c "-" then (true, 1%nat)
                else if Ascii.eqb c "+" then (false, 1%nat) else (false, O)
    | [] => (false, O)
    end in
  let '(v, k) := digits 0 (drop sgn s1) in
  match k with
  | O => (0, O)
  | S _ => (clamp_long (if neg then - v else v), (ws + sgn + k)%nat)
  end.

End CString.
Import CString.

(** ** The line buffer *)
Module Mem.

Definition mem : Type := list ascii.

(** [*(m + p)]; the program never reads past the terminating NUL of the
    buffer, the default only makes the function total. *)
Definition peek (m : list ascii) (p : nat) : ascii := default NUL (m !! p).

(** [*(m + p) = c]. *)
Definition poke (m : list ascii) (p : nat) (c : ascii) : list ascii :=
  <[p := c]> m.

Fixpoint until_nul (l : list ascii) : cstring :=
  match l with
  | [] => []
  | c :: l' => if Ascii.eqb c NUL then [] else c :: until_nul l'
  end.

(** The C string that starts at offset [p]. *)
Definition cstr (m : mem) (p : nat) : cstring := until_nul (drop p m).

(** A buffer holding the C string [s]. *)
Definition of_cstring (s : cstring) : mem := s ++ [NUL].

End Mem.
Import Mem.

(** ** Diagnostics and the validator state *)

Inductive message : Type :=
| MTooManyClosing
| MUnclosedQuote
| MUnbalanced (parens brackets braces : Z)
| MUnclosedVariable
| MUnclosedExpression
| MMalformedContext
| MEmptyContext
| MMissingArrowExtension
| MUnknownKeyword
| MExtensionFormat
| MInvalidPriority (priority_str : cstring)
| MPriorityTooLow
| MMissingArrowInclude
| MEmptyInclude
| MMissingArrowSwitch
| MWarnUnknownDirective (trimmed : cstring).

Definition is_warning (msg : message) : bool :=
  match msg with MWarnUnknownDirective _ => true | _ => false end.

Definition is_error (msg : message) : bool := negb (is_warning msg).

Definition show_int (z : Z) : string :=
  DecimalString.NilZero.string_of_int (Z.to_int z).

(** The text after ["Line %d: "], as the [fprintf] formats spell it. *)
Definition render (msg : message) : string :=
  match msg with
  | MTooManyClosing => "Unbalanced delimiters (too many closing)"
  | MUnclosedQuote => "Unclosed quote"
  | MUnbalanced p b c =>
      "Unbalanced delimiters (parens=" ++ show_int p ++ ", brackets="
        ++ show_int b ++ ", braces=" ++ show_int c ++ ")"
  | MUnclosedVariable => "Unclosed ${...} variable reference"
  | MUnclosedExpression => "Unclosed $[...] expression"
  | MMalformedContext => "Malformed context (missing ']')"
  | MEmptyContext => "Empty context name"
  | MMissingArrowExtension => "Missing '=>' in extension definition"
  | MUnknownKeyword => "Unknown keyword (expected 'exten' or 'same')"
  | MExtensionFormat =>
      "Extension must have format: exten => pattern,priority,app(args)"
  | MInvalidPriority s =>
      "Invalid priority '" ++ string_of_list_ascii s
        ++ "' (must be number, 'n', or 'hint')"
  | MPriorityTooLow => "Priority must be >= 1"
  | MMissingArrowInclude => "Missing '=>' in include statement"
  | MEmptyInclude => "Empty context in include statement"
  | MMissingArrowSwitch => "Missing '=>' in switch statement"
  | MWarnUnknownDirective s =>
      "Warning: Unknown directive '" ++ string_of_list_ascii s ++ "'"
  end%string.

Record diag : Type := Diag { d_line : Z; d_msg : message }.

(** The [validator_state] of the source.  The three counters are [int]s
    there; here they are incremented in [Z], which is what the program
    does as long as none of them passes [INT_MAX]. *)
Record validator_state : Type := ValidatorState {
  errors : Z;
  warnings : Z;
  line_num : Z;
  current_context : cstring
}.

(** The validator state together with what was written to [stderr]. *)
Record world : Type := World {
  vstate : validator_state;
  err_stream : list diag
}.

(** ** A state monad over [world] *)

Definition M (A : Type) : Type := world -> A * world.

Definition ret {A} (a : A) : M A := fun w => (a, w).

Definition bind {A B} (c : M A) (k : A -> M B) : M B :=
  fun w => let '(a, w') := c w in k a w'.

Declare Scope vmonad_scope.
Delimit Scope vmonad_scope with vm.
Notation "'let*' x ':=' c 'in' k" := (bind c (fun x => k))
  (at level 10, x name, c at level 100, k at level 200,
   only parsing) : vmonad_scope.
Local Open Scope vmonad_scope.

(** [fprintf(stderr, "Line %d: ...", state->line_num, ...)] *)
Definition emit (msg : message) : M unit := fun w =>
  (tt, World (vstate w) (err_stream w ++ [Diag (line_num (vstate w)) msg])).

(** [state->errors++] *)
Definition incr_errors : M unit := fun w =>
  let s := vstate w in
  (tt, World (ValidatorState (errors s + 1) (warnings s) (line_num s)
                (current_context s)) (err_stream w)).

(** [state.warnings++] *)
Definition incr_warnings : M unit := fun w =>
  let s := vstate w in
  (tt, World (ValidatorState (errors s) (warnings s + 1) (line_num s)
                (current_context s)) (err_stream w)).

(** [state.line_num++] *)
Definition incr_line_num : M unit := fun w =>
  let s := vstate w in
  (tt, World (ValidatorState (errors s) (warnings s) (line_num s + 1)
                (current_context s)) (err_stream w)).

Definition set_current_context (name : cstring) : M unit := fun w =>
  let s := vstate w in
  (tt, World (ValidatorState (errors s) (warnings s) (line_num s) name)
         (err_stream w)).

(** ** [trim] *)

(** [while (end > str && isspace( *end)) end--], with [end = str + k]. *)
Fixpoint trim_back (m : mem) (str k : nat) : nat :=
  match k with
  | O => str
  | S k' => if isspace (peek m (str + k)) then trim_back m str k'
            else (str + k)%nat
  end.

(** [trim(str)]: the buffer after the write and the returned pointer. *)
Definition trim (m : mem) (str : nat) : mem * nat :=
  let str := (str + skip_space (cstr m str))%nat in
  if Ascii.eqb (peek m str) NUL then (m, str)
  else
    let e := trim_back m str (strlen (cstr m str) - 1) in
    (poke m (e + 1) NUL, str).

(** ** [is_comment_or_blank] *)

Definition is_comment_or_blank (line : cstring) : bool :=
  let c := deref (drop (skip_space line) line) in
  Ascii.eqb c ";" || Ascii.eqb c NUL || Ascii.eqb c "#".

(** ** [check_balanced] *)

(** The [for] loop.  [prev] is [*(p-1)], read only inside a quote, where
    the opening quote precedes [p].  [None]: a counter went negative and the
    loop was left by the [return]; [Some]: the loop ran to the end of the
    string, with these counters and [in_quote]. *)
Fixpoint balance_loop (p : cstring) (prev : ascii)
    (parens brackets braces : Z) (in_quote : bool) (quote_char : ascii)
    : option (Z * Z * Z * bool) :=
  match p with
  | [] => Some (parens, brackets, braces, in_quote)
  | c :: p' =>
      if in_quote then
        if Ascii.eqb c quote_char && negb (Ascii.eqb prev BACKSLASH) then
          balance_loop p' c parens brackets braces false quote_char
        else
          balance_loop p' c parens brackets braces true quote_char
      else
        let '(parens, brackets, braces, in_quote, quote_char) :=
          if Ascii.eqb c DQUOTE || Ascii.eqb c SQUOTE then
            (parens, brackets, braces, true, c)
          else if Ascii.eqb c "(" then
            (parens + 1, brackets, braces, false, quote_char)
          else if Ascii.eqb c ")" then
            (parens - 1, brackets, braces, false, quote_char)
          else if Ascii.eqb c "[" then
            (parens, brackets + 1, braces, false, quote_char)
          else if Ascii.eqb c "]" then
            (parens, brackets - 1, braces, false, quote_char)
          else if Ascii.eqb c "{" then
            (parens, brackets, braces + 1, false, quote_char)
          else if Ascii.eqb c "}" then
            (parens, brackets, braces - 1, false, quote_char)
          else (parens, brackets, braces, false, quote_char) in
        if (parens <? 0) || (brackets <? 0) || (braces <? 0) then None
        else balance_loop p' c parens brackets braces in_quote quote_char
  end.

Definition check_balanced (str : cstring) : M bool :=
  match balance_loop str NUL 0 0 0 false NUL with
  | None =>
      let* _ := emit MTooManyClosing in let* _ := incr_errors in ret false
  | Some (parens, brackets, braces, in_quote) =>
      if in_quote then
        let* _ := emit MUnclosedQuote in let* _ := incr_errors in ret false
      else if negb (parens =? 0) || negb (brackets =? 0) || negb (braces =? 0)
      then
        let* _ := emit (MUnbalanced parens brackets braces) in
        let* _ := incr_errors in ret false
      else ret true
  end.

(** ** [check_variable_syntax] *)

(** The inner [while ( *p && count > 0)] loops: the final count and the
    rest of the string at [p]. *)
Fixpoint scan_depth (opener closer : ascii) (count : Z) (p : cstring)
    : Z * cstring :=
  match p with
  | [] => (count, [])
  | c :: p' =>
      if count >? 0 then
        scan_depth opener closer
          (if Ascii.eqb c opener then count + 1
           else if Ascii.eqb c closer then count - 1 else count) p'
      else (count, p)
  end.

(** [strchr] with the equation that says what it returned. *)
Definition strchr_inspect (s : cstring) (c : ascii)
    : { r : option nat | strchr s c = r } :=
  exist _ (strchr s c) eq_refl.

(** The outer [while ((p = strchr(p, '$')) != NULL)] loop, threading
    [valid] and the state. *)
Equations? variable_loop (p : cstring) (valid : bool) : M bool
  by wf (length p) lt :=
  variable_loop p valid with strchr_inspect p "$" := {
    | exist _ None _ => ret valid
    | exist _ (Some i) Hi =>
        if Ascii.eqb (deref (drop (i + 1) p)) "{" then
          if negb (fst (scan_depth "{" "}" 1 (drop (i + 2) p)) =? 0) then
            let* _ := emit MUnclosedVariable in
            let* _ := incr_errors in
            variable_loop (snd (scan_depth "{" "}" 1 (drop (i + 2) p))) false
          else
            variable_loop (snd (scan_depth "{" "}" 1 (drop (i + 2) p))) valid
        else if Ascii.eqb (deref (drop (i + 1) p)) "[" then
          if negb (fst (scan_depth "[" "]" 1 (drop (i + 2) p)) =? 0) then
            let* _ := emit MUnclosedExpression in
            let* _ := incr_errors in
            variable_loop (snd (scan_depth "[" "]" 1 (drop (i + 2) p))) false
          else
            variable_loop (snd (scan_depth "[" "]" 1 (drop (i + 2) p))) valid
        else variable_loop (drop (i + 1) p) valid }.
Proof.
  all: assert (Hlt : (i < length p)%nat).
  all: try (clear - Hi; revert i Hi; induction p as [|x p IH]; intros i;
            simpl; [discriminate|]; destruct (Ascii.eqb x "$");
            [intros [= <-]; lia|];
            destruct (strchr p "$") as [j|]; simpl; [|discriminate];
            intros [= <-]; specialize (IH j eq_refl); lia).
  all: try (assert (Hsd : forall o c n q,
              (length (snd (scan_depth o c n q)) <= length q)%nat)
            by (intros o c n q; revert n; induction q as [|x q IH];
                intros n; simpl; [lia|]; destruct (n >? 0); simpl; [|lia];
                etransitivity; [apply IH|lia]);
            match goal with
            | |- context [scan_depth ?o ?c ?n ?q] =>
                specialize (Hsd o c n q) end).
  all: rewrite ?length_drop in *; lia.
Qed.

Definition check_variable_syntax (str : cstring) : M bool :=
  variable_loop str true.

(** ** [parse_context] *)

Definition parse_context (m : mem) (line : nat) : M bool :=
  match strchr (cstr m line) "]" with
  | None =>
      let* _ := emit MMalformedContext in let* _ := incr_errors in ret false
  | Some e =>
      let m := poke m (line + e) NUL in
      let '(m, context) := trim m (line + 1) in
      if (strlen (cstr m context) =? 0)%nat then
        let* _ := emit MEmptyContext in let* _ := incr_errors in ret false
      else
        let* _ := set_current_context
                    (strncpy (cstr m context) (MAX_VAR_NAME - 1)) in
        ret true
  end.

(** ** [parse_extension] *)

(** The comma-splitting [for] loop over the string at [data]; [p] is the
    offset of the current character.  Returns [comma1] and [comma2]. *)
Fixpoint find_commas (s : cstring) (p : nat) (parens brackets : Z)
    (comma1 : option nat) : option nat * option nat :=
  match s with
  | [] => (comma1, None)
  | c :: s' =>
      if Ascii.eqb c "(" then
        find_commas s' (S p) (parens + 1) brackets comma1
      else if Ascii.eqb c ")" then
        find_commas s' (S p) (parens - 1) brackets comma1
      else if Ascii.eqb c "[" then
        find_commas s' (S p) parens (brackets + 1) comma1
      else if Ascii.eqb c "]" then
        find_commas s' (S p) parens (brackets - 1) comma1
      else if Ascii.eqb c "," && (parens =? 0) && (brackets =? 0) then
        match comma1 with
        | None => find_commas s' (S p) parens brackets (Some p)
        | Some _ => (comma1, Some p)
        end
      else find_commas s' (S p) parens brackets comma1
  end.

(** The priority block of [parse_extension]; [false] stands for its
    [return 0]. *)
Definition validate_priority (priority_str : cstring) : M bool :=
  if negb (strcmp priority_str (lit "hint") =? 0) then
    if negb (strcmp priority_str (lit "n") =? 0) then
      let '(pri, endptr) := strtol priority_str in
      let endc := deref (drop endptr priority_str) in
      if negb (Ascii.eqb endc NUL) && negb (Ascii.eqb endc "(") then
        let* _ := emit (MInvalidPriority priority_str) in
        let* _ := incr_errors in ret false
      else if pri <? 1 then
        let* _ := emit MPriorityTooLow in
        let* _ := incr_errors in ret false
      else ret true
    else ret true
  else ret true.

Definition parse_extension (m : mem) (line : nat) : M bool :=
  match strstr (cstr m line) (lit "=>") with
  | None =>
      let* _ := emit MMissingArrowExtension in
      let* _ := incr_errors in ret false
  | Some a =>
      let arrow := (line + a)%nat in
      let keyword := (line + skip_space (cstr m line))%nat in
      let is_exten := strncasecmp (cstr m keyword) (lit "exten") 5 =? 0 in
      let is_same :=
        negb is_exten && (strncasecmp (cstr m keyword) (lit "same") 4 =? 0) in
      if negb is_exten && negb is_same then
        let* _ := emit MUnknownKeyword in let* _ := incr_errors in ret false
      else
        let '(m, data) := trim m (arrow + 2) in
        let pattern := data in
        match find_commas (cstr m data) data 0 0 None with
        | (Some comma1, Some comma2) =>
            let m := poke m comma1 NUL in
            let m := poke m comma2 NUL in
            let '(m, priority_str) := trim m (comma1 + 1) in
            let '(m, app) := trim m (comma2 + 1) in
            let '(m, pattern) := trim m pattern in
            let* ok := (if negb is_same
                        then validate_priority (cstr m priority_str)
                        else ret true) in
            if negb ok then ret false
            else
              let* ok := (if (0 <? strlen (cstr m app))%nat then
                            match strchr (cstr m app) "(" with
                            | Some _ => check_balanced (cstr m app)
                            | None => ret true
                            end
                          else ret true) in
              if negb ok then ret false
              else
                let* _ := check_variable_syntax (cstr m data) in
                ret true
        | _ =>
            let* _ := emit MExtensionFormat in
            let* _ := incr_errors in ret false
        end
  end.

(** ** [parse_include] *)

Definition parse_include (m : mem) (line : nat) : M bool :=
  match strstr (cstr m line) (lit "=>") with
  | None =>
      let* _ := emit MMissingArrowInclude in
      let* _ := incr_errors in ret false
  | Some a =>
      let '(m, context) := trim m (line + a + 2) in
      if (strlen (cstr m context) =? 0)%nat then
        let* _ := emit MEmptyInclude in let* _ := incr_errors in ret false
      else ret true
  end.

(** ** [validate_dialplan] *)

(** [fgets(line, MAX_LINE, fp)] until end of file: the successive contents
    of the line buffer.  A chunk ends after a newline or when [room], the
    number of characters the buffer still takes, is used up. *)
Fixpoint fgets_all (room : nat) (cur : list ascii) (content : list ascii)
    : list (list ascii) :=
  match content with
  | [] => match cur with [] => [] | _ => [rev cur] end
  | c :: rest =>
      if Ascii.eqb c NEWLINE || (room =? 1)%nat then
        rev (c :: cur) :: fgets_all (MAX_LINE - 1) [] rest
      else fgets_all (room - 1) (c :: cur) rest
  end.

Definition read_lines (content : list ascii) : list (list ascii) :=
  fgets_all (MAX_LINE - 1) [] content.

Definition found {A} (o : option A) : bool :=
  match o with Some _ => true | None => false end.

(** The body of the [while (fgets(...))] loop.  [chunk] is what [fgets]
    stored; the result is the new value of the local [in_context]. *)
Definition validate_line (chunk : list ascii) (in_context : bool) : M bool :=
  let line := O in
  let m := of_cstring chunk in
  let* _ := incr_line_num in
  let m := match strchr (cstr m line) NEWLINE with
           | Some newline => poke m (line + newline) NUL
           | None => m
           end in
  if is_comment_or_blank (cstr m line) then ret in_context
  else
    let '(m, trimmed) := trim m line in
    if Ascii.eqb (deref (cstr m trimmed)) "[" then
      let* _ := parse_context m trimmed in ret true
    else if negb in_context && found (strchr (cstr m trimmed) "=")
            && negb (found (strstr (cstr m trimmed) (lit "=>"))) then
      ret in_context
    else if (strncasecmp (cstr m trimmed) (lit "exten") 5 =? 0)
            || (strncasecmp (cstr m trimmed) (lit "same") 4 =? 0) then
      let* _ := parse_extension m trimmed in ret in_context
    else if strncasecmp (cstr m trimmed) (lit "include") 7 =? 0 then
      let* _ := parse_include m trimmed in ret in_context
    else if (strncasecmp (cstr m trimmed) (lit "switch") 6 =? 0)
            || (strncasecmp (cstr m trimmed) (lit "eswitch") 7 =? 0)
            || (strncasecmp (cstr m trimmed) (lit "lswitch") 7 =? 0) then
      if negb (found (strstr (cstr m trimmed) (lit "=>"))) then
        let* _ := emit MMissingArrowSwitch in
        let* _ := incr_errors in ret in_context
      else ret in_context
    else if in_context && (0 <? strlen (cstr m trimmed))%nat then
      let* _ := emit (MWarnUnknownDirective (cstr m trimmed)) in
      let* _ := incr_warnings in ret in_context
    else ret in_context.

Fixpoint validate_lines (chunks : list (list ascii)) (in_context : bool)
    : M bool :=
  match chunks with
  | [] => ret in_context
  | chunk :: rest =>
      let* in_context := validate_line chunk in_context in
      validate_lines rest in_context
  end.

(** [validator_state state = {0}], nothing written yet. *)
Definition initial_world : world := World (ValidatorState 0 0 0 []) [].

(** What the summary [printf] writes to [stdout]. *)
Inductive summary : Type :=
| SyntaxValid
| ValidationComplete (errors warnings : Z).

Record outcome : Type := Outcome {
  exit_status : Z;
  stdout_summary : option summary;
  final_in_context : bool;
  final : world
}.

(** The part of [validate_dialplan] after a successful [fopen], on the
    chunks that [fgets] delivers. *)
Definition validate_chunks (chunks : list (list ascii)) : outcome :=
  let '(in_context, w) := validate_lines chunks false initial_world in
  let state := vstate w in
  if (errors state =? 0) && (warnings state =? 0) then
    Outcome 0 (Some SyntaxValid) in_context w
  else
    Outcome (if errors state >? 0 then 1 else 0)
      (Some (ValidationComplete (errors state) (warnings state)))
      in_context w.

(** [validate_dialplan(filename)]: [None] is a file that [fopen] cannot
    open, [Some content] the bytes of the file.  The "Cannot open file"
    message is not a line diagnostic and is left out of [err_stream]. *)
Definition validate_dialplan (file : option (list ascii)) : outcome :=
  match file with
  | None => Outcome 1 None false initial_world
  | Some content => validate_chunks (read_lines content)
  end.

(** The diagnostics of a run, in order. *)
Definition diagnostics (o : outcome) : list diag := err_stream (final o).

Definition error_diags (ds : list diag) : list diag :=
  filter (fun d => is_error (d_msg d) = true) ds.

Definition warning_diags (ds : list diag) : list diag :=
  filter (fun d => is_warning (d_msg d) = true) ds.

(** ** The directive of a line

    [validate_dialplan] has no classifier of its own: the kind of a line
    is the branch of the loop body that handles it.  [classify] names that
    branch, as a function of [in_context] and of the trimmed line. *)

Inductive directive : Type :=
| ContextHeader
| GlobalAssignment
| Extension
| Include
| Switch
| Unknown
| Ignored.

Definition classify (in_context : bool) (trimmed : cstring) : directive :=
  if Ascii.eqb (deref trimmed) "[" then ContextHeader
  else if negb in_context && found (strchr trimmed "=")
          && negb (found (strstr trimmed (lit "=>"))) then GlobalAssignment
  else if (strncasecmp trimmed (lit "exten") 5 =? 0)
          || (strncasecmp trimmed (lit "same") 4 =? 0) then Extension
  else if strncasecmp trimmed (lit "include") 7 =? 0 then Include
  else if (strncasecmp trimmed (lit "switch") 6 =? 0)
          || (strncasecmp trimmed (lit "eswitch") 7 =? 0)
          || (strncasecmp trimmed (lit "lswitch") 7 =? 0) then Switch
  else if in_context && (0 <? strlen trimmed)%nat then Unknown
  else Ignored.

(** The buffer and the pointer [trimmed] that the loop body works on once
    the newline is cut and the line is trimmed. *)
Definition trimmed_buffer (chunk : list ascii) : mem * nat :=
  let m := of_cstring chunk in
  let m := match strchr (cstr m O) NEWLINE with
           | Some newline => poke m newline NUL
           | None => m
           end in
  trim m O.

(** What each directive makes the loop body do. *)
Definition dispatch (d : directive) (m : mem) (trimmed : nat)
    (in_context : bool) : M bool :=
  match d with
  | ContextHeader => let* _ := parse_context m trimmed in ret true
  | GlobalAssignment => ret in_context
  | Extension => let* _ := parse_extension m trimmed in ret in_context
  | Include => let* _ := parse_include m trimmed in ret in_context
  | Switch =>
      if negb (found (strstr (cstr m trimmed) (lit "=>"))) then
        let* _ := emit MMissingArrowSwitch in
        let* _ := incr_errors in ret in_context
      else ret in_context
  | Unknown =>
      let* _ := emit (MWarnUnknownDirective (cstr m trimmed)) in
      let* _ := incr_warnings in ret in_context
  | Ignored => ret in_context
  end.

(** [state->errors++] after the matching [fprintf]: the world after an
    error is reported. *)
Definition report_error (msg : message) (w : world) : world :=
  snd ((let* _ := emit msg in incr_errors) w).

(** ** Vocabulary of the specification

    The notions the properties below are stated with, defined on their own
    and not through the functions they are checked against. *)

(** *** Delimiters and quoted spans *)

Inductive kind : Type := Paren | Bracket | Brace.

Definition opener (k : kind) : ascii :=
  match k with Paren => "(" | Bracket => "[" | Brace => "{" end.

Definition closer (k : kind) : ascii :=
  match k with Paren => ")" | Bracket => "]" | Brace => "}" end.

Definition is_quote (c : ascii) : Prop := c = DQUOTE \/ c = SQUOTE.

(** A character that is neither a delimiter nor a quote. *)
Definition plain (c : ascii) : Prop :=
  (forall k, c <> opener k /\ c <> closer k) /\ ~ is_quote c.

(** The content of a quoted span: anything but the quote that opened it;
    no backslash, so that the closing quote is not taken for an escaped
    one. *)
Definition quoted_text (q : ascii) (s : cstring) : Prop :=
  Forall (fun c => c <> q /\ c <> BACKSLASH) s.

(** Strings made of matched pairs, quoted spans and plain characters. *)
Inductive matched : cstring -> Prop :=
| matched_nil : matched []
| matched_plain c : plain c -> matched [c]
| matched_app s t : matched s -> matched t -> matched (s ++ t)
| matched_pair k s : matched s -> matched (opener k :: s ++ [closer k])
| matched_quoted q s :
    is_quote q -> quoted_text q s -> matched (q :: s ++ [q]).

(** The characters of [s] that stand outside quoted spans, when [s] ends
    outside of one.  [quote] is the quote character of the span the scan
    is in, [prev] the character before. *)
Fixpoint outside_from (quote : option ascii) (prev : ascii) (s : cstring)
    : option cstring :=
  match s, quote with
  | [], None => Some []
  | [], Some _ => None
  | c :: s', Some q =>
      if Ascii.eqb c q && negb (Ascii.eqb prev BACKSLASH)
      then outside_from None c s'
      else outside_from (Some q) c s'
  | c :: s', None =>
      if Ascii.eqb c DQUOTE || Ascii.eqb c SQUOTE
      then outside_from (Some c) c s'
      else option_map (cons c) (outside_from None c s')
  end.

Definition outside (s : cstring) : option cstring :=
  outside_from None NUL s.

Definition occurrences (c : ascii) (l : cstring) : Z :=
  Z.of_nat (count_occ ascii_dec l c).

(** Openers minus closers of kind [k]. *)
Definition net (k : kind) (l : cstring) : Z :=
  occurrences (opener k) l - occurrences (closer k) l.

(** *** Lines *)

(** The text of a line of the file: what [fgets] stored, up to the newline
    (or to a NUL byte of the file). *)
Fixpoint line_text (chunk : list ascii) : cstring :=
  match chunk with
  | [] => []
  | c :: chunk' =>
      if Ascii.eqb c NUL || Ascii.eqb c NEWLINE then []
      else c :: line_text chunk'
  end.

Definition first_nonspace (line : cstring) : ascii :=
  deref (drop (skip_space line) line).

(** The line begins, after its leading whitespace, with ['[']. *)
Definition opens_context (chunk : list ascii) : bool :=
  Ascii.eqb (first_nonspace (line_text chunk)) "[".

(** *** Keywords *)

Fixpoint first_token (s : cstring) : cstring :=
  match s with
  | [] => []
  | c :: s' => if isspace c then [] else c :: first_token s'
  end.

(** Equality of two words up to the case of their letters. *)
Definition ieq (a b : cstring) : Prop := map tolower a = map tolower b.

(** [s] begins, up to case, with the keyword [kw]. *)
Definition begins_with (kw s : cstring) : Prop :=
  exists a b, s = a ++ b /\ ieq a kw.

Definition contains (needle s : cstring) : Prop :=
  exists a b, s = a ++ needle ++ b.

(** *** Context names *)

(** The text between ['['] and the first [']'] of a header line, with
    something in it besides whitespace. *)
Definition context_name (n : cstring) : Prop :=
  Forall (fun c => c <> "]" /\ c <> NUL /\ c <> NEWLINE) n
  /\ Exists (fun c => isspace c = false) n.

Definition indentation (ws : cstring) : Prop :=
  Forall (fun c => isspace c = true /\ c <> NEWLINE) ws.

(** Two lines that are the same, or two context headers that differ only
    in the name between the brackets. *)
Inductive name_variant : list ascii -> list ascii -> Prop :=
| variant_same l : name_variant l l
| variant_renamed ws n1 n2 tail :
    indentation ws -> context_name n1 -> context_name n2 ->
    name_variant (ws ++ "[" :: n1 ++ "]" :: tail)
                 (ws ++ "[" :: n2 ++ "]" :: tail).

(** Two worlds that agree on everything but the stored context name. *)
Definition same_but_context (w1 w2 : world) : Prop :=
  errors (vstate w1) = errors (vstate w2)
  /\ warnings (vstate w1) = warnings (vstate w2)
  /\ line_num (vstate w1) = line_num (vstate w2)
  /\ err_stream w1 = err_stream w2.

(** ** Effects of a computation on the counters and on [stderr] *)

(** From [w] to [w'] the diagnostics [ds] were written and counted. *)
Definition tally (ds : list diag) (w w' : world) : Prop :=
  err_stream w' = err_stream w ++ ds
  /\ errors (vstate w') =
       errors (vstate w) + Z.of_nat (length (error_diags ds))
  /\ warnings (vstate w') =
       warnings (vstate w) + Z.of_nat (length (warning_diags ds)).

(** [c] writes only messages that satisfy [Q], and counts each of them. *)
Definition logs {A} (Q : message -> Prop) (c : M A) : Prop :=
  forall w, exists ds,
    tally ds w (snd (c w)) /\ Forall (fun d => Q (d_msg d)) ds.

(** [c1] and [c2] cannot be told apart by anyone who does not look at the
    stored context name: from worlds that agree but for that name they
    return the same value and leave worlds that agree but for that name. *)
Definition agree {A} (c1 c2 : M A) : Prop :=
  forall w1 w2, same_but_context w1 w2 ->
    fst (c1 w1) = fst (c2 w2)
    /\ same_but_context (snd (c1 w1)) (snd (c2 w2)).

(** The messages of each checker. *)
Definition variable_message (msg : message) : Prop :=
  msg = MUnclosedVariable \/ msg = MUnclosedExpression.

Definition balance_message (msg : message) : Prop :=
  msg = MTooManyClosing \/ msg = MUnclosedQuote
  \/ exists p b c, msg = MUnbalanced p b c.

Definition priority_message (msg : message) : Prop :=
  msg = MPriorityTooLow \/ exists s, msg = MInvalidPriority s.

Definition any_message (msg : message) : Prop := True.

(** A line of a file, with the newline that ends it; a file is the
    concatenation of its lines. *)
Definition line (s : string) : list ascii := lit s ++ [NEWLINE].

(** ** Further vocabulary *)

(** A string of whitespace only. *)
Definition blank (s : cstring) : Prop := Forall (fun c => isspace c = true) s.

(** No prefix of [l] has more closers than openers of kind [k]. *)
Definition never_below (k : kind) (l : cstring) : Prop :=
  forall l1 l2, l = l1 ++ l2 -> 0 <= net k l1.

(** [c] leaves the line number alone and writes nothing, or one
    diagnostic tagged with the current line. *)
Definition writes_at_most_one {A} (c : M A) : Prop :=
  forall w,
    line_num (vstate (snd (c w))) = line_num (vstate w)
    /\ (err_stream (snd (c w)) = err_stream w
        \/ exists msg,
             err_stream (snd (c w))
             = err_stream w ++ [Diag (line_num (vstate w)) msg]).

(** A character of a plain field of an extension line: no whitespace and
    none of the characters the comma scan looks at. *)
Definition field_char (c : ascii) : Prop :=
  c <> NUL /\ isspace c = false /\ c <> "," /\ c <> "(" /\ c <> ")"
  /\ c <> "[" /\ c <> "]".

(** The priorities an [exten] line may carry without a label. *)
Definition plain_priority (s : cstring) : Prop :=
  s = lit "n" \/ s = lit "hint"
  \/ (s <> [] /\ Forall (fun c => isdigit c = true) s
      /\ Exists (fun c => c <> "0") s).

(** A text whose delimiters outside quotes are matched kind by kind. *)
Definition balanced_text (s : cstring) : Prop :=
  exists l, outside s = Some l /\ forall k, net k l = 0 /\ never_below k l.

(** [parse_extension] from the application check on (the source's last
    fifteen lines of the function), as a function of the two strings it
    reads: the application and the string at [data]. *)
Definition extension_tail (app data : cstring) : M bool :=
  let* ok := (if (0 <? strlen app)%nat then
                match strchr app "(" with
                | Some _ => check_balanced app
                | None => ret true
                end
              else ret true) in
  if negb ok then ret false
  else
    let* _ := check_variable_syntax data in
    ret true.

(** *** The [int] counters *)

(** [INT_MAX] of <limits.h>, for the 32-bit [int] of the usual targets. *)
Definition INT_MAX : Z := 2147483647.

(** A value that an [int] holds. *)
Definition fits_int (z : Z) : Prop := - INT_MAX - 1 <= z <= INT_MAX.

(** *** The fields of an extension line *)

(** [s] without the whitespace at its end. *)
Fixpoint rstrip (s : cstring) : cstring :=
  match s with
  | [] => []
  | c :: s' =>
      match rstrip s' with
      | [] => if isspace c then [] else [c]
      | r => c :: r
      end
  end.

(** [s] without the whitespace before and after it. *)
Definition strip (s : cstring) : cstring := rstrip (drop (skip_space s) s).

(** A field of an extension line: text at whose end no parenthesis and no
    bracket is open, and that holds no comma at which none is open. *)
Definition top_level_field (s : cstring) : Prop :=
  net Paren s = 0 /\ net Bracket s = 0
  /\ forall a b, s = a ++ "," :: b -> net Paren a <> 0 \/ net Bracket a <> 0.

(** A line with an arrow and three fields: the text after the first
    ["=>"], without the whitespace around it, is [Pf], a comma, [Ff], a
    comma and [Af], the two commas being the first two that stand outside
    parentheses and brackets.  The pattern, the priority and the
    application of the line are [strip Pf], [strip Ff] and [strip Af]. *)
Definition extension_fields (T Pf Ff Af : cstring) : Prop :=
  exists kw D,
    T = kw ++ lit "=>" ++ D
    /\ ~ contains (lit "=>") kw
    /\ strip D = Pf ++ "," :: Ff ++ "," :: Af
    /\ top_level_field Pf /\ top_level_field Ff.

(** The line begins, after its leading whitespace, with the keyword. *)
Definition keyword_is (kw : string) (T : cstring) : Prop :=
  begins_with (lit kw) (drop (skip_space T) T).

(** *** Files made of lines *)

(** A line of text with its newline, short enough for the line buffer. *)
Definition text_line (l : list ascii) : Prop :=
  exists t, l = t ++ [NEWLINE] /\ ~ In NEWLINE t
            /\ (length l <= MAX_LINE - 1)%nat.

(** * Proofs *)

(** ** The state monad *)

Lemma bind_run {A B} (c : M A) (k : A -> M B) w :
  bind c k w = k (fst (c w)) (snd (c w)).
Proof. unfold bind. destruct (c w); reflexivity. Qed.

Lemma tally_nil w : tally [] w w.
Proof.
  unfold tally, error_diags, warning_diags; simpl.
  rewrite app_nil_r. repeat split; lia.
Qed.

Lemma tally_app ds1 ds2 w1 w2 w3 :
  tally ds1 w1 w2 -> tally ds2 w2 w3 -> tally (ds1 ++ ds2) w1 w3.
Proof.
  unfold tally, error_diags, warning_diags.
  intros (E1 & E2 & E3) (F1 & F2 & F3).
  rewrite !filter_app, !length_app, F1, F2, F3, E1, E2, E3, app_assoc.
  repeat split; lia.
Qed.

Lemma logs_ret {A} Q (a : A) : logs Q (ret a).
Proof. intros w. exists []. split; [apply tally_nil | constructor]. Qed.

Lemma logs_bind {A B} Q (c : M A) (k : A -> M B) :
  logs Q c -> (forall a, logs Q (k a)) -> logs Q (bind c k).
Proof.
  intros Hc Hk w. rewrite bind_run.
  destruct (Hc w) as (ds1 & T1 & F1).
  destruct (Hk (fst (c w)) (snd (c w))) as (ds2 & T2 & F2).
  exists (ds1 ++ ds2). split; [eapply tally_app; eauto | apply Forall_app; auto].
Qed.

Lemma logs_error {A} (Q : message -> Prop) msg (k : M A) :
  is_error msg = true -> Q msg -> logs Q k ->
  logs Q (bind (emit msg) (fun _ => bind incr_errors (fun _ => k))).
Proof.
  intros He Hq Hk w. rewrite !bind_run.
  destruct (Hk (snd (incr_errors (snd (emit msg w))))) as (ds & T & F).
  exists (Diag (line_num (vstate w)) msg :: ds). split.
  - change (Diag (line_num (vstate w)) msg :: ds) with ([Diag (line_num (vstate w)) msg] ++ ds).
    eapply tally_app; [|exact T].
    unfold tally, error_diags, warning_diags; simpl.
    unfold is_error in He. apply negb_true_iff in He.
    rewrite !filter_cons, !filter_nil; simpl.
    unfold is_error. rewrite He. simpl.
    destruct (decide (true = true)); [|congruence].
    destruct (decide (false = true)); [congruence|]. simpl. repeat split; lia.
  - constructor; assumption.
Qed.

Lemma logs_warning {A} (Q : message -> Prop) msg (k : M A) :
  is_warning msg = true -> Q msg -> logs Q k ->
  logs Q (bind (emit msg) (fun _ => bind incr_warnings (fun _ => k))).
Proof.
  intros He Hq Hk w. rewrite !bind_run.
  destruct (Hk (snd (incr_warnings (snd (emit msg w))))) as (ds & T & F).
  exists (Diag (line_num (vstate w)) msg :: ds). split.
  - change (Diag (line_num (vstate w)) msg :: ds) with ([Diag (line_num (vstate w)) msg] ++ ds).
    eapply tally_app; [|exact T].
    unfold tally, error_diags, warning_diags; simpl.
    rewrite !filter_cons, !filter_nil; simpl.
    unfold is_error. rewrite He. simpl.
    destruct (decide (true = true)); [|congruence].
    destruct (decide (false = true)); [congruence|]. simpl. repeat split; lia.
  - constructor; assumption.
Qed.

Lemma logs_incr_line_num Q : logs Q incr_line_num.
Proof.
  intros w. exists []. split; [|constructor].
  unfold tally, error_diags, warning_diags; simpl.
  rewrite app_nil_r. repeat split; lia.
Qed.

Lemma logs_set_current_context Q name : logs Q (set_current_context name).
Proof.
  intros w. exists []. split; [|constructor].
  unfold tally, error_diags, warning_diags; simpl.
  rewrite app_nil_r. repeat split; lia.
Qed.

Lemma logs_weaken {A} (Q Q' : message -> Prop) (c : M A) :
  (forall msg, Q msg -> Q' msg) -> logs Q c -> logs Q' c.
Proof.
  intros H Hc w. destruct (Hc w) as (ds & T & F).
  exists ds. split; [exact T|]. eapply Forall_impl; [exact F|]. simpl; auto.
Qed.

(** ** [check_balanced], [check_variable_syntax] and the parsers count what
    they report *)

Lemma variable_loop_step p valid :
  variable_loop p valid =
  match strchr p "$" with
  | None => ret valid
  | Some i =>
      if Ascii.eqb (deref (drop (i + 1) p)) "{" then
        if negb (fst (scan_depth "{" "}" 1 (drop (i + 2) p)) =? 0) then
          let* _ := emit MUnclosedVariable in
          let* _ := incr_errors in
          variable_loop (snd (scan_depth "{" "}" 1 (drop (i + 2) p))) false
        else
          variable_loop (snd (scan_depth "{" "}" 1 (drop (i + 2) p))) valid
      else if Ascii.eqb (deref (drop (i + 1) p)) "[" then
        if negb (fst (scan_depth "[" "]" 1 (drop (i + 2) p)) =? 0) then
          let* _ := emit MUnclosedExpression in
          let* _ := incr_errors in
          variable_loop (snd (scan_depth "[" "]" 1 (drop (i + 2) p))) false
        else
          variable_loop (snd (scan_depth "[" "]" 1 (drop (i + 2) p))) valid
      else variable_loop (drop (i + 1) p) valid
  end.
Proof.
  rewrite variable_loop_equation_1.
  destruct (strchr_inspect p "$") as [[i|] Hi];
    cbv beta iota delta [variable_loop_unfold_clause_1];
    rewrite Hi; reflexivity.
Qed.

Lemma strchr_lt s c i : strchr s c = Some i -> (i < length s)%nat.
Proof.
  revert i; induction s as [|x s IH]; intros i; simpl; [discriminate|].
  destruct (Ascii.eqb x c).
  - intros [= <-]. lia.
  - destruct (strchr s c) as [j|]; simpl; [|discriminate].
    intros [= <-]. specialize (IH j eq_refl). lia.
Qed.

Lemma scan_depth_length o c n p :
  (length (snd (scan_depth o c n p)) <= length p)%nat.
Proof.
  revert n; induction p as [|x p IH]; intros n; simpl; [lia|].
  destruct (n >? 0); simpl; [|lia].
  etransitivity; [apply IH|lia].
Qed.

(** Induction over the iterations of the outer loop of
    [check_variable_syntax]: each one continues on a shorter string. *)
Lemma variable_loop_ind (P : cstring -> Prop) :
  (forall p, (forall q, (length q < length p)%nat -> P q) -> P p) ->
  forall p, P p.
Proof.
  intros H p. remember (length p) as n eqn:E.
  revert p E. induction n as [n IH] using lt_wf_ind.
  intros p ->. apply H. intros q Hq. eapply IH; eauto.
Qed.

Lemma logs_variable_loop p valid :
  logs variable_message (variable_loop p valid).
Proof.
  revert valid. induction p as [p IH] using variable_loop_ind. intros valid.
  rewrite variable_loop_step.
  destruct (strchr p "$") as [i|] eqn:Hi; [|apply logs_ret].
  apply strchr_lt in Hi.
  assert (Hd : forall o c, (length (snd (scan_depth o c 1 (drop (i + 2) p)))
                            < length p)%nat).
  { intros o c. pose proof (scan_depth_length o c 1 (drop (i + 2) p)) as Hs.
    rewrite length_drop in Hs. lia. }
  assert (Hd1 : (length (drop (i + 1) p) < length p)%nat)
    by (rewrite length_drop; lia).
  repeat match goal with
         | |- logs _ (if ?b then _ else _) => destruct b
         end;
    try (apply logs_error; [reflexivity | unfold variable_message; auto |]);
    apply IH; auto.
Qed.

Ltac logs_step :=
  match goal with
  | |- logs _ (ret _) => apply logs_ret
  | |- logs _ (bind (emit _) (fun _ => bind incr_errors _)) =>
      apply logs_error; [reflexivity | | ]
  | |- logs _ (bind (emit _) (fun _ => bind incr_warnings _)) =>
      apply logs_warning; [reflexivity | | ]
  | |- logs _ (bind _ _) => apply logs_bind; [|intros ?]
  | |- logs _ (if ?b then _ else _) => destruct b
  | |- logs _ (match ?x with _ => _ end) => destruct x
  end.

Lemma logs_check_balanced str : logs balance_message (check_balanced str).
Proof.
  unfold check_balanced.
  repeat logs_step; unfold balance_message; eauto 6.
Qed.

Lemma logs_check_variable_syntax str :
  logs variable_message (check_variable_syntax str).
Proof. apply logs_variable_loop. Qed.

Lemma logs_validate_priority s : logs priority_message (validate_priority s).
Proof.
  unfold validate_priority.
  repeat logs_step; unfold priority_message; eauto.
Qed.

Lemma logs_parse_context m line : logs any_message (parse_context m line).
Proof.
  unfold parse_context.
  repeat logs_step; try exact I. apply logs_set_current_context.
Qed.

Lemma logs_parse_include m line : logs any_message (parse_include m line).
Proof. unfold parse_include. repeat logs_step; exact I. Qed.

Lemma logs_any {A} Q (c : M A) : logs Q c -> logs any_message c.
Proof. apply logs_weaken. intros; exact I. Qed.

Lemma logs_parse_extension m line : logs any_message (parse_extension m line).
Proof.
  unfold parse_extension.
  repeat first
    [ apply (logs_any _ _ (logs_validate_priority _))
    | apply (logs_any _ _ (logs_check_balanced _))
    | apply (logs_any _ _ (logs_check_variable_syntax _))
    | logs_step ]; exact I.
Qed.

Lemma logs_validate_line chunk in_context :
  logs any_message (validate_line chunk in_context).
Proof.
  unfold validate_line.
  repeat first
    [ apply logs_incr_line_num
    | apply logs_parse_context
    | apply logs_parse_extension
    | apply logs_parse_include
    | logs_step ]; exact I.
Qed.

Lemma logs_validate_lines chunks in_context :
  logs any_message (validate_lines chunks in_context).
Proof.
  revert in_context; induction chunks as [|chunk rest IH]; intros b; simpl.
  - apply logs_ret.
  - apply logs_bind; [apply logs_validate_line | intros b'; apply IH].
Qed.

(** ** [check_balanced] *)

Lemma net_cons k c l :
  net k (c :: l) =
  (if Ascii.eqb c (opener k) then 1 else 0)
  - (if Ascii.eqb c (closer k) then 1 else 0) + net k l.
Proof.
  unfold net, occurrences. simpl.
  destruct (Ascii.eqb_spec c (opener k)) as [Ho|Ho];
    destruct (Ascii.eqb_spec c (closer k)) as [Hc|Hc];
    destruct (ascii_dec c (opener k)); destruct (ascii_dec c (closer k));
    try contradiction; lia.
Qed.

Lemma net_nil k : net k [] = 0.
Proof. reflexivity. Qed.

(** The result of the loop, read against the characters outside quotes:
    the counters are the net counts of those characters, none of them
    negative, and the loop ends inside a quote exactly when the string
    does. *)
Lemma balance_loop_spec s :
  forall prev p b c inq qc,
    0 <= p -> 0 <= b -> 0 <= c ->
    match balance_loop s prev p b c inq qc with
    | None => True
    | Some (p', b', c', inq') =>
        0 <= p' /\ 0 <= b' /\ 0 <= c' /\
        match outside_from (if inq then Some qc else None) prev s with
        | Some l =>
            inq' = false /\ p' = p + net Paren l
            /\ b' = b + net Bracket l /\ c' = c + net Brace l
        | None => inq' = true
        end
    end.
Proof.
  induction s as [|x s IH]; intros prev p b c inq qc Hp Hb Hc.
  - simpl. destruct inq; rewrite ?net_nil; repeat split; auto; lia.
  - destruct inq.
    + simpl.
      destruct (Ascii.eqb x qc && negb (Ascii.eqb prev BACKSLASH)).
      * apply (IH x p b c false qc); auto.
      * apply (IH x p b c true qc); auto.
    + cbn [balance_loop outside_from].
      destruct (Ascii.eqb x DQUOTE || Ascii.eqb x SQUOTE) eqn:Hq.
      * replace ((p <? 0) || (b <? 0) || (c <? 0)) with false
          by (symmetry; rewrite !orb_false_iff, !Z.ltb_ge; auto).
        apply (IH x p b c true x); auto.
      * apply orb_false_iff in Hq as [Hq1 Hq2].
        destruct (Ascii.eqb x "(") eqn:E1;
          [|destruct (Ascii.eqb x ")") eqn:E2;
            [|destruct (Ascii.eqb x "[") eqn:E3;
              [|destruct (Ascii.eqb x "]") eqn:E4;
                [|destruct (Ascii.eqb x "{") eqn:E5;
                  [|destruct (Ascii.eqb x "}") eqn:E6]]]]];
          match goal with
          | |- context [if ?t then None else _] => destruct t eqn:Hneg
          end; try exact I;
          apply orb_false_iff in Hneg as [Hneg Hn3];
          apply orb_false_iff in Hneg as [Hn1 Hn2];
          apply Z.ltb_ge in Hn1, Hn2, Hn3;
          match goal with
          | |- context [balance_loop s x ?p1 ?b1 ?c1 false qc] =>
              specialize (IH x p1 b1 c1 false qc Hn1 Hn2 Hn3);
              destruct (balance_loop s x p1 b1 c1 false qc)
                as [[[[p' b'] c'] inq']|]; [|exact I]
          end;
          destruct IH as (Hp' & Hb' & Hc' & IH);
          repeat split; auto;
          cbn [outside_from] in IH;
          destruct (outside_from None x s) as [l|]; simpl; auto;
          destruct IH as (-> & -> & -> & ->);
          rewrite !net_cons; simpl;
          rewrite ?E1, ?E2, ?E3, ?E4, ?E5, ?E6;
          repeat match goal with
                 | E : Ascii.eqb x _ = true |- _ =>
                     apply Ascii.eqb_eq in E; subst x
                 end; simpl; repeat split; lia.
Qed.

(** The loop on [pre ++ rest] is the loop on [rest], started where the
    loop on [pre] ended. *)
Lemma balance_loop_app pre rest :
  forall prev p b c inq qc,
    match balance_loop pre prev p b c inq qc with
    | None => balance_loop (pre ++ rest) prev p b c inq qc = None
    | Some (p', b', c', false) =>
        exists prev' qc',
          balance_loop (pre ++ rest) prev p b c inq qc =
          balance_loop rest prev' p' b' c' false qc'
    | Some (_, true) => True
    end.
Proof.
  induction pre as [|x pre IH]; intros prev p b c inq qc.
  - simpl. destruct inq; eauto.
  - cbn [balance_loop app]. destruct inq.
    + destruct (Ascii.eqb x qc && negb (Ascii.eqb prev BACKSLASH)); apply IH.
    + repeat match goal with
             | |- context [if ?t then _ else _] => destruct t
             end; try reflexivity; apply IH.
Qed.

Lemma nonneg_false p b c :
  0 <= p -> 0 <= b -> 0 <= c -> (p <? 0) || (b <? 0) || (c <? 0) = false.
Proof. intros. rewrite !orb_false_iff, !Z.ltb_ge. auto. Qed.

(** A quoted span is passed over, whatever it holds. *)
Lemma balance_loop_quoted q s :
  quoted_text q s ->
  forall prev p b c, prev <> BACKSLASH ->
    balance_loop (s ++ [q]) prev p b c true q = Some (p, b, c, false).
Proof.
  induction 1 as [|x s [Hx1 Hx2] _ IH]; intros prev p b c Hprev; simpl.
  - rewrite Ascii.eqb_refl.
    apply Ascii.eqb_neq in Hprev. rewrite Hprev. reflexivity.
  - apply Ascii.eqb_neq in Hx1. rewrite Hx1. simpl. apply IH; assumption.
Qed.

Lemma balance_loop_matched s :
  matched s ->
  forall prev p b c qc, 0 <= p -> 0 <= b -> 0 <= c ->
    balance_loop s prev p b c false qc = Some (p, b, c, false).
Proof.
  induction 1 as [|x [Hx Hq]|s t _ IHs _ IHt|k s _ IH|q s Hq Hs];
    intros prev p b c qc Hp Hb Hc.
  - reflexivity.
  - cbn [balance_loop].
    assert (Hd : Ascii.eqb x DQUOTE || Ascii.eqb x SQUOTE = false).
    { apply orb_false_iff; split; apply Ascii.eqb_neq; intros ->;
        apply Hq; [left | right]; reflexivity. }
    rewrite Hd.
    pose proof (Hx Paren) as [H1 H2]; pose proof (Hx Bracket) as [H3 H4];
      pose proof (Hx Brace) as [H5 H6]; simpl in *.
    apply Ascii.eqb_neq in H1, H2, H3, H4, H5, H6.
    rewrite H1, H2, H3, H4, H5, H6, nonneg_false by assumption. reflexivity.
  - pose proof (balance_loop_app s t prev p b c false qc) as H.
    rewrite IHs in H by assumption. destruct H as (prev' & qc' & ->).
    apply IHt; assumption.
  - assert (Hstep : exists p1 b1 c1,
               0 <= p1 /\ 0 <= b1 /\ 0 <= c1 /\
               balance_loop (opener k :: s ++ [closer k]) prev p b c false qc
               = balance_loop (s ++ [closer k]) (opener k) p1 b1 c1 false qc
               /\ forall prev' qc',
                   balance_loop [closer k] prev' p1 b1 c1 false qc'
                   = Some (p, b, c, false)).
    { destruct k; cbn [balance_loop opener closer]; simpl Ascii.eqb;
        cbn [orb].
      - exists (p + 1), b, c. rewrite nonneg_false by lia.
        repeat split; try lia. intros.
        replace (p + 1 - 1) with p by lia. rewrite nonneg_false by lia.
        reflexivity.
      - exists p, (b + 1), c. rewrite nonneg_false by lia.
        repeat split; try lia. intros.
        replace (b + 1 - 1) with b by lia. rewrite nonneg_false by lia.
        reflexivity.
      - exists p, b, (c + 1). rewrite nonneg_false by lia.
        repeat split; try lia. intros.
        replace (c + 1 - 1) with c by lia. rewrite nonneg_false by lia.
        reflexivity. }
    destruct Hstep as (p1 & b1 & c1 & Hp1 & Hb1 & Hc1 & -> & Hclose).
    pose proof (balance_loop_app s [closer k] (opener k) p1 b1 c1 false qc)
      as H.
    rewrite IH in H by assumption. destruct H as (prev' & qc' & ->).
    apply Hclose.
  - assert (Hnb : q <> BACKSLASH) by (destruct Hq; subst q; discriminate).
    cbn [balance_loop].
    assert (Hd : Ascii.eqb q DQUOTE || Ascii.eqb q SQUOTE = true)
      by (destruct Hq; subst q; reflexivity).
    rewrite Hd, nonneg_false by assumption.
    apply balance_loop_quoted; assumption.
Qed.

Lemma check_balanced_run str w :
  check_balanced str w =
  match balance_loop str NUL 0 0 0 false NUL with
  | None => (false, report_error MTooManyClosing w)
  | Some (parens, brackets, braces, in_quote) =>
      if in_quote then (false, report_error MUnclosedQuote w)
      else if negb (parens =? 0) || negb (brackets =? 0) || negb (braces =? 0)
      then (false, report_error (MUnbalanced parens brackets braces) w)
      else (true, w)
  end.
Proof.
  unfold check_balanced.
  destruct (balance_loop str NUL 0 0 0 false NUL) as [[[[p b] c] [|]]|];
    try reflexivity.
  destruct (negb (p =? 0) || negb (b =? 0) || negb (c =? 0)); reflexivity.
Qed.

(** C3 (amended).  [check_balanced] accepts every string made of matched
    pairs of [()], [[]], [{}], quoted spans and plain characters, leaving
    the state untouched.  On a string with an unmatched closing delimiter
    (a closer outside quotes that no opener of its kind is left for) it
    fails with the "too many closing" diagnostic, which carries no
    counters, whatever follows the closer.  Every failure is one of three
    diagnostics, and the one that carries counters, given at the end of the
    text, reports the net excess of openers of each kind outside quotes. *)
Theorem check_balanced_verdicts :
  (forall s w, matched s -> check_balanced s w = (true, w))
  /\ (forall pre k rest l w,
         outside pre = Some l -> net k l <= 0 ->
         check_balanced (pre ++ closer k :: rest) w
         = (false, report_error MTooManyClosing w))
  /\ (forall s w,
         check_balanced s w = (true, w)
         \/ check_balanced s w = (false, report_error MTooManyClosing w)
         \/ check_balanced s w = (false, report_error MUnclosedQuote w)
         \/ exists l,
              outside s = Some l
              /\ 0 <= net Paren l /\ 0 <= net Bracket l /\ 0 <= net Brace l
              /\ (net Paren l, net Bracket l, net Brace l) <> (0, 0, 0)
              /\ check_balanced s w
                 = (false,
                    report_error
                      (MUnbalanced (net Paren l) (net Bracket l)
                         (net Brace l)) w)).
Proof.
  split; [|split].
  - intros s w Hs. rewrite check_balanced_run.
    rewrite (balance_loop_matched s Hs) by lia. reflexivity.
  - intros pre k rest l w Hout Hnet. rewrite check_balanced_run.
    pose proof (balance_loop_app pre (closer k :: rest) NUL 0 0 0 false NUL)
      as Happ.
    pose proof (balance_loop_spec pre NUL 0 0 0 false NUL) as Hspec.
    unfold outside in Hout. cbn [negb] in Hspec. rewrite Hout in Hspec.
    destruct (balance_loop pre NUL 0 0 0 false NUL)
      as [[[[p b] c] inq]|]; [|rewrite Happ; reflexivity].
    destruct Hspec as (Hp & Hb & Hc & -> & -> & -> & ->); try lia.
    destruct Happ as (prev' & qc' & ->).
    destruct k; cbn [balance_loop closer]; simpl Ascii.eqb; cbn [orb];
      match goal with
      | |- context [if ?t then None else _] =>
          replace t with true; [reflexivity|]
      end; symmetry; rewrite !orb_true_iff, !Z.ltb_lt; lia.
  - intros s w. rewrite check_balanced_run.
    pose proof (balance_loop_spec s NUL 0 0 0 false NUL) as Hspec.
    destruct (balance_loop s NUL 0 0 0 false NUL)
      as [[[[p b] c] inq]|]; [|auto].
    destruct Hspec as (Hp & Hb & Hc & Hspec); try lia.
    destruct inq; [auto|].
    destruct (negb (p =? 0) || negb (b =? 0) || negb (c =? 0)) eqn:Hnz;
      [|auto].
    right; right; right.
    fold (outside s) in Hspec.
    destruct (outside s) as [l|]; [|discriminate].
    destruct Hspec as (_ & -> & -> & ->). exists l.
    rewrite !Z.add_0_l in *. repeat split; auto.
    intros [= E1 E2 E3]. rewrite E1, E2, E3 in Hnz. discriminate.
Qed.

(** A string of matched pairs is accepted; a closer too many is rejected
    whatever follows it. *)
Lemma check_balanced_verdicts_witness :
  (matched (lit "([{}])")
   /\ check_balanced (lit "([{}])") initial_world = (true, initial_world))
  /\ (outside (lit "()") = Some (lit "()") /\ net Paren (lit "()") <= 0
      /\ check_balanced (lit "())(") initial_world
         = (false, report_error MTooManyClosing initial_world)).
Proof.
  assert (Hm : matched (lit "([{}])")).
  { apply (matched_pair Paren (lit "[{}]")).
    apply (matched_pair Bracket (lit "{}")).
    apply (matched_pair Brace []).
    apply matched_nil. }
  assert (Ho : outside (lit "()") = Some (lit "()")) by reflexivity.
  assert (Hn : net Paren (lit "()") <= 0) by (vm_compute; discriminate).
  split; [split; [exact Hm|] | split; [exact Ho | split; [exact Hn|]]].
  - apply (proj1 check_balanced_verdicts _ _ Hm).
  - apply (proj1 (proj2 check_balanced_verdicts)
             (lit "()") Paren (lit "(") (lit "()") initial_world Ho Hn).
Defined.

(** C3 as stated fails on [")"]: the check is invalid, but what it reports
    is the "too many closing" message, and no message with counters. *)
Lemma check_balanced_closer_reports_no_counters :
  fst (check_balanced (lit ")") initial_world) = false
  /\ err_stream (snd (check_balanced (lit ")") initial_world))
     = [Diag 0 MTooManyClosing]
  /\ ~ (exists p b c,
          In (Diag 0 (MUnbalanced p b c))
             (err_stream (snd (check_balanced (lit ")") initial_world)))).
Proof.
  split; [reflexivity|]. split; [reflexivity|].
  intros (p & b & c & [H|[]]). discriminate H.
Qed.

(** ** [check_variable_syntax] *)

Lemma scan_depth_unclosed o c n p :
  0 <= n -> fst (scan_depth o c n p) <> 0 -> snd (scan_depth o c n p) = [].
Proof.
  revert n; induction p as [|x p IH]; intros n Hn; simpl; [reflexivity|].
  destruct (n >? 0) eqn:E; simpl.
  - apply Z.gtb_lt in E. apply IH.
    destruct (Ascii.eqb x o); [lia|]. destruct (Ascii.eqb x c); lia.
  - rewrite Z.gtb_ltb in E. apply Z.ltb_ge in E. intros H. lia.
Qed.

Lemma tally_report_error msg w :
  is_error msg = true ->
  tally [Diag (line_num (vstate w)) msg] w (report_error msg w).
Proof.
  intros He.
  destruct (logs_error any_message msg (ret tt) He I (logs_ret _ tt) w)
    as (ds & T & _).
  unfold tally in *. change (snd _) with (report_error msg w) in T.
  destruct T as (E1 & E2 & E3).
  assert (ds = [Diag (line_num (vstate w)) msg]) as ->
    by (apply (app_inv_head (err_stream w)); rewrite <- E1; reflexivity).
  auto.
Qed.

Lemma variable_loop_nil valid : variable_loop [] valid = ret valid.
Proof. rewrite variable_loop_step. reflexivity. Qed.

Lemma variable_loop_once p :
  forall valid w, exists ds,
    tally ds w (snd (variable_loop p valid w)) /\ (length ds <= 1)%nat.
Proof.
  induction p as [p IH] using variable_loop_ind. intros valid w.
  rewrite variable_loop_step.
  destruct (strchr p "$") as [i|] eqn:Hi;
    [|exists []; split; [apply tally_nil | simpl; lia]].
  apply strchr_lt in Hi.
  assert (Hd : forall o c, (length (snd (scan_depth o c 1 (drop (i + 2) p)))
                            < length p)%nat).
  { intros o c. pose proof (scan_depth_length o c 1 (drop (i + 2) p)) as Hs.
    rewrite length_drop in Hs. lia. }
  assert (Hd1 : (length (drop (i + 1) p) < length p)%nat)
    by (rewrite length_drop; lia).
  assert (Hone : forall msg o c,
             is_error msg = true ->
             fst (scan_depth o c 1 (drop (i + 2) p)) <> 0 ->
             exists ds,
               tally ds w
                 (snd ((let* _ := emit msg in
                        let* _ := incr_errors in
                        variable_loop
                          (snd (scan_depth o c 1 (drop (i + 2) p))) false)
                         w))
               /\ (length ds <= 1)%nat).
  { intros msg o c He Hne.
    rewrite (scan_depth_unclosed o c 1 _ ltac:(lia) Hne), variable_loop_nil.
    exists [Diag (line_num (vstate w)) msg].
    split; [apply tally_report_error; exact He | simpl; lia]. }
  destruct (Ascii.eqb (deref (drop (i + 1) p)) "{").
  - destruct (fst (scan_depth "{" "}" 1 (drop (i + 2) p)) =? 0) eqn:E; simpl.
    + apply IH, Hd.
    + apply Z.eqb_neq in E. apply Hone; [reflexivity | exact E].
  - destruct (Ascii.eqb (deref (drop (i + 1) p)) "[").
    + destruct (fst (scan_depth "[" "]" 1 (drop (i + 2) p)) =? 0) eqn:E;
        simpl.
      * apply IH, Hd.
      * apply Z.eqb_neq in E. apply Hone; [reflexivity | exact E].
    + apply IH, Hd1.
Qed.

(** C9.  One call of [check_variable_syntax] writes at most one diagnostic
    and adds at most 1 to [errors]: a reference that is not closed makes
    the depth scan run to the end of the string, so the outer loop finds
    no further ['$']. *)
Theorem check_variable_syntax_reports_once :
  (forall o c p,
      fst (scan_depth o c 1 p) <> 0 -> snd (scan_depth o c 1 p) = [])
  /\ (forall str w, exists ds,
         tally ds w (snd (check_variable_syntax str w))
         /\ (length ds <= 1)%nat
         /\ errors (vstate (snd (check_variable_syntax str w)))
            <= errors (vstate w) + 1).
Proof.
  split.
  - intros o c p. apply scan_depth_unclosed. lia.
  - intros str w. unfold check_variable_syntax.
    destruct (variable_loop_once str true w) as (ds & T & Hlen).
    exists ds. split; [exact T|]. split; [exact Hlen|].
    destruct T as (_ & -> & _).
    pose proof (length_filter (fun d => is_error (d_msg d) = true) ds).
    unfold error_diags. lia.
Qed.

(** The scan of ["X"] for a closing brace ends open, at the end of the
    string. *)
Lemma check_variable_syntax_reports_once_witness :
  fst (scan_depth "{" "}" 1 (lit "X")) <> 0
  /\ snd (scan_depth "{" "}" 1 (lit "X")) = [].
Proof.
  assert (H : fst (scan_depth "{" "}" 1 (lit "X")) <> 0)
    by (vm_compute; discriminate).
  split; [exact H|].
  apply (proj1 check_variable_syntax_reports_once "{" "}" (lit "X") H).
Defined.

(** ** The driver *)

Lemma validate_chunks_final chunks :
  final (validate_chunks chunks)
  = snd (validate_lines chunks false initial_world).
Proof.
  unfold validate_chunks.
  destruct (validate_lines chunks false initial_world) as [b w]. simpl.
  destruct ((errors (vstate w) =? 0) && (warnings (vstate w) =? 0));
    reflexivity.
Qed.

Lemma validate_chunks_exit chunks :
  exit_status (validate_chunks chunks)
  = if errors (vstate (final (validate_chunks chunks))) >? 0 then 1 else 0.
Proof.
  unfold validate_chunks.
  destruct (validate_lines chunks false initial_world) as [b w].
  destruct ((errors (vstate w) =? 0) && (warnings (vstate w) =? 0)) eqn:E;
    simpl; [|reflexivity].
  apply andb_true_iff in E as [E _]. apply Z.eqb_eq in E. rewrite E.
  reflexivity.
Qed.

(** C6.  When the file opens, the exit status is non-zero exactly when
    [errors] is positive at the end: it is a function of [errors] alone,
    and a run with warnings only exits with 0. *)
Theorem exit_status_follows_errors :
  (forall content,
      let o := validate_dialplan (Some content) in
      (exit_status o <> 0 <-> errors (vstate (final o)) > 0)
      /\ exit_status o = (if errors (vstate (final o)) >? 0 then 1 else 0))
  /\ (let o := validate_dialplan (Some (line "[default]" ++ line "bogus")) in
      warnings (vstate (final o)) = 1 /\ errors (vstate (final o)) = 0
      /\ exit_status o = 0).
Proof.
  split.
  - intros content. simpl.
    rewrite validate_chunks_exit.
    destruct (errors (vstate (final (validate_chunks (read_lines content))))
              >? 0) eqn:E.
    + apply Z.gtb_lt in E. split; [|reflexivity]. split; intros; lia.
    + rewrite Z.gtb_ltb in E. apply Z.ltb_ge in E.
      split; [|reflexivity]. split; intros; lia.
  - vm_compute. auto.
Qed.

(** A run with one error exits with a non-zero status. *)
Lemma exit_status_follows_errors_witness :
  errors (vstate (final (validate_dialplan (Some (line "[test"))))) > 0
  /\ exit_status (validate_dialplan (Some (line "[test"))) <> 0.
Proof.
  assert (H : errors (vstate (final (validate_dialplan
                                       (Some (line "[test"))))) > 0)
    by reflexivity.
  split; [exact H|].
  apply (proj1 (proj1 exit_status_follows_errors (line "[test"))), H.
Defined.

(** ** The line buffer *)

Lemma until_nul_no_nul l : Forall (fun c => c <> NUL) (until_nul l).
Proof.
  induction l as [|c l IH]; simpl; [constructor|].
  destruct (Ascii.eqb_spec c NUL); constructor; assumption.
Qed.

Lemma lookup_until_nul l :
  forall k, (k <= length (until_nul l))%nat ->
    default NUL (l !! k) = deref (drop k (until_nul l)).
Proof.
  induction l as [|c l IH]; intros k Hk; simpl in *.
  - destruct k; reflexivity.
  - destruct (Ascii.eqb_spec c NUL) as [->|Hc]; simpl in *.
    + assert (k = O) as -> by lia. reflexivity.
    + destruct k as [|k]; [reflexivity|]. simpl. apply IH. lia.
Qed.

Lemma until_nul_drop l :
  forall k, (k <= length (until_nul l))%nat ->
    until_nul (drop k l) = drop k (until_nul l).
Proof.
  induction l as [|c l IH]; intros k Hk; simpl in *.
  - destruct k; reflexivity.
  - destruct (Ascii.eqb_spec c NUL) as [->|Hc]; simpl in *.
    + assert (k = O) as -> by lia. reflexivity.
    + destruct k as [|k]; simpl.
      * destruct (Ascii.eqb_spec c NUL); [contradiction|reflexivity].
      * apply IH. lia.
Qed.

Lemma until_nul_insert l :
  forall e, (e <= length (until_nul l))%nat ->
    until_nul (<[e := NUL]> l) = take e (until_nul l).
Proof.
  induction l as [|c l IH]; intros e He; simpl in *.
  - destruct e; reflexivity.
  - destruct (Ascii.eqb_spec c NUL) as [->|Hc]; simpl in *.
    + assert (e = O) as -> by lia. reflexivity.
    + destruct e as [|e]; simpl; [reflexivity|].
      destruct (Ascii.eqb_spec c NUL); [contradiction|].
      f_equal. apply IH. lia.
Qed.

(** [*(p + k)] is the [k]-th character of the string at [p]. *)
Lemma peek_cstr m p k :
  (k <= length (cstr m p))%nat ->
  peek m (p + k) = deref (drop k (cstr m p)).
Proof.
  intros Hk. unfold peek, cstr in *.
  rewrite <- lookup_drop. apply lookup_until_nul, Hk.
Qed.

(** The string at [p + k] is the string at [p] without its first [k]
    characters. *)
Lemma cstr_add m p k :
  (k <= length (cstr m p))%nat -> cstr m (p + k) = drop k (cstr m p).
Proof.
  intros Hk. unfold cstr in *.
  rewrite <- drop_drop. apply until_nul_drop, Hk.
Qed.

(** Writing NUL at [p + e] cuts the string at [p] to its first [e]
    characters. *)
Lemma cstr_poke m p e :
  (e <= length (cstr m p))%nat ->
  cstr (poke m (p + e) NUL) p = take e (cstr m p).
Proof.
  intros He. unfold cstr, poke in *.
  rewrite drop_insert_ge by lia.
  replace (p + e - p)%nat with e by lia.
  apply until_nul_insert, He.
Qed.

Lemma skip_space_le s : (skip_space s <= length s)%nat.
Proof.
  induction s as [|c s IH]; simpl; [lia|]. destruct (isspace c); simpl; lia.
Qed.

Lemma skip_space_app ws c rest :
  Forall (fun x => isspace x = true) ws -> isspace c = false ->
  skip_space (ws ++ c :: rest) = length ws.
Proof.
  induction 1 as [|x ws Hx _ IH]; intros Hc; simpl.
  - rewrite Hc. reflexivity.
  - rewrite Hx, IH by assumption. reflexivity.
Qed.

Lemma trim_back_bounds m str k :
  (str <= trim_back m str k <= str + k)%nat.
Proof.
  induction k as [|k IH]; simpl; [lia|].
  destruct (isspace (peek m (str + S k))); lia.
Qed.

Lemma trim_back_ge m str k :
  forall i, (i <= k)%nat -> isspace (peek m (str + i)) = false ->
    (str + i <= trim_back m str k)%nat.
Proof.
  induction k as [|k IH]; intros i Hi Hns; simpl.
  - lia.
  - destruct (isspace (peek m (str + S k))) eqn:E.
    + apply IH; [|exact Hns].
      destruct (Nat.eq_dec i (S k)) as [->|]; [congruence | lia].
    + lia.
Qed.

(** [trim] returns the first character that is not whitespace, and leaves
    there a string that is cut after the last such character or later. *)
Lemma trim_spec m p :
  let s := cstr m p in
  let s1 := drop (skip_space s) s in
  snd (trim m p) = (p + skip_space s)%nat
  /\ exists n, (0 < n)%nat
       /\ cstr (fst (trim m p)) (snd (trim m p)) = take n s1
       /\ forall i c, s1 !! i = Some c -> isspace c = false -> (i < n)%nat.
Proof.
  intros s s1. unfold trim. fold s.
  pose proof (skip_space_le s) as Hle.
  assert (Hs1 : cstr m (p + skip_space s) = s1) by (apply cstr_add, Hle).
  assert (Hpk : peek m (p + skip_space s) = deref s1)
    by (apply peek_cstr, Hle).
  rewrite Hs1, Hpk.
  destruct (Ascii.eqb_spec (deref s1) NUL) as [E|E]; simpl.
  - split; [reflexivity|]. exists 1%nat. split; [lia|].
    assert (s1 = []) as ->.
    { pose proof (until_nul_no_nul (drop (p + skip_space s) m)) as Hn.
      fold (cstr m (p + skip_space s)) in Hn. rewrite Hs1 in Hn.
      destruct s1 as [|c r]; [reflexivity|].
      inversion Hn; subst. simpl in E. contradiction. }
    rewrite Hs1. split; [reflexivity|]. intros i c H. discriminate H.
  - split; [reflexivity|].
    set (str := (p + skip_space s)%nat) in *.
    set (k := (strlen s1 - 1)%nat).
    pose proof (trim_back_bounds m str k) as [Hlo Hhi].
    exists (trim_back m str k + 1 - str)%nat. split; [lia|].
    assert (Hlen : (0 < length s1)%nat)
      by (destruct s1; [contradiction|simpl; lia]).
    unfold strlen in k. split.
    + remember (trim_back m str k + 1 - str)%nat as n eqn:En.
      replace (trim_back m str k + 1)%nat with (str + n)%nat by lia.
      rewrite cstr_poke by (rewrite Hs1; lia).
      rewrite Hs1. reflexivity.
    + intros i c Hi Hc.
      assert (Hik : (i <= k)%nat).
      { apply lookup_lt_Some in Hi. lia. }
      pose proof (trim_back_ge m str k i Hik) as Hge.
      rewrite peek_cstr, Hs1 in Hge
        by (rewrite Hs1; apply lookup_lt_Some in Hi; lia).
      assert (Hd : deref (drop i s1) = c).
      { unfold deref. rewrite (drop_S _ _ _ Hi). reflexivity. }
      rewrite Hd in Hge. specialize (Hge Hc). lia.
Qed.

(** The line that the loop body sees once the newline is cut. *)
Lemma cut_newline chunk :
  cstr (match strchr (cstr (of_cstring chunk) O) NEWLINE with
        | Some newline => poke (of_cstring chunk) newline NUL
        | None => of_cstring chunk
        end) O
  = line_text chunk.
Proof.
  unfold cstr, of_cstring, poke. rewrite !drop_0.
  induction chunk as [|c chunk IH]; [reflexivity|].
  cbn [app until_nul line_text].
  destruct (Ascii.eqb_spec c NUL) as [->|Hnul]; [reflexivity|].
  cbn [orb strchr].
  destruct (Ascii.eqb_spec c NEWLINE) as [->|Hnl]; [reflexivity|].
  destruct (strchr (until_nul (chunk ++ [NUL])) NEWLINE) as [i|]; simpl.
  - destruct (Ascii.eqb_spec c NUL); [contradiction|]. f_equal. exact IH.
  - destruct (Ascii.eqb_spec c NUL); [contradiction|]. f_equal. exact IH.
Qed.

(** ** The loop body, branch by branch *)

Lemma validate_line_dispatch chunk in_context :
  validate_line chunk in_context =
  let* _ := incr_line_num in
  if is_comment_or_blank (line_text chunk) then ret in_context
  else
    let '(m, trimmed) := trimmed_buffer chunk in
    dispatch (classify in_context (cstr m trimmed)) m trimmed in_context.
Proof.
  unfold validate_line, trimmed_buffer. cbn [Nat.add].
  rewrite cut_newline.
  f_equal.
  destruct (is_comment_or_blank (line_text chunk)); [reflexivity|].
  destruct (trim _ O) as [m trimmed].
  unfold classify, dispatch.
  repeat match goal with
         | |- context [if ?b then _ else _] => destruct b; try reflexivity
         end.
Qed.

Lemma trimmed_buffer_spec chunk :
  let s := line_text chunk in
  let s1 := drop (skip_space s) s in
  snd (trimmed_buffer chunk) = skip_space s
  /\ exists n, (0 < n)%nat
       /\ cstr (fst (trimmed_buffer chunk)) (snd (trimmed_buffer chunk))
          = take n s1
       /\ forall i c, s1 !! i = Some c -> isspace c = false -> (i < n)%nat.
Proof.
  unfold trimmed_buffer.
  set (m := match strchr (cstr (of_cstring chunk) O) NEWLINE with
            | Some newline => poke (of_cstring chunk) newline NUL
            | None => of_cstring chunk
            end).
  assert (Hm : cstr m O = line_text chunk) by apply cut_newline.
  clearbody m.
  pose proof (trim_spec m O) as H. cbv zeta in H.
  rewrite Hm in H. exact H.
Qed.

Lemma deref_take n s : (0 < n)%nat -> deref (take n s) = deref s.
Proof. destruct n; [lia|]. destruct s; reflexivity. Qed.

(** The first character of the trimmed line. *)
Lemma trimmed_first chunk :
  deref (cstr (fst (trimmed_buffer chunk)) (snd (trimmed_buffer chunk)))
  = first_nonspace (line_text chunk).
Proof.
  destruct (trimmed_buffer_spec chunk) as (_ & n & Hn & -> & _).
  apply deref_take, Hn.
Qed.

Lemma dispatch_flag d m trimmed in_context w :
  fst (dispatch d m trimmed in_context w)
  = match d with ContextHeader => true | _ => in_context end.
Proof.
  destruct d; simpl; rewrite ?bind_run; try reflexivity.
  destruct (negb _); reflexivity.
Qed.

Lemma classify_context in_context trimmed :
  classify in_context trimmed = ContextHeader
  <-> Ascii.eqb (deref trimmed) "[" = true.
Proof.
  unfold classify. destruct (Ascii.eqb (deref trimmed) "[").
  - split; reflexivity.
  - split; [|discriminate].
    repeat match goal with
           | |- context [if ?b then _ else _] => destruct b
           end; discriminate.
Qed.

Lemma comment_or_blank_no_context chunk :
  is_comment_or_blank (line_text chunk) = true -> opens_context chunk = false.
Proof.
  unfold is_comment_or_blank, opens_context, first_nonspace.
  intros H. apply orb_true_iff in H as [H|H];
    [apply orb_true_iff in H as [H|H]|];
    apply Ascii.eqb_eq in H; rewrite H; reflexivity.
Qed.

(** The value of [in_context] after a line. *)
Lemma validate_line_flag chunk in_context w :
  fst (validate_line chunk in_context w) = in_context || opens_context chunk.
Proof.
  rewrite validate_line_dispatch, bind_run.
  destruct (is_comment_or_blank (line_text chunk)) eqn:Hc.
  - rewrite (comment_or_blank_no_context _ Hc), orb_false_r. reflexivity.
  - pose proof (trimmed_first chunk) as Hf.
    destruct (trimmed_buffer chunk) as [m trimmed]. simpl in Hf.
    rewrite dispatch_flag. unfold opens_context. rewrite <- Hf.
    destruct (Ascii.eqb (deref (cstr m trimmed)) "[") eqn:E.
    + apply (classify_context in_context) in E. rewrite E.
      rewrite orb_true_r. reflexivity.
    + destruct (classify in_context (cstr m trimmed)) eqn:Hd;
        rewrite ?orb_false_r; try reflexivity.
      apply classify_context in Hd. congruence.
Qed.

Lemma validate_lines_flag chunks :
  forall in_context w,
    fst (validate_lines chunks in_context w)
    = in_context || existsb opens_context chunks.
Proof.
  induction chunks as [|chunk rest IH]; intros b w; simpl.
  - rewrite orb_false_r. reflexivity.
  - rewrite bind_run, IH, validate_line_flag, orb_assoc. reflexivity.
Qed.

Lemma validate_chunks_flag chunks :
  final_in_context (validate_chunks chunks) = existsb opens_context chunks.
Proof.
  pose proof (validate_lines_flag chunks false initial_world) as H.
  unfold validate_chunks.
  destruct (validate_lines chunks false initial_world) as [b w].
  simpl in H. subst b.
  destruct ((errors (vstate w) =? 0) && (warnings (vstate w) =? 0));
    reflexivity.
Qed.

(** C7.  [in_context] is false before the first line; a line that begins
    with ['['] makes it true, whether its header parses or not; once true
    it stays true.  So at the end it is true exactly when some line began
    with ['[']. *)
Theorem in_context_is_set_by_headers_only :
  final_in_context (validate_chunks []) = false
  /\ (forall chunk in_context w,
         opens_context chunk = true ->
         fst (validate_line chunk in_context w) = true)
  /\ (forall chunk w, fst (validate_line chunk true w) = true)
  /\ (forall chunk w,
         opens_context chunk = false ->
         fst (validate_line chunk false w) = false)
  /\ (forall chunks,
         final_in_context (validate_chunks chunks)
         = existsb opens_context chunks)
  /\ (validate_line (lit "[test") false initial_world
      = (true, World (ValidatorState 1 0 1 []) [Diag 1 MMalformedContext])
      /\ validate_line (lit "[ ]") false initial_world
         = (true, World (ValidatorState 1 0 1 []) [Diag 1 MEmptyContext])).
Proof.
  repeat split.
  - intros chunk b w H. rewrite validate_line_flag, H, orb_true_r.
    reflexivity.
  - intros chunk w. rewrite validate_line_flag. reflexivity.
  - intros chunk w H. rewrite validate_line_flag, H. reflexivity.
  - apply validate_chunks_flag.
Qed.

(** A header without its closing bracket sets the flag. *)
Lemma in_context_is_set_by_headers_only_witness :
  opens_context (lit "[test") = true
  /\ fst (validate_line (lit "[test") false initial_world) = true.
Proof.
  assert (H : opens_context (lit "[test") = true) by reflexivity.
  split; [exact H|].
  apply (proj1 (proj2 in_context_is_set_by_headers_only) _ _ _ H).
Defined.

(** ** The stored context name is never read *)

Lemma agree_ret {A} (a : A) : agree (ret a) (ret a).
Proof. intros w1 w2 H. split; [reflexivity | exact H]. Qed.

Lemma agree_bind {A B} (c1 c2 : M A) (k1 k2 : A -> M B) :
  agree c1 c2 -> (forall a, agree (k1 a) (k2 a)) ->
  agree (bind c1 k1) (bind c2 k2).
Proof.
  intros Hc Hk w1 w2 H. rewrite !bind_run.
  destruct (Hc w1 w2 H) as [E H']. rewrite E. apply Hk, H'.
Qed.

Lemma agree_emit msg : agree (emit msg) (emit msg).
Proof.
  intros w1 w2 (E1 & E2 & E3 & E4). split; [reflexivity|].
  unfold same_but_context; simpl. rewrite E3, E4. auto.
Qed.

Lemma agree_incr_errors : agree incr_errors incr_errors.
Proof.
  intros w1 w2 (E1 & E2 & E3 & E4). split; [reflexivity|].
  unfold same_but_context; simpl. rewrite E1. auto.
Qed.

Lemma agree_incr_warnings : agree incr_warnings incr_warnings.
Proof.
  intros w1 w2 (E1 & E2 & E3 & E4). split; [reflexivity|].
  unfold same_but_context; simpl. rewrite E2. auto.
Qed.

Lemma agree_incr_line_num : agree incr_line_num incr_line_num.
Proof.
  intros w1 w2 (E1 & E2 & E3 & E4). split; [reflexivity|].
  unfold same_but_context; simpl. rewrite E3. auto.
Qed.

(** The one place where the name is written: any two names agree. *)
Lemma agree_set_current_context n1 n2 :
  agree (set_current_context n1) (set_current_context n2).
Proof.
  intros w1 w2 (E1 & E2 & E3 & E4). split; [reflexivity|].
  unfold same_but_context; simpl. auto.
Qed.

Ltac agree_step :=
  match goal with
  | |- agree (ret _) (ret _) => apply agree_ret
  | |- agree (emit _) (emit _) => apply agree_emit
  | |- agree incr_errors incr_errors => apply agree_incr_errors
  | |- agree incr_warnings incr_warnings => apply agree_incr_warnings
  | |- agree incr_line_num incr_line_num => apply agree_incr_line_num
  | |- agree (set_current_context _) (set_current_context _) =>
      apply agree_set_current_context
  | |- agree (bind _ _) (bind _ _) => apply agree_bind; [|intros ?]
  | |- agree (if ?b then _ else _) (if ?b then _ else _) => destruct b
  | |- agree (match ?x with _ => _ end) (match ?x with _ => _ end) =>
      destruct x
  end.

Lemma agree_variable_loop p valid :
  agree (variable_loop p valid) (variable_loop p valid).
Proof.
  revert valid. induction p as [p IH] using variable_loop_ind. intros valid.
  rewrite variable_loop_step.
  destruct (strchr p "$") as [i|] eqn:Hi; [|apply agree_ret].
  apply strchr_lt in Hi.
  assert (Hd : forall o c, (length (snd (scan_depth o c 1 (drop (i + 2) p)))
                            < length p)%nat).
  { intros o c. pose proof (scan_depth_length o c 1 (drop (i + 2) p)) as Hs.
    rewrite length_drop in Hs. lia. }
  assert (Hd1 : (length (drop (i + 1) p) < length p)%nat)
    by (rewrite length_drop; lia).
  repeat first [ apply IH; auto | agree_step ].
Qed.

Lemma agree_check_balanced str :
  agree (check_balanced str) (check_balanced str).
Proof. unfold check_balanced. repeat agree_step. Qed.

Lemma agree_validate_priority s :
  agree (validate_priority s) (validate_priority s).
Proof. unfold validate_priority. repeat agree_step. Qed.

Lemma agree_parse_context m line :
  agree (parse_context m line) (parse_context m line).
Proof. unfold parse_context. repeat agree_step. Qed.

Lemma agree_parse_include m line :
  agree (parse_include m line) (parse_include m line).
Proof. unfold parse_include. repeat agree_step. Qed.

Lemma agree_parse_extension m line :
  agree (parse_extension m line) (parse_extension m line).
Proof.
  unfold parse_extension, check_variable_syntax.
  repeat first
    [ apply agree_validate_priority
    | apply agree_check_balanced
    | apply agree_variable_loop
    | agree_step ].
Qed.

Lemma agree_validate_line chunk in_context :
  agree (validate_line chunk in_context) (validate_line chunk in_context).
Proof.
  unfold validate_line.
  repeat first
    [ apply agree_parse_context
    | apply agree_parse_extension
    | apply agree_parse_include
    | agree_step ].
Qed.

Lemma line_text_app pre rest :
  Forall (fun c => c <> NUL /\ c <> NEWLINE) pre ->
  line_text (pre ++ rest) = pre ++ line_text rest.
Proof.
  induction 1 as [|c pre [H1 H2] _ IH]; simpl; [reflexivity|].
  apply Ascii.eqb_neq in H1, H2. rewrite H1, H2, IH. reflexivity.
Qed.

Lemma strchr_first pre c rest :
  Forall (fun x => x <> c) pre ->
  strchr (pre ++ c :: rest) c = Some (length pre).
Proof.
  induction 1 as [|x pre Hx _ IH]; simpl.
  - rewrite Ascii.eqb_refl. reflexivity.
  - apply Ascii.eqb_neq in Hx. rewrite Hx, IH. reflexivity.
Qed.

Lemma skip_space_nonblank n :
  Exists (fun c => isspace c = false) n -> drop (skip_space n) n <> [].
Proof.
  induction 1 as [c n Hc|c n _ IH]; simpl.
  - rewrite Hc. discriminate.
  - destruct (isspace c); [exact IH | discriminate].
Qed.

(** What the loop body does on a well-formed context header: it counts the
    line and stores a name. *)
Lemma validate_line_header ws n tail in_context :
  indentation ws -> context_name n ->
  exists name,
    validate_line (ws ++ "[" :: n ++ "]" :: tail) in_context =
    let* _ := incr_line_num in
    let* _ := (let* _ := set_current_context name in ret true) in
    ret true.
Proof.
  intros Hws [Hn Hne].
  set (chunk := ws ++ "[" :: n ++ "]" :: tail).
  assert (Hline : line_text chunk = ws ++ "[" :: n ++ "]" :: line_text tail).
  { unfold chunk.
    rewrite line_text_app.
    2:{ eapply Forall_impl; [exact Hws|]. intros c [Hc1 Hc2]. split; auto.
        intros ->. discriminate Hc1. }
    f_equal.
    change ("[" :: n ++ "]" :: tail) with (("[" :: n) ++ "]" :: tail).
    rewrite line_text_app.
    2:{ constructor; [split; discriminate|].
        eapply Forall_impl; [exact Hn|]. intros c (_ & H2 & H3). auto. }
    reflexivity. }
  assert (Hskip : skip_space (line_text chunk) = length ws).
  { rewrite Hline. apply skip_space_app; [|reflexivity].
    eapply Forall_impl; [exact Hws|]. intros c [H _]. exact H. }
  assert (Hcom : is_comment_or_blank (line_text chunk) = false).
  { unfold is_comment_or_blank. rewrite Hskip, Hline, drop_app_length.
    reflexivity. }
  rewrite validate_line_dispatch, Hcom.
  destruct (trimmed_buffer_spec chunk) as (Ht & k & Hk & Hcs & Hlast).
  cbv zeta in Ht, Hcs, Hlast.
  rewrite Hskip in Ht.
  rewrite Hskip, Hline, drop_app_length in Hcs, Hlast.
  destruct (trimmed_buffer chunk) as [m t]. simpl in Ht, Hcs. subst t.
  (* the trimmed line still holds the name and its closing bracket *)
  assert (Hk' : (S (length n) < k)%nat).
  { apply (Hlast (S (length n)) "]"); [|reflexivity].
    change ("[" :: n ++ "]" :: line_text tail)
      with (("[" :: n) ++ "]" :: line_text tail).
    apply list_lookup_middle. reflexivity. }
  assert (HT : exists tl,
             cstr m (length ws) = ("[" :: n) ++ "]" :: tl).
  { exists (take (k - S (length n) - 1) (line_text tail)).
    rewrite Hcs.
    change ("[" :: n ++ "]" :: line_text tail)
      with (("[" :: n) ++ "]" :: line_text tail).
    rewrite take_app, take_ge by (simpl; lia).
    simpl length.
    destruct (k - S (length n))%nat as [|j] eqn:Ej; [lia|].
    simpl. rewrite Nat.sub_0_r. reflexivity. }
  destruct HT as [tl HT].
  assert (Hclass : classify in_context (cstr m (length ws)) = ContextHeader).
  { apply classify_context. rewrite HT. reflexivity. }
  rewrite Hclass. cbn [dispatch].
  (* [parse_context] finds the bracket, cuts there and trims the name *)
  unfold parse_context.
  assert (Hchr : strchr (cstr m (length ws)) "]" = Some (S (length n))).
  { rewrite HT.
    apply (strchr_first ("[" :: n) "]" tl).
    constructor; [discriminate|].
    eapply Forall_impl; [exact Hn|]. intros c (H1 & _). exact H1. }
  rewrite Hchr.
  set (m1 := poke m (length ws + S (length n)) NUL).
  assert (Hm1 : cstr m1 (length ws) = "[" :: n).
  { unfold m1. rewrite cstr_poke by (rewrite HT, length_app; simpl; lia).
    rewrite HT.
    change (S (length n)) with (length ("[" :: n)).
    rewrite take_app_length. reflexivity. }
  assert (Hname : cstr m1 (length ws + 1) = n).
  { rewrite cstr_add by (rewrite Hm1; simpl; lia).
    rewrite Hm1. reflexivity. }
  destruct (trim_spec m1 (length ws + 1)) as (_ & k1 & Hk1 & Hc1 & _).
  cbv zeta in Hc1. rewrite Hname in Hc1.
  destruct (trim m1 (length ws + 1)) as [m2 context]. simpl in Hc1.
  assert (Hlen : (strlen (cstr m2 context) =? 0)%nat = false).
  { apply Nat.eqb_neq. rewrite Hc1. unfold strlen.
    pose proof (skip_space_nonblank n Hne) as Hnb.
    destruct (drop (skip_space n) n); [contradiction|].
    destruct k1; [lia|]. simpl. lia. }
  rewrite Hlen.
  eexists. reflexivity.
Qed.

Lemma agree_name_variant chunk1 chunk2 in_context :
  name_variant chunk1 chunk2 ->
  agree (validate_line chunk1 in_context) (validate_line chunk2 in_context).
Proof.
  intros [l|ws n1 n2 tail Hws Hn1 Hn2].
  - apply agree_validate_line.
  - destruct (validate_line_header ws n1 tail in_context Hws Hn1)
      as [name1 ->].
    destruct (validate_line_header ws n2 tail in_context Hws Hn2)
      as [name2 ->].
    repeat agree_step.
Qed.

Lemma agree_validate_lines chunks1 chunks2 :
  Forall2 name_variant chunks1 chunks2 ->
  forall in_context,
    agree (validate_lines chunks1 in_context)
          (validate_lines chunks2 in_context).
Proof.
  induction 1 as [|c1 c2 l1 l2 Hc _ IH]; intros b; simpl.
  - apply agree_ret.
  - apply agree_bind; [apply agree_name_variant, Hc | intros b'; apply IH].
Qed.

Lemma same_but_context_refl w : same_but_context w w.
Proof. unfold same_but_context. auto. Qed.


(** ** Keywords *)

Lemma tolower_nul c : tolower c = NUL -> c = NUL.
Proof.
  destruct c as [[] [] [] [] [] [] [] []]; vm_compute; intros H;
    first [reflexivity | discriminate H].
Qed.

Lemma code_inj x y : code x = code y -> x = y.
Proof.
  unfold code. intros H. apply N2Z.inj in H.
  rewrite <- (ascii_N_embedding x), <- (ascii_N_embedding y), H.
  reflexivity.
Qed.

(** [strncasecmp(s, kw, strlen(kw)) == 0] says that [s] begins with [kw],
    up to case. *)
Lemma strncasecmp_begins kw :
  Forall (fun c => c <> NUL) kw ->
  forall s, strncasecmp s kw (length kw) = 0 <-> begins_with kw s.
Proof.
  induction 1 as [|k kw Hk _ IH]; intros s.
  - simpl. split; [|reflexivity]. intros _. exists [], s. split; reflexivity.
  - cbn [length strncasecmp].
    assert (Hy : tolower k <> tolower (deref s) \/ deref s <> NUL).
    { destruct (ascii_dec (deref s) NUL) as [E|E]; [left|right; exact E].
      rewrite E. intros Hx. apply Hk, tolower_nul. exact Hx. }
    destruct (Ascii.eqb_spec (tolower (deref s)) (tolower (deref (k :: kw))))
      as [E|E]; cbn [negb deref hd] in *.
    + destruct Hy as [Hy|Hy]; [congruence|].
      apply Ascii.eqb_neq in Hy. rewrite Hy.
      destruct s as [|c s]; [apply Ascii.eqb_neq in Hy; contradiction|].
      unfold deref in *. cbn [tl hd] in *. rewrite IH. split.
      * intros (a & b & -> & Ha). exists (c :: a), b.
        split; [reflexivity|]. unfold ieq in *. simpl. congruence.
      * intros (a & b & Hs & Ha). unfold ieq in Ha.
        destruct a as [|c' a]; [discriminate|]. simpl in Hs, Ha.
        injection Hs as <- ->. injection Ha as _ Ha.
        exists a, b. split; [reflexivity | exact Ha].
    + split.
      * intros H0. exfalso. apply E, code_inj. lia.
      * intros (a & b & Hs & Ha). exfalso. apply E. unfold ieq in Ha.
        destruct a as [|c' a]; [discriminate|]. simpl in Ha. subst s.
        injection Ha as Ha _. unfold deref. simpl. exact Ha.
Qed.

Lemma begins_with_first kw1 kw2 k1 k2 s :
  begins_with (k1 :: kw1) s -> begins_with (k2 :: kw2) s ->
  tolower k1 = tolower k2.
Proof.
  intros (a1 & b1 & -> & H1) (a2 & b2 & E & H2). unfold ieq in *.
  destruct a1 as [|x a1]; [discriminate|].
  destruct a2 as [|y a2]; [discriminate|].
  simpl in *. injection E as <- _. congruence.
Qed.

Lemma keyword_same m line :
  begins_with (lit "same")
    (drop (skip_space (cstr m line)) (cstr m line)) ->
  let keyword := (line + skip_space (cstr m line))%nat in
  (strncasecmp (cstr m keyword) (lit "exten") 5 =? 0) = false
  /\ (strncasecmp (cstr m keyword) (lit "same") 4 =? 0) = true.
Proof.
  intros H keyword. unfold keyword.
  rewrite cstr_add by apply skip_space_le.
  split.
  - apply Z.eqb_neq. intros E.
    apply (strncasecmp_begins (lit "exten")) in E;
      [|repeat constructor; discriminate].
    pose proof (begins_with_first _ _ _ _ _ E H) as Hc. discriminate Hc.
  - apply Z.eqb_eq.
    apply (strncasecmp_begins (lit "same")); [|exact H].
    repeat constructor; discriminate.
Qed.

Lemma logs_check_balanced_other str :
  logs (fun msg => ~ priority_message msg) (check_balanced str).
Proof.
  apply (logs_weaken balance_message); [|apply logs_check_balanced].
  intros msg [E|[E|(p & b & c & E)]] [E'|[s E']]; congruence.
Qed.

Lemma logs_check_variable_syntax_other str :
  logs (fun msg => ~ priority_message msg) (check_variable_syntax str).
Proof.
  apply (logs_weaken variable_message); [|apply logs_check_variable_syntax].
  intros msg [E|E] [E'|[s E']]; congruence.
Qed.

(** On a [same] line the priority block is not run. *)
Lemma logs_parse_extension_same m line :
  begins_with (lit "same")
    (drop (skip_space (cstr m line)) (cstr m line)) ->
  logs (fun msg => ~ priority_message msg) (parse_extension m line).
Proof.
  intros H. destruct (keyword_same m line H) as [He Hs].
  unfold parse_extension.
  destruct (strstr (cstr m line) (lit "=>")) as [a|];
    [|apply logs_error; [reflexivity| |apply logs_ret];
      intros [E|[s E]]; discriminate E].
  cbv zeta. rewrite He, Hs. cbn [negb andb].
  repeat first
    [ apply logs_check_balanced_other
    | apply logs_check_variable_syntax_other
    | logs_step ];
    intros [E|[s E]]; discriminate E.
Qed.

(** ** The directive of a line *)

Lemma found_strchr s c : found (strchr s c) = true <-> In c s.
Proof.
  induction s as [|x s IH]; simpl.
  - split; [discriminate | contradiction].
  - destruct (Ascii.eqb_spec x c) as [->|Hx]; simpl.
    + split; auto.
    + destruct (strchr s c); simpl in *.
      * split; [intros _; right; apply IH; reflexivity | reflexivity].
      * split; [discriminate|]. intros [E|H]; [contradiction|].
        apply IH, H.
Qed.

Lemma is_prefix_spec needle s :
  is_prefix needle s = true <-> exists b, s = needle ++ b.
Proof.
  revert s; induction needle as [|a needle IH]; intros s; simpl.
  - split; [intros _; exists s; reflexivity | reflexivity].
  - destruct s as [|x s].
    + split; [discriminate | intros [b H]; discriminate H].
    + rewrite andb_true_iff, IH. split.
      * intros [E [b ->]]. apply Ascii.eqb_eq in E. subst x.
        exists b. reflexivity.
      * intros [b [= -> ->]]. split; [apply Ascii.eqb_refl|].
        exists b. reflexivity.
Qed.

Lemma found_strstr s needle :
  found (strstr s needle) = true <-> contains needle s.
Proof.
  unfold contains. induction s as [|x s IH].
  - cbn [strstr]. destruct (is_prefix needle []) eqn:E; simpl.
    + apply is_prefix_spec in E as [b E]. split; [|reflexivity].
      intros _. exists [], b. exact E.
    + split; [discriminate|]. intros (a & b & H).
      destruct a as [|y a]; [|discriminate H].
      assert (is_prefix needle [] = true)
        by (apply is_prefix_spec; exists b; exact H).
      congruence.
  - cbn [strstr]. destruct (is_prefix needle (x :: s)) eqn:E.
    + apply is_prefix_spec in E as [b E]. split; [|reflexivity].
      intros _. exists [], b. exact E.
    + destruct (strstr s needle); simpl in *.
      * split; [|reflexivity]. intros _.
        destruct (proj1 IH eq_refl) as (a & b & ->).
        exists (x :: a), b. reflexivity.
      * split; [discriminate|]. intros (a & b & H).
        destruct a as [|y a].
        -- assert (is_prefix needle (x :: s) = true)
             by (apply is_prefix_spec; exists b; exact H).
           congruence.
        -- injection H as _ H. apply IH. exists a, b. exact H.
Qed.

Lemma classify_extension in_context trimmed :
  classify in_context trimmed = Extension <->
  Ascii.eqb (deref trimmed) "[" = false
  /\ negb in_context && found (strchr trimmed "=")
     && negb (found (strstr trimmed (lit "=>"))) = false
  /\ (strncasecmp trimmed (lit "exten") 5 =? 0)
     || (strncasecmp trimmed (lit "same") 4 =? 0) = true.
Proof.
  unfold classify.
  repeat match goal with
         | |- context [if ?b then _ else _] => destruct b
         end; split; try discriminate; try tauto;
    intros (H1 & H2 & H3); discriminate.
Qed.

(** C2 (amended).  A trimmed line goes to the extension parser exactly
    when it does not begin with ['['], is not taken as a global assignment
    (no context open yet, an ['='] in the line and no ["=>"]), and begins,
    up to case, with the five letters [exten] or the four letters [same].
    The global-assignment test comes first and the keyword is compared as
    a prefix: outside any context ["exten = s,1,NoOp()"] is accepted in
    silence, inside one it gets the missing-arrow error, and
    ["extensions => s,1,NoOp()"] is an extension line. *)
Theorem extension_lines :
  (forall in_context trimmed,
      classify in_context trimmed = Extension <->
      deref trimmed <> "["
      /\ ~ (in_context = false /\ In "=" trimmed
            /\ ~ contains (lit "=>") trimmed)
      /\ (begins_with (lit "exten") trimmed
          \/ begins_with (lit "same") trimmed))
  /\ classify false (lit "exten = s,1,NoOp()") = GlobalAssignment
  /\ diagnostics (validate_dialplan (Some (line "exten = s,1,NoOp()")))
     = []
  /\ classify true (lit "exten = s,1,NoOp()") = Extension
  /\ diagnostics
       (validate_dialplan
          (Some (line "[default]" ++ line "exten = s,1,NoOp()")))
     = [Diag 2 MMissingArrowExtension]
  /\ classify false (lit "extensions => s,1,NoOp()") = Extension
  /\ classify true (lit "extensions => s,1,NoOp()") = Extension
  /\ diagnostics
       (validate_dialplan
          (Some (line "[default]" ++ line "extensions => s,1,NoOp()")))
     = [].
Proof.
  split; [|repeat split].
  intros ic t. rewrite classify_extension.
  assert (He : (strncasecmp t (lit "exten") 5 =? 0) = true
               <-> begins_with (lit "exten") t).
  { rewrite Z.eqb_eq. apply (strncasecmp_begins (lit "exten")).
    repeat constructor; discriminate. }
  assert (Hs : (strncasecmp t (lit "same") 4 =? 0) = true
               <-> begins_with (lit "same") t).
  { rewrite Z.eqb_eq. apply (strncasecmp_begins (lit "same")).
    repeat constructor; discriminate. }
  rewrite orb_true_iff, He, Hs.
  pose proof (found_strchr t "=") as Hc.
  pose proof (found_strstr t (lit "=>")) as Ha.
  split.
  - intros (H1 & H2 & H3). split; [|split; [|exact H3]].
    + apply Ascii.eqb_neq. exact H1.
    + intros (-> & Hin & Hno). apply Hc in Hin. rewrite Hin in H2.
      destruct (found (strstr t (lit "=>"))); [|discriminate].
      apply Hno, Ha. reflexivity.
  - intros (H1 & H2 & H3). split; [|split; [|exact H3]].
    + apply Ascii.eqb_neq. exact H1.
    + destruct ic; [reflexivity|]. cbn [negb andb].
      destruct (found (strchr t "=")) eqn:E1; [|reflexivity].
      destruct (found (strstr t (lit "=>"))) eqn:E2; [reflexivity|].
      exfalso. apply H2. split; [reflexivity|]. split; [apply Hc; reflexivity|].
      intros Hcon. apply Ha in Hcon. congruence.
Qed.

(** A [same] line inside a context is an extension line. *)
Lemma extension_lines_witness :
  classify true (lit "same => n,Hangup()") = Extension.
Proof.
  apply (proj1 extension_lines true (lit "same => n,Hangup()")).
  split; [discriminate|]. split.
  - intros (H & _). discriminate H.
  - right. exists (lit "same"), (lit " => n,Hangup()").
    split; reflexivity.
Defined.

(** C2 as stated fails twice.  The first token of ["exten = s,1,NoOp()"] is
    [exten], yet with no context open the line is not an extension line and
    no missing-arrow error is written.  The first token of
    ["extensions => s,1,NoOp()"] is neither [exten] nor [same], yet the line
    is an extension line. *)
Lemma first_token_does_not_decide :
  (ieq (first_token (lit "exten = s,1,NoOp()")) (lit "exten")
   /\ classify false (lit "exten = s,1,NoOp()") <> Extension
   /\ diagnostics
        (validate_dialplan (Some (line "exten = s,1,NoOp()"))) = [])
  /\ (~ ieq (first_token (lit "extensions => s,1,NoOp()")) (lit "exten")
      /\ ~ ieq (first_token (lit "extensions => s,1,NoOp()")) (lit "same")
      /\ classify true (lit "extensions => s,1,NoOp()") = Extension).
Proof.
  repeat split; try discriminate.
Qed.

(** ** The scenarios of the documentation *)

(** C1 (the code at the failing input).  On the line
    ["exten => s,1,Set(VAR=${CALLERID(num)"] the balance check fails and
    [parse_extension] returns before the reference check: one diagnostic is
    written, with one brace counted open.  When the reference check does
    run it reads [data] after the commas were overwritten with NUL, that
    is the pattern alone: an unclosed reference in the application text
    passes, though the same text given whole to [check_variable_syntax] is
    rejected. *)
Theorem scenario_E_stops_at_the_balance_error :
  (let o := validate_dialplan
              (Some (line "[default]"
                     ++ line "exten => s,1,Set(VAR=${CALLERID(num)")) in
   diagnostics o = [Diag 2 (MUnbalanced 1 0 1)]
   /\ errors (vstate (final o)) = 1)
  /\ (let o := validate_dialplan
                 (Some (line "[default]" ++ line "exten => s,1,${X")) in
      diagnostics o = [] /\ exit_status o = 0)
  /\ check_variable_syntax (lit "s,1,${X") initial_world
     = (false, report_error MUnclosedVariable initial_world).
Proof. repeat split. Qed.

(** C4 (the code at the failing input).  Line 2 splits into three fields
    and fails the balance check with parens=1; line 3, ["same => n,Hangup()"],
    has one top-level comma only and is rejected for its format, so the run
    ends with two errors, not one. *)
Theorem scenario_B_reports_two_errors :
  (let o := validate_dialplan
              (Some (line "[default]"
                     ++ line "exten => s,1,Dial(SIP/peer,30"
                     ++ line "same => n,Hangup()")) in
   diagnostics o = [Diag 2 (MUnbalanced 1 0 0); Diag 3 MExtensionFormat]
   /\ errors (vstate (final o)) = 2)
  /\ render (MUnbalanced 1 0 0)
     = "Unbalanced delimiters (parens=1, brackets=0, braces=0)"%string
  /\ diagnostics
       (validate_dialplan
          (Some (line "[default]" ++ line "exten => s,1,Dial(SIP/peer,30")))
     = [Diag 2 (MUnbalanced 1 0 0)]
  /\ diagnostics
       (validate_dialplan
          (Some (line "[default]" ++ line "same => n,Hangup()")))
     = [Diag 2 MExtensionFormat].
Proof. repeat split. Qed.

(** * Further properties of the code *)

(** ** [trim] *)

Lemma skip_space_blank s : blank (take (skip_space s) s).
Proof.
  induction s as [|c s IH]; simpl; [constructor|].
  destruct (isspace c) eqn:E; simpl; constructor; assumption.
Qed.

Lemma skip_space_stops s :
  isspace (deref (drop (skip_space s) s)) = false.
Proof.
  induction s as [|c s IH]; simpl; [reflexivity|].
  destruct (isspace c) eqn:E; simpl; assumption.
Qed.

Lemma blank_drop_skip s : drop (skip_space s) s = [] <-> blank s.
Proof.
  induction s as [|c s IH]; simpl.
  - split; [constructor | reflexivity].
  - destruct (isspace c) eqn:E; simpl.
    + rewrite IH. split; [constructor; assumption|].
      intros H. inversion H; assumption.
    + split; [discriminate|]. intros H. inversion H; congruence.
Qed.

Lemma trim_back_spaces m str k :
  forall i, (trim_back m str k < str + i <= str + k)%nat ->
    isspace (peek m (str + i)) = true.
Proof.
  induction k as [|k IH]; intros i Hi; simpl in *.
  - lia.
  - destruct (isspace (peek m (str + S k))) eqn:E.
    + destruct (Nat.eq_dec i (S k)) as [->|]; [exact E|].
      apply IH. lia.
    + lia.
Qed.

Lemma trim_back_last m str k :
  trim_back m str k = str
  \/ isspace (peek m (trim_back m str k)) = false.
Proof.
  induction k as [|k IH]; simpl; [left; reflexivity|].
  destruct (isspace (peek m (str + S k))) eqn:E; [exact IH|].
  right. exact E.
Qed.

Lemma peek_lookup m p i c :
  cstr m p !! i = Some c -> peek m (p + i) = c.
Proof.
  intros H. rewrite peek_cstr by (apply lookup_lt_Some in H; lia).
  unfold deref. rewrite (drop_S _ _ _ H). reflexivity.
Qed.

(** What [trim] leaves at the returned pointer, and what it left out. *)
Lemma trim_split m p :
  exists ws1 ws2,
    cstr m p = ws1 ++ cstr (fst (trim m p)) (snd (trim m p)) ++ ws2
    /\ blank ws1 /\ blank ws2
    /\ snd (trim m p) = (p + length ws1)%nat
    /\ (forall c, head (cstr (fst (trim m p)) (snd (trim m p))) = Some c ->
                  isspace c = false)
    /\ (forall c, last (cstr (fst (trim m p)) (snd (trim m p))) = Some c ->
                  isspace c = false).
Proof.
  set (s := cstr m p). set (k0 := skip_space s).
  pose proof (skip_space_le s) as Hle. fold k0 in Hle.
  assert (Hs1 : cstr m (p + k0) = drop k0 s) by (apply cstr_add, Hle).
  assert (Hpk : peek m (p + k0) = deref (drop k0 s))
    by (apply peek_cstr, Hle).
  assert (Hlen1 : length (take k0 s) = k0) by (rewrite length_take; lia).
  exists (take k0 s).
  unfold trim. fold s. fold k0. rewrite Hs1, Hpk.
  destruct (Ascii.eqb_spec (deref (drop k0 s)) NUL) as [E|E]; simpl.
  - assert (Hnil : drop k0 s = []).
    { pose proof (until_nul_no_nul (drop (p + k0) m)) as Hn.
      fold (cstr m (p + k0)) in Hn. rewrite Hs1 in Hn.
      destruct (drop k0 s) as [|c r]; [reflexivity|].
      inversion Hn; subst. simpl in E. contradiction. }
    exists []. rewrite Hs1, Hnil, app_nil_r.
    repeat split.
    + rewrite <- (take_drop k0 s) at 1. rewrite Hnil, app_nil_r. reflexivity.
    + apply skip_space_blank.
    + constructor.
    + lia.
    + intros c H. discriminate H.
    + intros c H. discriminate H.
  - set (str := (p + k0)%nat) in *.
    set (s1 := drop k0 s) in *.
    assert (Hpos : (0 < length s1)%nat)
      by (destruct s1; [contradiction|simpl; lia]).
    unfold strlen.
    set (k := (length s1 - 1)%nat).
    pose proof (trim_back_bounds m str k) as [Hlo Hhi].
    remember (trim_back m str k + 1 - str)%nat as n eqn:En.
    assert (Hcut : cstr (poke m (trim_back m str k + 1) NUL) str
                   = take n s1).
    { replace (trim_back m str k + 1)%nat with (str + n)%nat by lia.
      rewrite cstr_poke by (rewrite Hs1; lia). rewrite Hs1. reflexivity. }
    rewrite Hcut.
    exists (drop n s1).
    assert (Hfirst : isspace (deref s1) = false) by apply skip_space_stops.
    repeat split.
    + rewrite take_drop. unfold s1. rewrite take_drop. reflexivity.
    + apply skip_space_blank.
    + apply Forall_lookup. intros i c Hi. rewrite lookup_drop in Hi.
      rewrite <- (peek_lookup m str (n + i) c) by (rewrite Hs1; exact Hi).
      apply lookup_lt_Some in Hi.
      apply (trim_back_spaces m str k). lia.
    + lia.
    + intros c Hc. destruct s1 as [|x r]; [simpl in Hpos; lia|].
      destruct n; [lia|]. simpl in Hc. injection Hc as <-. exact Hfirst.
    + intros c Hc. rewrite last_lookup, length_take in Hc.
      rewrite lookup_take in Hc.
      replace (Nat.pred (n `min` length s1)) with (n - 1)%nat in Hc by lia.
      destruct (decide (n - 1 < n)%nat); [|lia].
      assert (Hpk' : peek m (str + (n - 1)) = c)
        by (apply peek_lookup; rewrite Hs1; exact Hc).
      destruct (trim_back_last m str k) as [Hl|Hl].
      * replace (n - 1)%nat with O in Hc by lia.
        destruct s1 as [|x r]; [discriminate|]. simpl in Hc.
        injection Hc as <-. exact Hfirst.
      * replace (str + (n - 1))%nat with (trim_back m str k) in Hpk' by lia.
        rewrite Hpk' in Hl. exact Hl.
Qed.

(** X1.  [trim] returns the text of its argument without the whitespace
    before and after it: the string at the returned pointer begins and
    ends with a character that is not whitespace (or is empty), and the
    original string is that string with whitespace on both sides. *)
Theorem trim_strips m p :
  exists ws1 ws2,
    cstr m p = ws1 ++ cstr (fst (trim m p)) (snd (trim m p)) ++ ws2
    /\ blank ws1 /\ blank ws2
    /\ snd (trim m p) = (p + length ws1)%nat
    /\ (forall c, head (cstr (fst (trim m p)) (snd (trim m p))) = Some c ->
                  isspace c = false)
    /\ (forall c, last (cstr (fst (trim m p)) (snd (trim m p))) = Some c ->
                  isspace c = false).
Proof. apply trim_split. Qed.

(** X2.  [trim] writes inside the string only: the buffer keeps its
    length, and the one byte it may change is a whitespace character after
    the returned pointer, which becomes NUL. *)
Theorem trim_overwrites_whitespace_only (m : list ascii) p :
  let m' : list ascii := fst (trim m p) in
  length m' = length m
  /\ forall i,
       m' !! i <> m !! i ->
       m' !! i = Some NUL
       /\ (snd (trim m p) < i)%nat
       /\ exists c, m !! i = Some c /\ isspace c = true.
Proof.
  set (s := cstr m p). set (k0 := skip_space s).
  pose proof (skip_space_le s) as Hle. fold k0 in Hle.
  assert (Hs1 : cstr m (p + k0) = drop k0 s) by (apply cstr_add, Hle).
  unfold trim. fold s. fold k0. rewrite Hs1.
  destruct (Ascii.eqb (peek m (p + k0)) NUL) eqn:E; cbv zeta; simpl.
  - split; [reflexivity|]. intros i H. contradiction.
  - assert (Hpos : (0 < length (drop k0 s))%nat).
    { destruct (drop k0 s) as [|x r] eqn:Es; [|simpl; lia].
      rewrite (peek_cstr m p k0 Hle) in E. fold s in E.
      rewrite Es in E. discriminate E. }
    remember (p + k0)%nat as str eqn:Hstr.
    remember (drop k0 s) as s1 eqn:Hs1'. unfold strlen.
    remember (length s1 - 1)%nat as k eqn:Hk.
    pose proof (trim_back_bounds m str k) as [Hlo Hhi].
    pose proof (trim_back_spaces m str k) as Hsp.
    remember (trim_back m str k + 1)%nat as q eqn:Hqd.
    unfold poke. split; [apply length_insert|].
    intros i Hi.
    destruct (decide (i = q)) as [Heq|Hne];
      [subst i
      |rewrite list_lookup_insert_ne in Hi by congruence; contradiction].
    destruct (m !! q) as [c|] eqn:Hq.
    2:{ exfalso. apply Hi. apply lookup_ge_None.
        rewrite length_insert. apply lookup_ge_None. exact Hq. }
    assert (Hlt : (q < length m)%nat) by (apply lookup_lt_Some in Hq; exact Hq).
    rewrite list_lookup_insert_eq in * by exact Hlt.
    split; [reflexivity|]. split; [lia|].
    exists c. split; [reflexivity|].
    assert (Hpeek : peek m q = c) by (unfold peek; rewrite Hq; reflexivity).
    assert (Hc : c <> NUL) by (intros ->; apply Hi; reflexivity).
    destruct (decide (q - str < length s1)%nat) as [Hin|Hout].
    + rewrite <- Hpeek. replace q with (str + (q - str))%nat by lia.
      apply Hsp. lia.
    + exfalso. apply Hc. rewrite <- Hpeek.
      replace q with (str + length s1)%nat by lia.
      rewrite peek_cstr by (rewrite Hs1; lia).
      rewrite Hs1. rewrite drop_all. reflexivity.
Qed.

(** The text ["  ab  "] is trimmed to a string that begins with ['a']. *)
Lemma trim_strips_witness :
  head (cstr (fst (trim (of_cstring (lit "  ab  ")) O))
             (snd (trim (of_cstring (lit "  ab  ")) O))) = Some "a"
  /\ isspace "a" = false.
Proof.
  assert (H : head (cstr (fst (trim (of_cstring (lit "  ab  ")) O))
                         (snd (trim (of_cstring (lit "  ab  ")) O)))
              = Some "a") by reflexivity.
  split; [exact H|].
  destruct (trim_strips (of_cstring (lit "  ab  ")) O)
    as (ws1 & ws2 & _ & _ & _ & _ & Hh & _).
  apply (Hh "a" H).
Defined.

(** In ["  ab  "] the byte that [trim] changes is the space after ['b']. *)
Lemma trim_overwrites_whitespace_only_witness :
  (fst (trim (of_cstring (lit "  ab  ")) O) : list ascii) !! 4%nat
  <> (of_cstring (lit "  ab  ") : list ascii) !! 4%nat
  /\ exists c, (of_cstring (lit "  ab  ") : list ascii) !! 4%nat = Some c
               /\ isspace c = true.
Proof.
  assert (H : (fst (trim (of_cstring (lit "  ab  ")) O) : list ascii)
                !! 4%nat
              <> (of_cstring (lit "  ab  ") : list ascii) !! 4%nat)
    by (vm_compute; discriminate).
  split; [exact H|].
  apply (proj2 (trim_overwrites_whitespace_only
                  (of_cstring (lit "  ab  ")) O) 4%nat H).
Defined.

(** ** [check_balanced], in full *)

Lemma balance_loop_plain x s prev p b c qc :
  Ascii.eqb x DQUOTE || Ascii.eqb x SQUOTE = false ->
  balance_loop (x :: s) prev p b c false qc =
  if (p + net Paren [x] <? 0) || (b + net Bracket [x] <? 0)
     || (c + net Brace [x] <? 0)
  then None
  else balance_loop s x (p + net Paren [x]) (b + net Bracket [x])
         (c + net Brace [x]) false qc.
Proof.
  intros Hq. cbn [balance_loop]. rewrite Hq.
  rewrite !net_cons, !net_nil. cbn [opener closer].
  destruct (Ascii.eqb x "(") eqn:E1;
    [|destruct (Ascii.eqb x ")") eqn:E2;
      [|destruct (Ascii.eqb x "[") eqn:E3;
        [|destruct (Ascii.eqb x "]") eqn:E4;
          [|destruct (Ascii.eqb x "{") eqn:E5;
            [|destruct (Ascii.eqb x "}") eqn:E6]]]]];
    repeat match goal with
           | E : Ascii.eqb x _ = true |- _ =>
               apply Ascii.eqb_eq in E; subst x
           end; simpl Ascii.eqb; cbv iota;
    rewrite ?Z.add_0_r, ?Z.sub_0_r;
    repeat match goal with
           | |- context [?a + (0 - 1)] =>
               replace (a + (0 - 1)) with (a - 1) by lia
           | |- context [?a + (1 - 0)] =>
               replace (a + (1 - 0)) with (a + 1) by lia
           | |- context [?a + (0 - 0)] =>
               replace (a + (0 - 0)) with a by lia
           end; reflexivity.
Qed.

Lemma net_app k l1 l2 : net k (l1 ++ l2) = net k l1 + net k l2.
Proof.
  induction l1 as [|x l1 IH]; simpl app.
  - rewrite net_nil. lia.
  - rewrite !net_cons, IH. lia.
Qed.

Lemma prefixes_cons (x : ascii) l (P : cstring -> Prop) :
  (forall l1 l2, x :: l = l1 ++ l2 -> P l1)
  <-> P [] /\ forall l1 l2, l = l1 ++ l2 -> P (x :: l1).
Proof.
  split.
  - intros H. split; [apply (H [] (x :: l)); reflexivity|].
    intros l1 l2 ->. apply (H (x :: l1) l2). reflexivity.
  - intros [H0 H] l1 l2 E. destruct l1 as [|y l1]; [exact H0|].
    injection E as <- ->. apply (H l1 l2). reflexivity.
Qed.

(** The loop runs to the end, outside any quote, exactly when the string
    ends outside a quote and no counter ever goes below zero. *)
Lemma balance_loop_complete s :
  forall prev p b c inq qc p' b' c',
    0 <= p -> 0 <= b -> 0 <= c ->
    balance_loop s prev p b c inq qc = Some (p', b', c', false)
    <-> exists l,
          outside_from (if inq then Some qc else None) prev s = Some l
          /\ p' = p + net Paren l /\ b' = b + net Bracket l
          /\ c' = c + net Brace l
          /\ forall l1 l2, l = l1 ++ l2 ->
               0 <= p + net Paren l1 /\ 0 <= b + net Bracket l1
               /\ 0 <= c + net Brace l1.
Proof.
  induction s as [|x s IH]; intros prev p b c inq qc p' b' c' Hp Hb Hc.
  - destruct inq; simpl.
    + split; [discriminate|]. intros (l & H & _). discriminate H.
    + split.
      * intros [= <- <- <-]. exists []. rewrite !net_nil.
        split; [reflexivity|]. repeat (split; [lia|]).
        intros l1 l2 E. destruct l1; [|discriminate E].
        rewrite !net_nil. lia.
      * intros (l & [= <-] & -> & -> & -> & _). rewrite !net_nil.
        repeat f_equal; lia.
  - destruct inq.
    + simpl.
      destruct (Ascii.eqb x qc && negb (Ascii.eqb prev BACKSLASH));
        apply IH; assumption.
    + destruct (Ascii.eqb x DQUOTE || Ascii.eqb x SQUOTE) eqn:Hq.
      * cbn [balance_loop outside_from]. rewrite Hq.
        rewrite nonneg_false by assumption.
        apply (IH x p b c true x); assumption.
      * rewrite balance_loop_plain by exact Hq.
        cbn [outside_from]. rewrite Hq.
        destruct ((p + net Paren [x] <? 0) || (b + net Bracket [x] <? 0)
                  || (c + net Brace [x] <? 0)) eqn:Hneg.
        -- split; [discriminate|].
           intros (l & Hl & _ & _ & _ & Hpre).
           destruct (outside_from None x s) as [l'|]; [|discriminate].
           injection Hl as <-.
           destruct (Hpre [x] l' eq_refl) as (H1 & H2 & H3).
           rewrite !orb_true_iff, !Z.ltb_lt in Hneg. lia.
        -- rewrite !orb_false_iff, !Z.ltb_ge in Hneg.
           destruct Hneg as [[H1 H2] H3].
           rewrite (IH x _ _ _ false qc p' b' c' H1 H2 H3).
           destruct (outside_from None x s) as [l'|]; simpl;
             [|split; intros (l & H & _); discriminate H].
           split.
           ++ intros (l & [= <-] & -> & -> & -> & Hpre).
              exists (x :: l'). split; [reflexivity|].
              change (x :: l') with ([x] ++ l'). rewrite !net_app.
              repeat (split; [lia|]).
              change ([x] ++ l') with (x :: l').
              apply prefixes_cons. rewrite !net_nil.
              split; [lia|]. intros l1 l2 E.
              destruct (Hpre l1 l2 E) as (G1 & G2 & G3).
              change (x :: l1) with ([x] ++ l1). rewrite !net_app. lia.
           ++ intros (l & [= <-] & -> & -> & -> & Hpre).
              exists l'. split; [reflexivity|].
              apply prefixes_cons in Hpre as [_ Hpre].
              change (x :: l') with ([x] ++ l'). rewrite !net_app.
              repeat (split; [lia|]).
              intros l1 l2 E.
              destruct (Hpre l1 l2 E) as (G1 & G2 & G3).
              change (x :: l1) with ([x] ++ l1) in *.
              rewrite !net_app in *. lia.
Qed.

Lemma check_balanced_accepts s w :
  check_balanced s w = (true, w)
  <-> exists l,
        outside s = Some l
        /\ forall k, net k l = 0 /\ never_below k l.
Proof.
  rewrite check_balanced_run.
  pose proof (balance_loop_complete s NUL 0 0 0 false NUL) as Hc.
  cbn [negb] in Hc. fold (outside s) in Hc.
  split.
  - destruct (balance_loop s NUL 0 0 0 false NUL)
      as [[[[p b] c] inq]|] eqn:E; [|discriminate].
    destruct inq; [discriminate|].
    destruct (negb (p =? 0) || negb (b =? 0) || negb (c =? 0)) eqn:Hz;
      [discriminate|].
    intros _.
    rewrite !orb_false_iff, !negb_false_iff, !Z.eqb_eq in Hz.
    destruct Hz as [[-> ->] ->].
    destruct (proj1 (Hc 0 0 0 ltac:(lia) ltac:(lia) ltac:(lia)) eq_refl)
      as (l & Hl & H1 & H2 & H3 & Hpre).
    exists l. split; [exact Hl|].
    intros k. split.
    + destruct k; lia.
    + intros l1 l2 Heq. destruct (Hpre l1 l2 Heq) as (G1 & G2 & G3).
      destruct k; lia.
  - intros (l & Hl & Hk).
    assert (Hloop : balance_loop s NUL 0 0 0 false NUL
                    = Some (0, 0, 0, false)).
    { apply Hc; try lia. exists l. split; [exact Hl|].
      pose proof (Hk Paren) as [E1 N1]. pose proof (Hk Bracket) as [E2 N2].
      pose proof (Hk Brace) as [E3 N3].
      repeat (split; [lia|]).
      intros l1 l2 E.
      specialize (N1 l1 l2 E). specialize (N2 l1 l2 E).
      specialize (N3 l1 l2 E). lia. }
    rewrite Hloop. reflexivity.
Qed.

(** X3.  [check_balanced] accepts a string exactly when it ends outside
    any quote and, among the characters outside quotes, each kind of
    delimiter taken by itself has as many closers as openers and never
    more closers than openers so far.  The order in which different kinds
    nest is not looked at. *)
Theorem check_balanced_accepts_iff s w :
  check_balanced s w = (true, w)
  <-> exists l,
        outside s = Some l
        /\ forall k, net k l = 0 /\ never_below k l.
Proof. apply check_balanced_accepts. Qed.

(** Crossed pairs are accepted. *)
Lemma check_balanced_accepts_iff_witness :
  check_balanced (lit "([)]") initial_world = (true, initial_world).
Proof.
  apply (proj2 (check_balanced_accepts_iff (lit "([)]") initial_world)).
  exists (lit "([)]"). split; [reflexivity|].
  intros k. split.
  - destruct k; reflexivity.
  - intros l1 l2 H.
    assert (H0 : l1 = take (length l1) (lit "([)]"))
      by (rewrite H, take_app_length; reflexivity).
    remember (length l1) as n eqn:En. clear En H. subst l1.
    destruct n as [|[|[|[|[|n]]]]]; destruct k; vm_compute; discriminate.
Defined.

(** ** [check_variable_syntax], reference by reference *)

Lemma scan_depth_zero o c p : scan_depth o c 0 p = (0, p).
Proof. destruct p; reflexivity. Qed.

Lemma scan_depth_cons k x n p :
  0 < n ->
  scan_depth (opener k) (closer k) n (x :: p)
  = scan_depth (opener k) (closer k) (n + net k [x]) p.
Proof.
  intros Hn. cbn [scan_depth].
  replace (n >? 0) with true by (symmetry; apply Z.gtb_lt; lia).
  rewrite net_cons, net_nil. f_equal.
  destruct (Ascii.eqb_spec x (opener k)) as [->|Ho].
  - replace (Ascii.eqb (opener k) (closer k)) with false
      by (destruct k; reflexivity). lia.
  - destruct (Ascii.eqb x (closer k)); lia.
Qed.

(** The depth scan does not stop inside a text whose closers never
    outnumber the openers by the depth it started with. *)
Lemma scan_depth_through k X :
  forall n rest,
    (forall l1 l2, X = l1 ++ l2 -> 0 < n + net k l1) ->
    scan_depth (opener k) (closer k) n (X ++ rest)
    = scan_depth (opener k) (closer k) (n + net k X) rest.
Proof.
  induction X as [|x X IH]; intros n rest H.
  - rewrite net_nil, Z.add_0_r. reflexivity.
  - apply prefixes_cons in H as [H0 H]. rewrite net_nil in H0.
    cbn [app]. rewrite scan_depth_cons by lia.
    rewrite IH.
    + change (x :: X) with ([x] ++ X). rewrite net_app, Z.add_assoc.
      reflexivity.
    + intros l1 l2 E. specialize (H l1 l2 E).
      change (x :: l1) with ([x] ++ l1) in H. rewrite net_app in H. lia.
Qed.

Lemma drop_after_dollar (a : cstring) o p n :
  drop (length a + n) (a ++ "$" :: o :: p) = drop n ("$" :: o :: p).
Proof. rewrite drop_app_add'; reflexivity. Qed.

(** The result of one round of the outer loop at a ['$'] that opens a
    reference of kind [k]. *)
Lemma variable_loop_reference k a p valid :
  k <> Paren -> Forall (fun x => x <> "$") a ->
  variable_loop (a ++ "$" :: opener k :: p) valid =
  if negb (fst (scan_depth (opener k) (closer k) 1 p) =? 0) then
    let* _ := emit (match k with
                    | Bracket => MUnclosedExpression
                    | _ => MUnclosedVariable
                    end) in
    let* _ := incr_errors in
    variable_loop (snd (scan_depth (opener k) (closer k) 1 p)) false
  else variable_loop (snd (scan_depth (opener k) (closer k) 1 p)) valid.
Proof.
  intros Hk Ha. rewrite variable_loop_step.
  rewrite (strchr_first a "$" (opener k :: p) Ha).
  rewrite !drop_after_dollar.
  destruct k; [contradiction| |]; reflexivity.
Qed.

(** X4.  A closed reference is passed over whole.  When the text between
    ["${"] and a closing brace has its own braces matched, checking
    resumes after that brace, so the verdict is that of the rest of the
    string; nothing inside the reference is examined, not even a further
    ['$'].  The same holds of ["$["] and brackets. *)
Theorem closed_reference_is_skipped k a X rest :
  k <> Paren -> Forall (fun x => x <> "$") a ->
  net k X = 0 -> never_below k X ->
  check_variable_syntax (a ++ "$" :: opener k :: X ++ closer k :: rest)
  = check_variable_syntax rest.
Proof.
  intros Hk Ha Hnet Hpre. unfold check_variable_syntax.
  rewrite (variable_loop_reference k a _ true Hk Ha).
  rewrite scan_depth_through
    by (intros l1 l2 E; specialize (Hpre l1 l2 E); lia).
  rewrite Hnet, Z.add_0_r, scan_depth_cons by lia.
  replace (1 + net k [closer k]) with 0
    by (destruct k; reflexivity).
  rewrite scan_depth_zero. reflexivity.
Qed.

(** ["${A$[B}"]: the braces are matched, the bracket inside is not
    looked at. *)
Lemma closed_reference_is_skipped_witness :
  (net Brace (lit "A$[B") = 0 /\ never_below Brace (lit "A$[B"))
  /\ check_variable_syntax (lit "${A$[B} tail") initial_world
     = check_variable_syntax (lit " tail") initial_world.
Proof.
  assert (Hn : net Brace (lit "A$[B") = 0) by reflexivity.
  assert (Hp : never_below Brace (lit "A$[B")).
  { intros l1 l2 H.
    assert (H0 : l1 = take (length l1) (lit "A$[B"))
      by (rewrite H, take_app_length; reflexivity).
    remember (length l1) as n eqn:En. clear En H. subst l1.
    destruct n as [|[|[|[|[|n]]]]]; vm_compute; discriminate. }
  split; [split; assumption|].
  apply (f_equal (fun c => c initial_world)
           (closed_reference_is_skipped Brace [] (lit "A$[B") (lit " tail")
              ltac:(discriminate) ltac:(constructor) Hn Hp)).
Defined.

Lemma first_dollar (a : cstring) :
  Forall (fun x => x <> "$") a
  \/ exists a1 a2, a = a1 ++ "$" :: a2 /\ Forall (fun x => x <> "$") a1.
Proof.
  induction a as [|c a IH]; [left; constructor|].
  destruct (ascii_dec c "$") as [->|Hc].
  - right. exists [], a. split; [reflexivity | constructor].
  - destruct IH as [IH|(a1 & a2 & -> & H1)].
    + left. constructor; assumption.
    + right. exists (c :: a1), a2. split; [reflexivity|].
      constructor; assumption.
Qed.

(** A ['$'] that opens no reference is stepped over: the loop goes on to
    the next one. *)
Lemma variable_loop_lone_dollars n :
  forall a rest valid,
    (length a <= n)%nat ->
    ~ contains (lit "${") a -> ~ contains (lit "$[") a ->
    variable_loop (a ++ "$" :: rest) valid
    = variable_loop ("$" :: rest) valid.
Proof.
  induction n as [|n IH]; intros a rest valid Hlen H1 H2.
  - destruct a; [reflexivity | simpl in Hlen; lia].
  - destruct (first_dollar a) as [Ha|(a1 & a2 & -> & Ha1)].
    + rewrite (variable_loop_step (a ++ _)), (variable_loop_step ("$" :: _)).
      rewrite (strchr_first a "$" rest Ha).
      change (strchr ("$" :: rest) "$") with (Some 0%nat).
      replace (drop (length a + 1) (a ++ "$" :: rest)) with rest
        by (rewrite drop_app_add'; reflexivity).
      replace (drop (length a + 2) (a ++ "$" :: rest)) with (drop 1 rest)
        by (rewrite drop_app_add'; reflexivity).
      reflexivity.
    + rewrite <- app_assoc. cbn [app].
      rewrite (variable_loop_step (a1 ++ _)).
      rewrite (strchr_first a1 "$" _ Ha1).
      replace (drop (length a1 + 1) (a1 ++ "$" :: a2 ++ "$" :: rest))
        with (a2 ++ "$" :: rest)
        by (rewrite drop_app_add'; reflexivity).
      assert (Hb : Ascii.eqb (deref (a2 ++ "$" :: rest)) "{" = false).
      { destruct a2 as [|c a2]; [reflexivity|]. simpl.
        apply Ascii.eqb_neq. intros ->. apply H1.
        exists a1, a2. reflexivity. }
      assert (Hk : Ascii.eqb (deref (a2 ++ "$" :: rest)) "[" = false).
      { destruct a2 as [|c a2]; [reflexivity|]. simpl.
        apply Ascii.eqb_neq. intros ->. apply H2.
        exists a1, a2. reflexivity. }
      rewrite Hb, Hk. apply IH.
      * rewrite length_app in Hlen. simpl in Hlen. lia.
      * intros (x & y & E). apply H1. exists (a1 ++ "$" :: x), y.
        rewrite E, <- app_assoc. reflexivity.
      * intros (x & y & E). apply H2. exists (a1 ++ "$" :: x), y.
        rewrite E, <- app_assoc. reflexivity.
Qed.

(** X5.  The first reference of a string, when it is never closed, is
    reported, once: if no ["${"] and no ["$["] comes before it (a ['$']
    that opens nothing may) and no prefix of the text after its opener
    closes it, the check fails with the matching "unclosed" diagnostic and
    one more error. *)
Theorem unclosed_reference_is_reported k a X w :
  k <> Paren ->
  ~ contains (lit "${") a -> ~ contains (lit "$[") a ->
  never_below k X ->
  check_variable_syntax (a ++ "$" :: opener k :: X) w
  = (false,
     report_error (match k with
                   | Bracket => MUnclosedExpression
                   | _ => MUnclosedVariable
                   end) w).
Proof.
  intros Hk H1 H2 Hpre. unfold check_variable_syntax.
  rewrite (variable_loop_lone_dollars (length a) a _ true (le_n _) H1 H2).
  pose proof (variable_loop_reference k [] X true Hk (List.Forall_nil _))
    as Hr.
  cbn [app] in Hr. rewrite Hr. clear Hr.
  pose proof (scan_depth_through k X 1 []) as Hs.
  rewrite app_nil_r in Hs. rewrite Hs
    by (intros l1 l2 E; specialize (Hpre l1 l2 E); lia).
  cbn [scan_depth fst snd].
  assert (Hx : 0 <= net k X)
    by (apply (Hpre X []); rewrite app_nil_r; reflexivity).
  replace (1 + net k X =? 0) with false
    by (symmetry; apply Z.eqb_neq; lia).
  cbn [negb]. rewrite variable_loop_nil. reflexivity.
Qed.

(** ["$5 $ ${C(n)"]: the two ['$'] that open nothing are passed, the
    reference after them is reported as an unclosed variable reference. *)
Lemma unclosed_reference_is_reported_witness :
  never_below Brace (lit "C(n)")
  /\ check_variable_syntax (lit "$5 $ ${C(n)") initial_world
     = (false, report_error MUnclosedVariable initial_world).
Proof.
  assert (Hp : never_below Brace (lit "C(n)")).
  { intros l1 l2 H.
    assert (H0 : l1 = take (length l1) (lit "C(n)"))
      by (rewrite H, take_app_length; reflexivity).
    remember (length l1) as n eqn:En. clear En H. subst l1.
    destruct n as [|[|[|[|[|n]]]]]; vm_compute; discriminate. }
  split; [exact Hp|].
  apply (unclosed_reference_is_reported Brace (lit "$5 $ ") (lit "C(n)")
           initial_world ltac:(discriminate)).
  - intros H. apply found_strstr in H. discriminate H.
  - intros H. apply found_strstr in H. discriminate H.
  - exact Hp.
Defined.

(** ** [parse_include] *)

Lemma strstr_first s needle :
  forall i, strstr s needle = Some i ->
    s = take i s ++ needle ++ drop (i + length needle) s
    /\ forall a b, s = a ++ needle ++ b -> (i <= length a)%nat.
Proof.
  induction s as [|x s IH]; intros i; cbn [strstr].
  - destruct (is_prefix needle []) eqn:E; [|discriminate].
    intros [= <-]. apply is_prefix_spec in E as [b E].
    split; [|intros; lia]. simpl. rewrite E at 1.
    rewrite E, drop_app_length. reflexivity.
  - destruct (is_prefix needle (x :: s)) eqn:E.
    + intros [= <-]. apply is_prefix_spec in E as [b E].
      split; [|intros; lia]. cbn [take app Nat.add].
      rewrite E at 1. rewrite E, drop_app_length. reflexivity.
    + destruct (strstr s needle) as [j|] eqn:Hj; [|discriminate].
      intros [= <-]. destruct (IH j eq_refl) as [Hs Hmin]. split.
      * cbn [take app Nat.add drop]. f_equal. exact Hs.
      * intros a b Hab. destruct a as [|y a].
        -- assert (is_prefix needle (x :: s) = true)
             by (apply is_prefix_spec; exists b; exact Hab).
           congruence.
        -- injection Hab as _ Hab. specialize (Hmin a b Hab). simpl. lia.
Qed.

Lemma blank_drop n s : blank s -> blank (drop n s).
Proof. apply Forall_drop. Qed.

Lemma strlen_trim_zero m p :
  (strlen (cstr (fst (trim m p)) (snd (trim m p))) =? 0)%nat = true
  <-> blank (cstr m p).
Proof.
  destruct (trim_spec m p) as (_ & n & Hn & -> & _).
  rewrite Nat.eqb_eq, <- blank_drop_skip. unfold strlen.
  destruct (drop (skip_space (cstr m p)) (cstr m p)) as [|c r].
  - rewrite take_nil. split; reflexivity.
  - destruct n; [lia|]. simpl. split; discriminate.
Qed.

(** X6.  [parse_include] looks at the text after the first ["=>"] only:
    without an arrow the line is rejected for the missing arrow; with
    something besides whitespace after an arrow it is accepted, and
    nothing is written; when every arrow is followed by whitespace only
    it is rejected for the empty context. *)
Theorem parse_include_outcomes m line w :
  (~ contains (lit "=>") (cstr m line) ->
   parse_include m line w = (false, report_error MMissingArrowInclude w))
  /\ (forall a b,
         cstr m line = a ++ lit "=>" ++ b -> ~ blank b ->
         parse_include m line w = (true, w))
  /\ (contains (lit "=>") (cstr m line) ->
      (forall a b, cstr m line = a ++ lit "=>" ++ b -> blank b) ->
      parse_include m line w = (false, report_error MEmptyInclude w)).
Proof.
  unfold parse_include.
  pose proof (found_strstr (cstr m line) (lit "=>")) as Hf.
  destruct (strstr (cstr m line) (lit "=>")) as [i|] eqn:Hi.
  - destruct (strstr_first _ _ _ Hi) as [Hs Hmin].
    set (R := drop (i + length (lit "=>")) (cstr m line)) in *.
    assert (Hlen : (i + 2 <= length (cstr m line))%nat).
    { rewrite Hs, !length_app, length_take. simpl.
      assert (i <= length (cstr m line))%nat; [|lia].
      destruct (Nat.le_gt_cases i (length (cstr m line))) as [H|H];
        [exact H|].
      exfalso. rewrite take_ge in Hs by lia.
      apply (f_equal length) in Hs. rewrite !length_app in Hs.
      simpl in Hs. lia. }
    assert (HR : cstr m (line + i + 2) = R).
    { rewrite <- Nat.add_assoc. apply cstr_add. exact Hlen. }
    pose proof (strlen_trim_zero m (line + i + 2)) as Hz.
    rewrite HR in Hz.
    destruct (trim m (line + i + 2)) as [m' context]. simpl in Hz.
    split; [|split].
    + intros Hno. exfalso. apply Hno, Hf. reflexivity.
    + intros a b Hab Hb.
      destruct (strlen (cstr m' context) =? 0)%nat eqn:E; [|reflexivity].
      exfalso. apply Hb.
      assert (Hbl : blank R) by (apply Hz; reflexivity).
      specialize (Hmin a b Hab).
      assert (b = drop (length a - i) R) as ->; [|apply blank_drop, Hbl].
      unfold R. rewrite drop_drop.
      replace (i + length (lit "=>") + (length a - i))%nat
        with (length a + length (lit "=>"))%nat by lia.
      rewrite Hab at 1. rewrite app_assoc.
      rewrite <- length_app, drop_app_length. reflexivity.
    + intros _ Hall.
      assert (Hbl : blank R) by (apply (Hall (take i (cstr m line))), Hs).
      apply Hz in Hbl. rewrite Hbl. reflexivity.
  - split; [reflexivity|]. split.
    + intros a b Hab _. exfalso.
      assert (found (@None nat) = true)
        by (apply Hf; exists a, b; exact Hab).
      discriminate.
    + intros Hc. apply Hf in Hc. discriminate Hc.
Qed.

(** ["include => other"] is accepted. *)
Lemma parse_include_outcomes_witness :
  ~ blank (lit " other")
  /\ parse_include (of_cstring (lit "include => other")) O initial_world
     = (true, initial_world).
Proof.
  assert (H : ~ blank (lit " other")).
  { intros Hb. inversion Hb as [|? ? _ Hb1]. inversion Hb1 as [|? ? Ho _].
    discriminate Ho. }
  split; [exact H|].
  apply (proj1 (proj2 (parse_include_outcomes
                         (of_cstring (lit "include => other")) O
                         initial_world))
           (lit "include ") (lit " other") eq_refl H).
Defined.

(** ** [parse_context] *)

Lemma strchr_none s c : strchr s c = None <-> ~ In c s.
Proof.
  pose proof (found_strchr s c) as H.
  destruct (strchr s c); simpl in H.
  - split; [discriminate|]. intros Hn. exfalso. apply Hn, H. reflexivity.
  - split; [|reflexivity]. intros _ Hin. apply H in Hin. discriminate.
Qed.

Lemma blank_app a b : blank (a ++ b) <-> blank a /\ blank b.
Proof. apply Forall_app. Qed.

(** X7.  [parse_context] on a line that begins with ['[']: without a
    [']'] the line is rejected as malformed; with only whitespace between
    the brackets it is rejected for the empty name; otherwise it is
    accepted, nothing is written, and the stored name is the text between
    the brackets without the whitespace around it, cut to 79
    characters. *)
Theorem parse_context_outcomes (m : list ascii) line w :
  (~ In "]" (cstr m line) ->
   parse_context m line w = (false, report_error MMalformedContext w))
  /\ (forall n tl,
         cstr m line = "[" :: n ++ "]" :: tl -> ~ In "]" n ->
         (blank n ->
          parse_context m line w = (false, report_error MEmptyContext w))
         /\ (~ blank n ->
             exists ws1 name ws2,
               n = ws1 ++ name ++ ws2 /\ blank ws1 /\ blank ws2
               /\ (forall c, head name = Some c -> isspace c = false)
               /\ (forall c, last name = Some c -> isspace c = false)
               /\ parse_context m line w
                  = (true,
                     snd (set_current_context (take 79 name) w)))).
Proof.
  split.
  - intros Hno. unfold parse_context.
    apply strchr_none in Hno. rewrite Hno. reflexivity.
  - intros n tl HT Hn. unfold parse_context.
    assert (Hchr : strchr (cstr m line) "]" = Some (S (length n))).
    { rewrite HT. apply (strchr_first ("[" :: n) "]" tl).
      constructor; [discriminate|].
      apply Forall_forall. intros x Hx ->. apply Hn.
      apply list_elem_of_In. exact Hx. }
    rewrite Hchr.
    set (m1 := poke m (line + S (length n)) NUL).
    assert (Hm1 : cstr m1 line = "[" :: n).
    { unfold m1. rewrite cstr_poke by (rewrite HT; simpl; rewrite length_app;
                                       simpl; lia).
      rewrite HT. change ("[" :: n ++ "]" :: tl) with (("[" :: n) ++ "]" :: tl).
      change (S (length n)) with (length ("[" :: n)).
      rewrite take_app_length. reflexivity. }
    assert (Hname : cstr m1 (line + 1) = n).
    { rewrite cstr_add by (rewrite Hm1; simpl; lia).
      rewrite Hm1. reflexivity. }
    destruct (trim_split m1 (line + 1))
      as (ws1 & ws2 & Hdec & Hb1 & Hb2 & _ & Hh & Hl).
    rewrite Hname in Hdec.
    pose proof (strlen_trim_zero m1 (line + 1)) as Hz.
    rewrite Hname in Hz.
    destruct (trim m1 (line + 1)) as [m2 context]. simpl in *.
    split.
    + intros Hbl. apply Hz in Hbl. rewrite Hbl. reflexivity.
    + intros Hnb.
      destruct (strlen (cstr m2 context) =? 0)%nat eqn:E;
        [exfalso; apply Hnb, Hz; reflexivity|].
      exists ws1, (cstr m2 context), ws2.
      repeat split; auto.
Qed.

(** ["[ default ] ; main"] is accepted. *)
Lemma parse_context_outcomes_witness :
  (~ In "]" (lit " default ") /\ ~ blank (lit " default "))
  /\ fst (parse_context (of_cstring (lit "[ default ] ; main")) O
            initial_world) = true.
Proof.
  assert (H1 : ~ In "]" (lit " default ")).
  { simpl. intros H. repeat (destruct H as [H|H]; [discriminate H|]).
    exact H. }
  assert (H2 : ~ blank (lit " default ")).
  { intros Hb. inversion Hb as [|? ? _ Hb1]. inversion Hb1 as [|? ? Ho _].
    discriminate Ho. }
  split; [split; assumption|].
  destruct (proj2 (proj2 (parse_context_outcomes
                            (of_cstring (lit "[ default ] ; main")) O
                            initial_world)
                     (lit " default ") (lit " ; main") eq_refl H1) H2)
    as (ws1 & name & ws2 & _ & _ & _ & _ & _ & Heq).
  rewrite Heq. reflexivity.
Defined.

(** ** [parse_extension] *)

Lemma find_commas_two s :
  forall p pa br c1 x y,
    find_commas s p pa br c1 = (Some x, Some y) ->
    (match c1 with None => 2 | Some _ => 1 end
     <= count_occ ascii_dec s ",")%nat.
Proof.
  induction s as [|c s IH]; intros p pa br c1 x y; cbn [find_commas].
  - intros H. discriminate H.
  - cbn [count_occ].
    repeat match goal with
           | |- context [if Ascii.eqb c ?d then _ else _] =>
               destruct (Ascii.eqb c d) eqn:?
           end;
      try (intros H; apply IH in H;
           destruct (ascii_dec c ","); destruct c1; lia).
    destruct (Ascii.eqb_spec c ",") as [->|Hne]; cbn [andb].
    + destruct (ascii_dec "," ","); [|contradiction].
      destruct ((pa =? 0) && (br =? 0)).
      * destruct c1.
        -- intros _. lia.
        -- intros H. apply IH in H. lia.
      * intros H. apply IH in H. destruct c1; lia.
    + intros H. apply IH in H.
      destruct (ascii_dec c ","); destruct c1; lia.
Qed.

Lemma count_occ_take_drop (s : cstring) c n k :
  (count_occ ascii_dec (take n (drop k s)) c <= count_occ ascii_dec s c)%nat.
Proof.
  pose proof (count_occ_app ascii_dec (take k s) (drop k s) c) as H1.
  pose proof (count_occ_app ascii_dec (take n (drop k s))
                (drop n (drop k s)) c) as H2.
  rewrite take_drop in H1, H2. lia.
Qed.

Lemma strstr_length s needle :
  forall i, strstr s needle = Some i ->
    (i + length needle <= length s)%nat.
Proof.
  induction s as [|x s IH]; intros i; cbn [strstr].
  - destruct (is_prefix needle []) eqn:E; [|discriminate].
    intros [= <-]. apply is_prefix_spec in E as [b E].
    rewrite E, length_app. lia.
  - destruct (is_prefix needle (x :: s)) eqn:E.
    + intros [= <-]. apply is_prefix_spec in E as [b E].
      rewrite E, length_app. lia.
    + destruct (strstr s needle) as [j|]; [|discriminate].
      intros [= <-]. specialize (IH j eq_refl). simpl. lia.
Qed.

(** X8.  An [exten] or [same] line with an arrow and at most one comma in
    it is rejected for its format, whatever else it holds.  This is the
    case of every continuation line of the form ["same => n,App()"]. *)
Theorem one_comma_is_a_format_error m line w :
  let T := cstr m line in
  contains (lit "=>") T ->
  begins_with (lit "exten") (drop (skip_space T) T)
  \/ begins_with (lit "same") (drop (skip_space T) T) ->
  occurrences "," T <= 1 ->
  parse_extension m line w = (false, report_error MExtensionFormat w).
Proof.
  intros T Harrow Hkw Hcount. unfold parse_extension. fold T.
  apply found_strstr in Harrow.
  destruct (strstr T (lit "=>")) as [a|] eqn:Ha; [|discriminate].
  assert (Hk : cstr m (line + skip_space T) = drop (skip_space T) T)
    by apply cstr_add, skip_space_le.
  cbv zeta. rewrite Hk.
  assert (Hkey :
            negb (strncasecmp (drop (skip_space T) T) (lit "exten") 5 =? 0)
            && negb
                 (negb (strncasecmp (drop (skip_space T) T) (lit "exten") 5
                        =? 0)
                  && (strncasecmp (drop (skip_space T) T) (lit "same") 4
                      =? 0)) = false).
  { destruct (strncasecmp (drop (skip_space T) T) (lit "exten") 5 =? 0)
      eqn:Ee; [reflexivity|]. cbn [negb andb].
    destruct Hkw as [He|Hs].
    - apply (strncasecmp_begins (lit "exten")) in He;
        [|repeat constructor; discriminate].
      apply Z.eqb_neq in Ee. contradiction.
    - apply (strncasecmp_begins (lit "same")) in Hs;
        [|repeat constructor; discriminate].
      change (length (lit "same")) with 4%nat in Hs. rewrite Hs. reflexivity. }
  rewrite Hkey.
  destruct (trim_spec m (line + a + 2)) as (_ & n & _ & Hcs & _).
  assert (HR : cstr m (line + a + 2) = drop (a + 2) T).
  { rewrite <- Nat.add_assoc. apply cstr_add.
    apply strstr_length in Ha. exact Ha. }
  rewrite HR in Hcs.
  destruct (trim m (line + a + 2)) as [m' data]. simpl in Hcs.
  rewrite Hcs.
  destruct (find_commas _ data 0 0 None) as [[c1|] [c2|]] eqn:Hf;
    try reflexivity.
  exfalso. apply find_commas_two in Hf.
  pose proof (count_occ_take_drop
                (drop (a + 2) T) "," n
                (skip_space (drop (a + 2) T))) as H1.
  pose proof (count_occ_take_drop T "," (length T) (a + 2)) as H2.
  rewrite take_ge in H2 by (rewrite length_drop; lia).
  unfold occurrences in Hcount. lia.
Qed.

(** ["same => n,Hangup()"] is such a line. *)
Lemma one_comma_is_a_format_error_witness :
  occurrences "," (lit "same => n,Hangup()") <= 1
  /\ parse_extension (of_cstring (lit "same => n,Hangup()")) O initial_world
     = (false, report_error MExtensionFormat initial_world).
Proof.
  assert (H : occurrences "," (lit "same => n,Hangup()") <= 1)
    by (vm_compute; discriminate).
  split; [exact H|].
  apply (one_comma_is_a_format_error
           (of_cstring (lit "same => n,Hangup()")) O initial_world).
  - exists (lit "same "), (lit " n,Hangup()"). reflexivity.
  - right. exists (lit "same"), (lit " => n,Hangup()").
    split; reflexivity.
  - exact H.
Defined.

Lemma validate_priority_outcome s w :
  validate_priority s w = (true, w)
  \/ exists msg,
       priority_message msg
       /\ validate_priority s w = (false, report_error msg w).
Proof.
  unfold validate_priority, priority_message.
  repeat match goal with
         | |- context [if ?b then _ else _] => destruct b
         | |- context [let '(_, _) := ?x in _] => destruct x
         end; eauto 6.
Qed.

Lemma variable_loop_outcome p :
  forall valid w,
    variable_loop p valid w = (valid, w)
    \/ exists msg,
         variable_message msg
         /\ variable_loop p valid w = (false, report_error msg w).
Proof.
  induction p as [p IH] using variable_loop_ind. intros valid w.
  rewrite variable_loop_step.
  destruct (strchr p "$") as [i|] eqn:Hi; [|left; reflexivity].
  apply strchr_lt in Hi.
  assert (Hd : forall o c, (length (snd (scan_depth o c 1 (drop (i + 2) p)))
                            < length p)%nat).
  { intros o c. pose proof (scan_depth_length o c 1 (drop (i + 2) p)) as Hs.
    rewrite length_drop in Hs. lia. }
  assert (Hd1 : (length (drop (i + 1) p) < length p)%nat)
    by (rewrite length_drop; lia).
  assert (Hopen : forall msg o c,
             variable_message msg ->
             fst (scan_depth o c 1 (drop (i + 2) p)) <> 0 ->
             exists msg',
               variable_message msg'
               /\ (let* _ := emit msg in
                   let* _ := incr_errors in
                   variable_loop
                     (snd (scan_depth o c 1 (drop (i + 2) p))) false) w
                  = (false, report_error msg' w)).
  { intros msg o c Hm Hne.
    rewrite (scan_depth_unclosed o c 1 _ ltac:(lia) Hne), variable_loop_nil.
    exists msg. split; [exact Hm | reflexivity]. }
  destruct (Ascii.eqb (deref (drop (i + 1) p)) "{").
  - destruct (fst (scan_depth "{" "}" 1 (drop (i + 2) p)) =? 0) eqn:E; simpl.
    + apply IH, Hd.
    + right. apply Z.eqb_neq in E. apply Hopen; [left; reflexivity | exact E].
  - destruct (Ascii.eqb (deref (drop (i + 1) p)) "[").
    + destruct (fst (scan_depth "[" "]" 1 (drop (i + 2) p)) =? 0) eqn:E;
        simpl.
      * apply IH, Hd.
      * right. apply Z.eqb_neq in E.
        apply Hopen; [right; reflexivity | exact E].
    + apply IH, Hd1.
Qed.

(** The end of [parse_extension]: the balance check on the application
    text, then the reference check. *)
Lemma extension_tail_outcome app_s data_s w :
  let c :=
    (let* ok := (if (0 <? strlen app_s)%nat then
                   match strchr app_s "(" with
                   | Some _ => check_balanced app_s
                   | None => ret true
                   end
                 else ret true) in
     if negb ok then ret false
     else let* _ := check_variable_syntax data_s in ret true) in
  (exists msg,
      ~ variable_message msg /\ is_error msg = true
      /\ c w = (false, report_error msg w))
  \/ c w = (true, w)
  \/ (exists msg,
         variable_message msg /\ c w = (true, report_error msg w)).
Proof.
  cbv zeta. rewrite bind_run.
  set (bal := if (0 <? strlen app_s)%nat
              then match strchr app_s "(" with
                   | Some _ => check_balanced app_s
                   | None => ret true
                   end
              else ret true).
  assert (Hbal : bal w = (true, w)
                 \/ exists msg, balance_message msg
                      /\ bal w = (false, report_error msg w)).
  { unfold bal.
    destruct (0 <? strlen app_s)%nat; [|left; reflexivity].
    destruct (strchr app_s "("); [|left; reflexivity].
    rewrite check_balanced_run.
    destruct (balance_loop app_s NUL 0 0 0 false NUL)
      as [[[[p b] c] [|]]|]; unfold balance_message; eauto 8.
    destruct (negb (p =? 0) || negb (b =? 0) || negb (c =? 0));
      eauto 10. }
  destruct Hbal as [Hb|(msg & Hm & Hb)]; rewrite Hb; cbn [fst snd negb].
  2:{ left. exists msg. split; [|split; [|reflexivity]].
      - intros [H|H]; destruct Hm as [G|[G|(p & b & c & G)]]; congruence.
      - destruct Hm as [->|[->|(p & b & c & ->)]]; reflexivity. }
  rewrite bind_run. unfold check_variable_syntax.
  destruct (variable_loop_outcome data_s true w)
    as [Hv|(msg & Hm & Hv)]; rewrite Hv; cbn [fst snd].
  - right; left. reflexivity.
  - right; right. exists msg. split; [exact Hm | reflexivity].
Qed.

(** The three ways [parse_extension] can end. *)
Lemma parse_extension_outcome m line w :
  (exists msg,
      ~ variable_message msg /\ is_error msg = true
      /\ parse_extension m line w = (false, report_error msg w))
  \/ parse_extension m line w = (true, w)
  \/ (exists msg,
         variable_message msg
         /\ parse_extension m line w = (true, report_error msg w)).
Proof.
  unfold parse_extension.
  destruct (strstr (cstr m line) (lit "=>")) as [a|].
  2:{ left. exists MMissingArrowExtension.
      split; [intros [H|H]; discriminate H|]. split; reflexivity. }
  cbv zeta.
  match goal with
  | |- context [if ?b then _ else _] => destruct b
  end.
  { left. exists MUnknownKeyword.
    split; [intros [H|H]; discriminate H|]. split; reflexivity. }
  destruct (trim m (line + a + 2)) as [m1 data].
  destruct (find_commas (cstr m1 data) data 0 0 None) as [[c1|] [c2|]];
    try (left; exists MExtensionFormat;
         split; [intros [H|H]; discriminate H|]; split; reflexivity).
  destruct (trim (poke (poke m1 c1 NUL) c2 NUL) (c1 + 1)) as [m2 pri].
  destruct (trim m2 (c2 + 1)) as [m3 app].
  destruct (trim m3 data) as [m4 pattern].
  match goal with
  | |- context [if negb ?b then validate_priority _ else _] => destruct b
  end; cbn [negb].
  - apply extension_tail_outcome.
  - rewrite bind_run.
    destruct (validate_priority_outcome (cstr m4 pri) w)
      as [Hp|(msg & Hm & Hp)]; rewrite Hp; cbn [fst snd negb].
    + apply extension_tail_outcome.
    + left. exists msg. split; [|split; [|reflexivity]].
      * intros [H|H]; destruct Hm as [G|[s G]]; congruence.
      * destruct Hm as [->|[s ->]]; reflexivity.
Qed.

(** X9.  [parse_extension] writes at most one diagnostic.  When it
    returns 0 it has reported exactly one error, and not one about a
    reference; when it returns 1 the state is untouched or one unclosed
    reference was reported: a return of 1 does not mean that the line is
    clean, as on ["exten => ${X,1,NoOp()"]. *)
Theorem parse_extension_outcomes :
  (forall m line w,
      (exists msg,
          ~ variable_message msg /\ is_error msg = true
          /\ parse_extension m line w = (false, report_error msg w))
      \/ parse_extension m line w = (true, w)
      \/ (exists msg,
             variable_message msg
             /\ parse_extension m line w = (true, report_error msg w)))
  /\ (forall w,
         parse_extension (of_cstring (lit "exten => ${X,1,NoOp()")) O w
         = (true, report_error MUnclosedVariable w)).
Proof.
  split; [|intros [[e wn l c] ds]; vm_compute; reflexivity].
  apply parse_extension_outcome.
Qed.

(** ** The driver, line by line *)

Lemma report_error_line msg w :
  line_num (vstate (report_error msg w)) = line_num (vstate w)
  /\ err_stream (report_error msg w)
     = err_stream w ++ [Diag (line_num (vstate w)) msg].
Proof. split; reflexivity. Qed.

Lemma wamo_then_ret {A B} (c : M A) (b : B) :
  writes_at_most_one c -> writes_at_most_one (let* _ := c in ret b).
Proof. intros Hc w. rewrite bind_run. apply Hc. Qed.

Lemma wamo_ret {A} (a : A) : writes_at_most_one (ret a).
Proof. intros w. split; [reflexivity | left; reflexivity]. Qed.

Lemma wamo_parse_context m line : writes_at_most_one (parse_context m line).
Proof.
  intros w. unfold parse_context.
  destruct (strchr (cstr m line) "]");
    [|split; [reflexivity | right; eexists; reflexivity]].
  destruct (trim _ _) as [m' context].
  destruct (strlen (cstr m' context) =? 0)%nat;
    [split; [reflexivity | right; eexists; reflexivity]
    |split; [reflexivity | left; reflexivity]].
Qed.

Lemma wamo_parse_include m line : writes_at_most_one (parse_include m line).
Proof.
  intros w. unfold parse_include.
  destruct (strstr (cstr m line) (lit "=>"));
    [|split; [reflexivity | right; eexists; reflexivity]].
  destruct (trim _ _) as [m' context].
  destruct (strlen (cstr m' context) =? 0)%nat;
    [split; [reflexivity | right; eexists; reflexivity]
    |split; [reflexivity | left; reflexivity]].
Qed.

Lemma wamo_parse_extension m line :
  writes_at_most_one (parse_extension m line).
Proof.
  intros w.
  destruct (parse_extension_outcome m line w)
    as [(msg & _ & _ & ->)|[->|(msg & _ & ->)]]; cbn [snd].
  - split; [reflexivity | right; exists msg; reflexivity].
  - split; [reflexivity | left; reflexivity].
  - split; [reflexivity | right; exists msg; reflexivity].
Qed.

Lemma wamo_dispatch d m trimmed in_context :
  writes_at_most_one (dispatch d m trimmed in_context).
Proof.
  destruct d; cbn [dispatch].
  - apply wamo_then_ret, wamo_parse_context.
  - apply wamo_ret.
  - apply wamo_then_ret, wamo_parse_extension.
  - apply wamo_then_ret, wamo_parse_include.
  - destruct (negb _); [|apply wamo_ret].
    intros w. split; [reflexivity | right; eexists; reflexivity].
  - intros w. split; [reflexivity | right; eexists; reflexivity].
  - apply wamo_ret.
Qed.

(** One line: the line number goes up by one, and at most one diagnostic
    is written, tagged with the new number. *)
Lemma validate_line_step chunk in_context w :
  let w' := snd (validate_line chunk in_context w) in
  line_num (vstate w') = line_num (vstate w) + 1
  /\ (err_stream w' = err_stream w
      \/ exists msg,
           err_stream w'
           = err_stream w ++ [Diag (line_num (vstate w) + 1) msg]).
Proof.
  rewrite validate_line_dispatch, bind_run.
  set (w1 := snd (incr_line_num w)).
  assert (H1 : line_num (vstate w1) = line_num (vstate w) + 1) by reflexivity.
  assert (H2 : err_stream w1 = err_stream w) by reflexivity.
  cbv zeta. rewrite <- H1, <- H2.
  destruct (is_comment_or_blank (line_text chunk)).
  - split; [reflexivity | left; reflexivity].
  - destruct (trimmed_buffer chunk) as [m trimmed].
    apply wamo_dispatch.
Qed.

Lemma validate_lines_numbered chunks :
  forall in_context w, exists ds,
    let w' := snd (validate_lines chunks in_context w) in
    err_stream w' = err_stream w ++ ds
    /\ line_num (vstate w')
       = line_num (vstate w) + Z.of_nat (length chunks)
    /\ (length ds <= length chunks)%nat
    /\ Forall (fun d => line_num (vstate w) < d_line d
                        <= line_num (vstate w) + Z.of_nat (length chunks))
         ds
    /\ StronglySorted (fun d1 d2 => d_line d1 < d_line d2) ds.
Proof.
  induction chunks as [|chunk rest IH]; intros b w.
  - exists []. simpl. rewrite app_nil_r.
    repeat split; try lia; constructor.
  - cbn [validate_lines]. rewrite bind_run.
    destruct (validate_line_step chunk b w) as [Hn Hd].
    set (w1 := snd (validate_line chunk b w)) in *.
    destruct (IH (fst (validate_line chunk b w)) w1)
      as (ds & E & Hl & Hlen & Hall & Hs).
    cbv zeta in *. cbn [length]. rewrite Nat2Z.inj_succ.
    rewrite Hn in Hl, Hall.
    destruct Hd as [Hd|[msg Hd]]; rewrite Hd in E.
    + exists ds. rewrite E, Hl. repeat split; try lia; [|exact Hs].
      eapply Forall_impl; [exact Hall|]. simpl. intros; lia.
    + exists (Diag (line_num (vstate w) + 1) msg :: ds).
      rewrite E, Hl, <- app_assoc. cbn [length].
      repeat split; try lia.
      * constructor; [simpl; lia|].
        eapply Forall_impl; [exact Hall|]. simpl. intros; lia.
      * constructor; [exact Hs|].
        eapply Forall_impl; [exact Hall|]. simpl. intros; lia.
Qed.

(** X10.  On a run of at most [INT_MAX] lines the diagnostics come in the
    order of the lines: their line numbers are strictly increasing and lie
    between 1 and the number of lines read, so no line has more than one
    diagnostic; the line counter ends at the number of lines read, within
    the range of an [int]. *)
Theorem diagnostics_follow_the_lines chunks :
  Z.of_nat (length chunks) <= INT_MAX ->
  let o := validate_chunks chunks in
  line_num (vstate (final o)) = Z.of_nat (length chunks)
  /\ 0 <= line_num (vstate (final o)) <= INT_MAX
  /\ (length (diagnostics o) <= length chunks)%nat
  /\ Forall (fun d => 1 <= d_line d <= Z.of_nat (length chunks))
       (diagnostics o)
  /\ StronglySorted (fun d1 d2 => d_line d1 < d_line d2) (diagnostics o).
Proof.
  intros Hbound. cbv zeta. unfold diagnostics. rewrite validate_chunks_final.
  destruct (validate_lines_numbered chunks false initial_world)
    as (ds & E & Hl & Hlen & Hall & Hs).
  cbv zeta in *. simpl in E, Hl, Hall. rewrite E, Hl.
  repeat split; try lia; [|exact Hs].
  eapply Forall_impl; [exact Hall|]. simpl. intros; lia.
Qed.

(** Two malformed headers: one diagnostic for each line, numbered 1
    and 2. *)
Lemma diagnostics_follow_the_lines_witness :
  Z.of_nat (length [line "[a"; line "[b"]) <= INT_MAX
  /\ line_num (vstate (final (validate_chunks [line "[a"; line "[b"]))) = 2
  /\ map d_line (diagnostics (validate_chunks [line "[a"; line "[b"]))
     = [1; 2].
Proof.
  assert (Hb : Z.of_nat (length [line "[a"; line "[b"]) <= INT_MAX)
    by (vm_compute; discriminate).
  split; [exact Hb|].
  split; [|reflexivity].
  apply (proj1 (diagnostics_follow_the_lines [line "[a"; line "[b"] Hb)).
Defined.

(** ** Comments, and lines before the first context *)

(** X11.  A line whose first character after the leading whitespace is
    [';'] or ['#'], or that holds whitespace only, is counted and
    otherwise ignored, whatever follows on it. *)
Theorem comment_lines_are_skipped chunk in_context w :
  first_nonspace (line_text chunk) = ";"
  \/ first_nonspace (line_text chunk) = "#"
  \/ blank (line_text chunk) ->
  validate_line chunk in_context w = (in_context, snd (incr_line_num w)).
Proof.
  intros H. rewrite validate_line_dispatch, bind_run.
  assert (Hc : is_comment_or_blank (line_text chunk) = true).
  { unfold is_comment_or_blank. fold (first_nonspace (line_text chunk)).
    destruct H as [->|[->|Hb]]; [reflexivity | reflexivity|].
    unfold first_nonspace. apply blank_drop_skip in Hb. rewrite Hb.
    reflexivity. }
  rewrite Hc. reflexivity.
Qed.

(** A comment with an unclosed parenthesis in it. *)
Lemma comment_lines_are_skipped_witness :
  first_nonspace (line_text (line "  ; exten => s,1,Dial(")) = ";"
  /\ validate_line (line "  ; exten => s,1,Dial(") true initial_world
     = (true, snd (incr_line_num initial_world)).
Proof.
  assert (H : first_nonspace (line_text (line "  ; exten => s,1,Dial("))
              = ";") by reflexivity.
  split; [exact H|].
  apply (comment_lines_are_skipped _ true initial_world (or_introl H)).
Defined.

Lemma logs_errors_parse_context m line :
  logs (fun msg => is_warning msg = false) (parse_context m line).
Proof.
  unfold parse_context.
  repeat logs_step; try reflexivity. apply logs_set_current_context.
Qed.

Lemma logs_errors_parse_include m line :
  logs (fun msg => is_warning msg = false) (parse_include m line).
Proof. unfold parse_include. repeat logs_step; reflexivity. Qed.

Lemma logs_errors_parse_extension m line :
  logs (fun msg => is_warning msg = false) (parse_extension m line).
Proof.
  unfold parse_extension.
  repeat first
    [ apply (logs_weaken priority_message);
      [intros msg [->|[s ->]]; reflexivity | apply logs_validate_priority]
    | apply (logs_weaken balance_message);
      [intros msg [->|[->|(p & b & c & ->)]]; reflexivity
      | apply logs_check_balanced]
    | apply (logs_weaken variable_message);
      [intros msg [->| ->]; reflexivity | apply logs_check_variable_syntax]
    | logs_step ]; reflexivity.
Qed.

Lemma logs_errors_validate_line chunk :
  logs (fun msg => is_warning msg = false) (validate_line chunk false).
Proof.
  unfold validate_line. cbn [andb negb].
  repeat first
    [ apply logs_incr_line_num
    | apply logs_errors_parse_context
    | apply logs_errors_parse_extension
    | apply logs_errors_parse_include
    | logs_step ]; reflexivity.
Qed.

Lemma logs_errors_validate_lines chunks :
  existsb opens_context chunks = false ->
  logs (fun msg => is_warning msg = false) (validate_lines chunks false).
Proof.
  induction chunks as [|chunk rest IH]; intros Hno; cbn [validate_lines].
  - apply logs_ret.
  - cbn [existsb] in Hno. apply orb_false_iff in Hno as [Hc Hrest].
    intros w. rewrite bind_run, validate_line_flag, Hc. cbn [orb].
    destruct (logs_errors_validate_line chunk w) as (ds1 & T1 & F1).
    destruct (IH Hrest (snd (validate_line chunk false w)))
      as (ds2 & T2 & F2).
    exists (ds1 ++ ds2).
    split; [eapply tally_app; eauto | apply Forall_app; auto].
Qed.

(** X12.  No warning is written before the first line that begins with
    ['[']: a file without any such line ends with no warning, whatever
    its lines hold. *)
Theorem no_warning_outside_contexts chunks :
  existsb opens_context chunks = false ->
  warnings (vstate (final (validate_chunks chunks))) = 0
  /\ warning_diags (diagnostics (validate_chunks chunks)) = [].
Proof.
  intros Hno. unfold diagnostics. rewrite validate_chunks_final.
  destruct (logs_errors_validate_lines chunks Hno initial_world)
    as (ds & (E1 & E2 & E3) & F).
  assert (Hw : warning_diags ds = []).
  { unfold warning_diags. clear -F.
    induction F as [|d ds Hd _ IH]; [reflexivity|].
    rewrite filter_cons, Hd.
    destruct (decide (false = true)); [discriminate | exact IH]. }
  rewrite E1, E3, Hw. split; [reflexivity|].
  change (err_stream initial_world ++ ds) with ds. exact Hw.
Qed.

(** Lines that would be unknown directives inside a context. *)
Lemma no_warning_outside_contexts_witness :
  existsb opens_context [line "bogus"; line "more bogus"] = false
  /\ warnings
       (vstate (final (validate_chunks [line "bogus"; line "more bogus"])))
     = 0.
Proof.
  assert (H : existsb opens_context [line "bogus"; line "more bogus"]
              = false) by reflexivity.
  split; [exact H|].
  apply (proj1 (no_warning_outside_contexts _ H)).
Defined.

(** ** Reading the file *)

Lemma fgets_all_concat content :
  forall room cur, concat (fgets_all room cur content) = rev cur ++ content.
Proof.
  induction content as [|c rest IH]; intros room cur; cbn [fgets_all].
  - destruct cur; [reflexivity|]. cbn [concat]. rewrite app_nil_r.
    reflexivity.
  - destruct (Ascii.eqb c NEWLINE || (room =? 1)%nat).
    + cbn [concat]. rewrite IH. cbn [rev app].
      rewrite <- app_assoc. reflexivity.
    + rewrite IH. cbn [rev]. rewrite <- app_assoc. reflexivity.
Qed.

Lemma newline_at_end (body : list ascii) c a b :
  Forall (fun x => x <> NEWLINE) body ->
  body ++ [c] = a ++ NEWLINE :: b -> b = [].
Proof.
  intros Hb E. destruct b as [|y b] using rev_ind; [reflexivity|].
  exfalso. clear IHb.
  change (a ++ NEWLINE :: b ++ [y]) with (a ++ (NEWLINE :: b) ++ [y]) in E.
  rewrite app_assoc in E. apply app_inj_tail in E as [E _].
  rewrite E in Hb. apply Forall_app in Hb as [_ Hb].
  inversion Hb; congruence.
Qed.

Lemma fgets_all_chunks content :
  forall room cur,
    (1 <= room)%nat -> (length cur + room = MAX_LINE - 1)%nat ->
    Forall (fun x => x <> NEWLINE) cur ->
    Forall (fun chunk =>
              (0 < length chunk <= MAX_LINE - 1)%nat
              /\ forall a b, chunk = a ++ NEWLINE :: b -> b = [])
      (fgets_all room cur content)
    /\ Forall (fun chunk =>
                 last chunk = Some NEWLINE
                 \/ length chunk = (MAX_LINE - 1)%nat)
         (removelast (fgets_all room cur content)).
Proof.
  remember (MAX_LINE - 1)%nat as N eqn:HN.
  assert (HN1 : (1 <= N)%nat) by (subst N; vm_compute; lia).
  induction content as [|c rest IH]; intros room cur Hroom Hlen Hcur;
    cbn [fgets_all].
  - destruct cur as [|x cur]; [split; constructor|].
    split; [|constructor]. constructor; [|constructor]. split.
    + rewrite length_rev. simpl in *. lia.
    + intros a b E. exfalso.
      assert (Hin : In NEWLINE (rev (x :: cur)))
        by (rewrite E; apply in_or_app; right; left; reflexivity).
      apply in_rev in Hin.
      apply (proj1 (List.Forall_forall _ _) Hcur) in Hin. congruence.
  - rewrite <- HN.
    destruct (Ascii.eqb c NEWLINE || (room =? 1)%nat) eqn:E.
    + destruct (IH N [] HN1 ltac:(simpl; lia) ltac:(constructor))
        as [IH1 IH2].
      assert (Hrev : Forall (fun x => x <> NEWLINE) (rev cur)).
      { apply List.Forall_forall. intros x Hx. apply in_rev in Hx.
        apply (proj1 (List.Forall_forall _ _) Hcur) in Hx. exact Hx. }
      split.
      * constructor; [|exact IH1]. cbn [rev]. split.
        -- rewrite length_app, length_rev. simpl. lia.
        -- intros a b Eab. eapply newline_at_end; [exact Hrev | exact Eab].
      * cbn [removelast].
        destruct (fgets_all N [] rest) as [|ch chs] eqn:Hf; [constructor|].
        constructor; [|exact IH2].
        cbn [rev]. rewrite last_snoc, length_app, length_rev. simpl.
        apply orb_true_iff in E as [E|E].
        -- left. apply Ascii.eqb_eq in E. subst c. reflexivity.
        -- right. apply Nat.eqb_eq in E. lia.
    + apply orb_false_iff in E as [E1 E2].
      apply Ascii.eqb_neq in E1. apply Nat.eqb_neq in E2.
      apply IH; [lia | simpl; lia | constructor; assumption].
Qed.

(** X13.  Reading loses nothing and cuts only where it must: the chunks
    that [fgets] delivers, put end to end, are the file; each holds
    between 1 and 4095 characters, with a newline nowhere but at its end;
    each one but the last ends with a newline or fills the buffer. *)
Theorem read_lines_partitions content :
  concat (read_lines content) = content
  /\ Forall (fun chunk =>
               (0 < length chunk <= MAX_LINE - 1)%nat
               /\ forall a b, chunk = a ++ NEWLINE :: b -> b = [])
       (read_lines content)
  /\ Forall (fun chunk =>
               last chunk = Some NEWLINE
               \/ length chunk = (MAX_LINE - 1)%nat)
       (removelast (read_lines content)).
Proof.
  unfold read_lines. split; [apply fgets_all_concat|].
  apply fgets_all_chunks; [vm_compute; lia | reflexivity | constructor].
Qed.

(** A chunk with a newline in it ends there. *)
Lemma read_lines_partitions_witness :
  read_lines (lit "ab" ++ NEWLINE :: lit "cd")
  = [lit "ab" ++ [NEWLINE]; lit "cd"]
  /\ forall a b, lit "ab" ++ [NEWLINE] = a ++ NEWLINE :: b -> b = [].
Proof.
  assert (H : read_lines (lit "ab" ++ NEWLINE :: lit "cd")
              = [lit "ab" ++ [NEWLINE]; lit "cd"]) by reflexivity.
  split; [exact H|].
  pose proof (proj1 (proj2 (read_lines_partitions
                              (lit "ab" ++ NEWLINE :: lit "cd")))) as Hall.
  rewrite H in Hall. inversion Hall as [|? ? [_ Hnl] _]. exact Hnl.
Defined.

(** ** Priorities, in general *)

Lemma digit_facts c :
  isdigit c = true ->
  isspace c = false /\ c <> "-" /\ c <> "+" /\ c <> "h" /\ c <> "n"
  /\ 48 <= code c <= 57 /\ (c <> "0" -> 49 <= code c).
Proof.
  destruct c as [[] [] [] [] [] [] [] []]; vm_compute; intros H;
    try discriminate H;
    repeat split; try discriminate; try congruence;
    intros Hc; try (exfalso; apply Hc; reflexivity); discriminate.
Qed.

Lemma digits_run ds tail :
  Forall (fun c => isdigit c = true) ds ->
  isdigit (deref tail) = false ->
  forall acc, 0 <= acc ->
    exists v,
      digits acc (ds ++ tail) = (v, length ds)
      /\ acc <= v
      /\ (Exists (fun c => c <> "0") ds -> 1 <= v)
      /\ (acc = 0 -> Forall (fun c => c = "0") ds -> v = 0).
Proof.
  intros Hds Htail. induction Hds as [|c ds Hc _ IH]; intros acc Hacc.
  - exists acc. cbn [app length].
    assert (Hd : digits acc tail = (acc, O)).
    { destruct tail as [|t tail]; [reflexivity|].
      cbn [digits]. simpl in Htail. rewrite Htail. reflexivity. }
    rewrite Hd. repeat split; try lia.
    intros H. inversion H.
  - destruct (digit_facts c Hc) as (_ & _ & _ & _ & _ & Hr & Hnz).
    cbn [app digits length]. rewrite Hc.
    destruct (IH (10 * acc + (code c - 48)) ltac:(lia))
      as (v & -> & Hv1 & Hv2 & Hv3).
    exists v. repeat split; try lia.
    + intros Hex. inversion Hex as [? ? Hne|? ? Hrest]; subst.
      * specialize (Hnz Hne). lia.
      * apply Hv2, Hrest.
    + intros -> Hall. inversion Hall as [|? ? Hz Hrest]; subst.
      apply Hv3; [reflexivity | exact Hrest].
Qed.

Lemma strcmp_first x a y b :
  x <> y -> (strcmp (x :: a) (y :: b) =? 0) = false.
Proof.
  intros H. cbn [strcmp]. apply Ascii.eqb_neq in H as H'. rewrite H'.
  apply Z.eqb_neq. intros E. apply H, code_inj. lia.
Qed.

Lemma clamp_long_low v : 0 <= v -> (clamp_long v <? 1) = (v <? 1).
Proof.
  intros Hv. unfold clamp_long, LONG_MAX, LONG_MIN.
  destruct (v >? 2 ^ 63 - 1) eqn:E1.
  - apply Z.gtb_lt in E1. symmetry. rewrite Z.ltb_ge. lia.
  - destruct (v <? - 2 ^ 63) eqn:E2; [|reflexivity].
    apply Z.ltb_lt in E2. lia.
Qed.

Lemma numeric_priority_run ds tail w :
  ds <> [] -> Forall (fun c => isdigit c = true) ds ->
  tail = [] \/ (exists label, tail = "(" :: label) ->
  (Exists (fun c => c <> "0") ds ->
   validate_priority (ds ++ tail) w = (true, w))
  /\ (Forall (fun c => c = "0") ds ->
      validate_priority (ds ++ tail) w
      = (false, report_error MPriorityTooLow w)).
Proof.
  intros Hne Hds Htail.
  destruct ds as [|d ds']; [contradiction|].
  assert (Hd : isdigit d = true) by (inversion Hds; assumption).
  destruct (digit_facts d Hd) as (Hsp & Hm & Hp & Hh & Hn & _ & _).
  assert (Hend : deref tail = NUL \/ deref tail = "(")
    by (destruct Htail as [->|[l ->]]; [left | right]; reflexivity).
  assert (Htd : isdigit (deref tail) = false)
    by (destruct Hend as [->| ->]; reflexivity).
  destruct (digits_run (d :: ds') tail Hds Htd 0 ltac:(lia))
    as (v & Hdig & Hv0 & Hv1 & Hv2).
  assert (Hstrtol : strtol ((d :: ds') ++ tail)
                    = (clamp_long v, length (d :: ds'))).
  { unfold strtol. cbn [app skip_space]. rewrite Hsp. cbn [drop].
    apply Ascii.eqb_neq in Hm, Hp. rewrite Hm, Hp. cbn [drop].
    change (d :: ds' ++ tail) with ((d :: ds') ++ tail).
    rewrite Hdig. reflexivity. }
  assert (Hpre : validate_priority ((d :: ds') ++ tail) w
                 = if clamp_long v <? 1
                   then (false, report_error MPriorityTooLow w)
                   else (true, w)).
  { unfold validate_priority.
    cbn [app]. change (lit "hint") with ("h" :: lit "int").
    change (lit "n") with ["n"].
    rewrite (strcmp_first d _ "h" _ Hh), (strcmp_first d _ "n" _ Hn).
    cbn [negb]. change (d :: ds' ++ tail) with ((d :: ds') ++ tail).
    rewrite Hstrtol, drop_app_length.
    destruct Hend as [->| ->]; cbn [Ascii.eqb negb andb];
      destruct (clamp_long v <? 1); reflexivity. }
  rewrite Hpre, clamp_long_low by lia.
  split.
  - intros Hex. specialize (Hv1 Hex).
    replace (v <? 1) with false by (symmetry; apply Z.ltb_ge; lia).
    reflexivity.
  - intros Hall. rewrite (Hv2 eq_refl Hall). reflexivity.
Qed.


Lemma strcmp_zero a :
  Forall (fun c => c <> NUL) a ->
  forall b, Forall (fun c => c <> NUL) b -> strcmp a b = 0 -> a = b.
Proof.
  induction 1 as [|x a Hx _ IH]; intros b Hb; destruct Hb as [|y b Hy Hb];
    cbn [strcmp].
  - reflexivity.
  - intros H. exfalso. apply Hy, code_inj. change (code NUL) with 0. lia.
  - intros H. exfalso. apply Hx, code_inj. exact H.
  - destruct (Ascii.eqb_spec x y) as [->|Hne].
    + intros H. f_equal. apply IH; assumption.
    + intros H. exfalso. apply Hne, code_inj. lia.
Qed.

(** X15.  On an [exten] line a priority that begins with anything but a
    digit, a sign, a parenthesis or whitespace is rejected as invalid
    unless it is exactly [n] or [hint]: so are [N], [next] and the
    labelled form [n(label)].  An empty priority, or one that begins with
    ['('], is rejected with the must-be->=-1 error. *)
Theorem other_priorities w :
  (forall c rest,
      Forall (fun x => x <> NUL) (c :: rest) ->
      isdigit c = false -> isspace c = false ->
      c <> "+" -> c <> "-" -> c <> "(" ->
      c :: rest <> lit "n" -> c :: rest <> lit "hint" ->
      validate_priority (c :: rest) w
      = (false, report_error (MInvalidPriority (c :: rest)) w))
  /\ validate_priority [] w = (false, report_error MPriorityTooLow w)
  /\ (forall rest,
         validate_priority ("(" :: rest) w
         = (false, report_error MPriorityTooLow w)).
Proof.
  split; [|split].
  - intros c rest Hnul Hd Hs Hp Hm Hpar Hn Hh.
    unfold validate_priority.
    assert (H1 : (strcmp (c :: rest) (lit "hint") =? 0) = false).
    { apply Z.eqb_neq. intros E. apply Hh.
      apply strcmp_zero; [exact Hnul | repeat constructor; discriminate
                         | exact E]. }
    assert (H2 : (strcmp (c :: rest) (lit "n") =? 0) = false).
    { apply Z.eqb_neq. intros E. apply Hn.
      apply strcmp_zero; [exact Hnul | repeat constructor; discriminate
                         | exact E]. }
    rewrite H1, H2. cbn [negb].
    assert (Hstrtol : strtol (c :: rest) = (0, O)).
    { unfold strtol. cbn [skip_space]. rewrite Hs. cbn [drop].
      apply Ascii.eqb_neq in Hm, Hp. rewrite Hm, Hp. cbn [drop digits].
      rewrite Hd. reflexivity. }
    rewrite Hstrtol. cbn [drop deref hd].
    assert (Hc : c <> NUL) by (inversion Hnul; assumption).
    apply Ascii.eqb_neq in Hc, Hpar. rewrite Hc, Hpar. reflexivity.
  - destruct w as [[e wn l c] ds]. reflexivity.
  - intros rest. unfold validate_priority.
    change (lit "hint") with ("h" :: lit "int"). change (lit "n") with ["n"].
    rewrite !strcmp_first by discriminate. reflexivity.
Qed.

(** [n(start)] on an [exten] line. *)
Lemma other_priorities_witness :
  validate_priority (lit "n(start)") initial_world
  = (false, report_error (MInvalidPriority (lit "n(start)")) initial_world).
Proof.
  apply (proj1 (other_priorities initial_world) "n" (lit "(start)"));
    try discriminate; try reflexivity.
  repeat constructor; discriminate.
Defined.

(** ** Lines before the first context *)

Lemma trimmed_buffer_split chunk :
  exists ws1 ws2,
    line_text chunk
    = ws1 ++ cstr (fst (trimmed_buffer chunk)) (snd (trimmed_buffer chunk))
          ++ ws2
    /\ blank ws1 /\ blank ws2.
Proof.
  unfold trimmed_buffer.
  set (m := match strchr (cstr (of_cstring chunk) O) NEWLINE with
            | Some newline => poke (of_cstring chunk) newline NUL
            | None => of_cstring chunk
            end).
  assert (Hm : cstr m O = line_text chunk) by apply cut_newline.
  clearbody m.
  destruct (trim_split m O) as (ws1 & ws2 & H & Hb1 & Hb2 & _).
  rewrite Hm in H. exists ws1, ws2. auto.
Qed.

Lemma contains_middle needle a s b :
  contains needle s -> contains needle (a ++ s ++ b).
Proof.
  intros (x & y & ->). exists (a ++ x), (y ++ b).
  rewrite <- !app_assoc. reflexivity.
Qed.

Lemma line_text_no_nul chunk : Forall (fun c => c <> NUL) (line_text chunk).
Proof.
  induction chunk as [|c chunk IH]; simpl; [constructor|].
  destruct (Ascii.eqb_spec c NUL); simpl; [constructor|].
  destruct (Ascii.eqb c NEWLINE); constructor; assumption.
Qed.

Lemma first_nonspace_nul s :
  Forall (fun c => c <> NUL) s -> first_nonspace s = NUL -> blank s.
Proof.
  intros Hs H. apply blank_drop_skip. unfold first_nonspace in H.
  destruct (drop (skip_space s) s) as [|c r] eqn:E; [reflexivity|].
  exfalso. simpl in H. subst c.
  assert (Hin : In NUL s).
  { rewrite <- (take_drop (skip_space s) s), E.
    apply in_or_app. right. left. reflexivity. }
  apply (proj1 (List.Forall_forall _ _) Hs) in Hin. congruence.
Qed.

(** X16.  Before the first context header, a line that holds an ['=']
    and no ["=>"] is taken as a setting and accepted without any check,
    whatever its first word is. *)
Theorem settings_are_accepted_unchecked chunk w :
  first_nonspace (line_text chunk) <> ";" ->
  first_nonspace (line_text chunk) <> "#" ->
  first_nonspace (line_text chunk) <> "[" ->
  In "=" (line_text chunk) ->
  ~ contains (lit "=>") (line_text chunk) ->
  validate_line chunk false w = (false, snd (incr_line_num w)).
Proof.
  intros Hsemi Hhash Hb Heq Hno.
  assert (Hc : is_comment_or_blank (line_text chunk) = false).
  { unfold is_comment_or_blank. fold (first_nonspace (line_text chunk)).
    apply Ascii.eqb_neq in Hsemi, Hhash. rewrite Hsemi, Hhash. cbn [orb].
    rewrite orb_false_r.
    apply Ascii.eqb_neq. intros Hn.
    apply first_nonspace_nul in Hn; [|apply line_text_no_nul].
    apply (proj1 (List.Forall_forall _ _) Hn) in Heq. discriminate Heq. }
  rewrite validate_line_dispatch, bind_run, Hc.
  pose proof (trimmed_first chunk) as Hf.
  destruct (trimmed_buffer_split chunk) as (ws1 & ws2 & Hs & Hb1 & Hb2).
  destruct (trimmed_buffer chunk) as [m trimmed]. cbn [fst snd] in *.
  assert (Hclass : classify false (cstr m trimmed) = GlobalAssignment).
  { unfold classify. rewrite Hf.
    apply Ascii.eqb_neq in Hb. rewrite Hb. cbn [negb andb].
    assert (H1 : found (strchr (cstr m trimmed) "=") = true).
    { apply found_strchr. rewrite Hs in Heq.
      apply in_app_or in Heq as [Hin|Hin].
      - apply (proj1 (List.Forall_forall _ _) Hb1) in Hin. discriminate Hin.
      - apply in_app_or in Hin as [Hin|Hin]; [exact Hin|].
        apply (proj1 (List.Forall_forall _ _) Hb2) in Hin. discriminate Hin. }
    assert (H2 : found (strstr (cstr m trimmed) (lit "=>")) = false).
    { destruct (found (strstr (cstr m trimmed) (lit "=>"))) eqn:E;
        [|reflexivity].
      exfalso. apply Hno. rewrite Hs.
      apply contains_middle, found_strstr, E. }
    rewrite H1, H2. reflexivity. }
  rewrite Hclass. reflexivity.
Qed.

(** A line that would be an extension with a missing arrow. *)
Lemma settings_are_accepted_unchecked_witness :
  In "=" (line_text (line "  exten = s,0,Dial(("))
  /\ validate_line (line "  exten = s,0,Dial((") false initial_world
     = (false, snd (incr_line_num initial_world)).
Proof.
  assert (Hin : In "=" (line_text (line "  exten = s,0,Dial((")))
    by (vm_compute; tauto).
  split; [exact Hin|].
  apply (settings_are_accepted_unchecked _ initial_world).
  - discriminate.
  - discriminate.
  - discriminate.
  - exact Hin.
  - intros Hc. apply found_strstr in Hc. discriminate Hc.
Defined.

(** ** A well-formed extension line *)

Lemma until_nul_app s b :
  Forall (fun c => c <> NUL) s -> until_nul (s ++ NUL :: b) = s.
Proof.
  induction 1 as [|c s Hc _ IH]; simpl; [reflexivity|].
  apply Ascii.eqb_neq in Hc. rewrite Hc, IH. reflexivity.
Qed.

(** The string that sits between offset [length a] and the next NUL. *)
Lemma cstr_middle (a s b : list ascii) :
  Forall (fun c => c <> NUL) s -> cstr (a ++ s ++ NUL :: b) (length a) = s.
Proof.
  intros Hs. unfold cstr. rewrite drop_app_length. apply until_nul_app, Hs.
Qed.

Lemma poke_middle (a b : list ascii) x y :
  poke (a ++ y :: b) (length a) x = a ++ x :: b.
Proof.
  unfold poke. induction a as [|c a IH]; simpl; [reflexivity|].
  f_equal. exact IH.
Qed.

Lemma trim_back_stop m str k :
  k = O \/ isspace (peek m (str + k)) = false ->
  trim_back m str k = (str + k)%nat.
Proof.
  destruct k as [|k]; simpl; [intros _; lia|].
  intros [H|H]; [discriminate|]. rewrite H. reflexivity.
Qed.

(** [trim] on a field that has whitespace before it only: the buffer is
    left as it is. *)
Lemma trim_field (a ws s b : list ascii) c r r' c' :
  blank ws -> Forall (fun x => x <> NUL) s ->
  s = c :: r -> isspace c = false ->
  s = r' ++ [c'] -> isspace c' = false ->
  trim (a ++ ws ++ s ++ NUL :: b) (length a)
  = (a ++ ws ++ s ++ NUL :: b, (length a + length ws)%nat).
Proof.
  intros Hws Hs Hhead Hc Hlast Hc'.
  set (m := a ++ ws ++ s ++ NUL :: b).
  assert (Hcs : cstr m (length a) = ws ++ s).
  { unfold m. rewrite (app_assoc ws s). apply cstr_middle.
    apply Forall_app. split; [|exact Hs].
    eapply Forall_impl; [exact Hws|]. intros x Hx ->. discriminate Hx. }
  assert (Hskip : skip_space (ws ++ s) = length ws)
    by (rewrite Hhead; apply skip_space_app; assumption).
  unfold trim. rewrite Hcs, Hskip.
  assert (Hs1 : cstr m (length a + length ws) = s).
  { rewrite cstr_add by (rewrite Hcs, length_app; lia).
    rewrite Hcs, drop_app_length. reflexivity. }
  assert (Hpk : peek m (length a + length ws) = c).
  { rewrite peek_cstr by (rewrite Hcs, length_app; lia).
    rewrite Hcs, drop_app_length, Hhead. reflexivity. }
  assert (Hcn : c <> NUL)
    by (rewrite Hhead in Hs; inversion Hs; assumption).
  apply Ascii.eqb_neq in Hcn. rewrite Hpk, Hcn, Hs1. unfold strlen.
  assert (Hlen : length s = S (length r'))
    by (rewrite Hlast, length_app; simpl; lia).
  rewrite trim_back_stop.
  2:{ right. rewrite (peek_lookup m _ (length s - 1) c'); [exact Hc'|].
      rewrite Hs1, Hlen. simpl. rewrite Nat.sub_0_r, Hlast.
      apply list_lookup_middle. reflexivity. }
  f_equal. unfold poke. apply list_insert_id.
  unfold m. rewrite !app_assoc.
  apply list_lookup_middle. rewrite !length_app. lia.
Qed.

Lemma find_commas_plain s rest :
  Forall field_char s ->
  forall p pa br c1,
    find_commas (s ++ rest) p pa br c1
    = find_commas rest (p + length s) pa br c1.
Proof.
  induction 1 as [|c s (_ & _ & H1 & H2 & H3 & H4 & H5) _ IH];
    intros p pa br c1.
  - rewrite Nat.add_0_r. reflexivity.
  - cbn [app find_commas length].
    apply Ascii.eqb_neq in H1, H2, H3, H4, H5.
    rewrite H1, H2, H3, H4, H5. cbn [andb].
    rewrite IH. f_equal. lia.
Qed.

Lemma find_commas_fields P pri A p :
  Forall field_char P -> Forall field_char pri ->
  find_commas (P ++ "," :: pri ++ "," :: A) p 0 0 None
  = (Some (p + length P)%nat, Some (p + length P + 1 + length pri)%nat).
Proof.
  intros HP Hpri.
  rewrite find_commas_plain by exact HP. cbn [find_commas].
  simpl Ascii.eqb. cbn [andb Z.eqb].
  rewrite find_commas_plain by exact Hpri. cbn [find_commas].
  simpl Ascii.eqb. cbn [andb Z.eqb].
  repeat f_equal; lia.
Qed.

Lemma plain_priority_chars s : plain_priority s -> Forall field_char s.
Proof.
  intros [->|[->|(_ & Hd & _)]].
  - repeat constructor; discriminate.
  - repeat constructor; discriminate.
  - eapply Forall_impl; [exact Hd|]. intros c Hc.
    destruct c as [[] [] [] [] [] [] [] []]; vm_compute in Hc;
      try discriminate Hc; repeat split; discriminate.
Qed.

Lemma plain_priority_valid s w :
  plain_priority s -> validate_priority s w = (true, w).
Proof.
  intros [->|[->|(Hne & Hd & Hnz)]].
  - destruct w as [[e wn l c] ds]. reflexivity.
  - destruct w as [[e wn l c] ds]. reflexivity.
  - pose proof (numeric_priority_run s [] w Hne Hd (or_introl eq_refl))
      as [H _].
    rewrite app_nil_r in H. apply H, Hnz.
Qed.

Lemma ends_of_nonempty (s : cstring) :
  s <> [] ->
  (exists c r, s = c :: r) /\ (exists r' c', s = r' ++ [c']).
Proof.
  intros H. split.
  - destruct s as [|c r]; [contradiction|]. eauto.
  - destruct s as [|c' r'] using rev_ind; [contradiction|]. eauto.
Qed.

Lemma trim_empty (a b : list ascii) :
  trim (a ++ NUL :: b) (length a) = (a ++ NUL :: b, length a).
Proof.
  unfold trim.
  assert (H : cstr (a ++ NUL :: b) (length a) = [])
    by exact (cstr_middle a [] b (List.Forall_nil _)).
  rewrite H. simpl skip_space.
  rewrite (peek_cstr _ _ 0), H by (rewrite H; simpl; lia).
  rewrite Nat.add_0_r. reflexivity.
Qed.

Lemma cstr_at (m : list ascii) p a s b :
  m = a ++ s ++ NUL :: b -> p = length a ->
  Forall (fun c => c <> NUL) s -> cstr m p = s.
Proof. intros -> ->. apply cstr_middle. Qed.

(** [trim] on a field without whitespace at its ends writes the NUL that
    is already there. *)
Lemma trim_field_at (m : list ascii) p a s b :
  m = a ++ s ++ NUL :: b -> p = length a ->
  Forall (fun c => c <> NUL) s ->
  (forall c, head s = Some c -> isspace c = false) ->
  (forall c, last s = Some c -> isspace c = false) ->
  trim m p = (m, p).
Proof.
  intros -> -> Hs Hh Hl.
  destruct s as [|c r]; [apply trim_empty|].
  destruct (proj2 (ends_of_nonempty (c :: r) ltac:(discriminate)))
    as (r' & c' & E).
  pose proof (trim_field a [] (c :: r) b c r r' c' (List.Forall_nil _) Hs
                eq_refl (Hh c eq_refl) E) as H.
  rewrite Nat.add_0_r in H. apply H.
  apply Hl. rewrite E. apply last_snoc.
Qed.

Lemma field_ends s :
  Forall field_char s ->
  (forall c, head s = Some c -> isspace c = false)
  /\ (forall c, last s = Some c -> isspace c = false).
Proof.
  intros H. rewrite Forall_forall in H. split; intros c Hc.
  - apply head_Some_elem_of in Hc. apply (H c Hc).
  - apply last_Some_elem_of in Hc. apply (H c Hc).
Qed.

(** X17.  An [exten] line whose pattern and priority are plain fields
    (no whitespace, comma, parenthesis or bracket; the priority [n],
    [hint] or a positive number) and whose application has no whitespace
    at its ends is accepted when the application has no ["("] or has
    matched delimiters.  The only diagnostics are those of the variable
    check on the pattern: by then the first comma has been overwritten,
    so the priority and the application are not examined for variable
    references. *)
Theorem plain_extension_is_accepted P pri A w :
  P <> [] -> Forall field_char P -> plain_priority pri ->
  Forall (fun c => c <> NUL) A ->
  (forall c, head A = Some c -> isspace c = false) ->
  (forall c, last A = Some c -> isspace c = false) ->
  (In "(" A -> balanced_text A) ->
  parse_extension
    (of_cstring (lit "exten => " ++ P ++ "," :: pri ++ "," :: A)) 0 w
  = (true, snd (check_variable_syntax P w)).
Proof.
  intros HPne HP Hpri HA Hh Hl Hbal.
  pose proof (plain_priority_chars _ Hpri) as Hpc.
  assert (Hprine : pri <> [])
    by (destruct Hpri as [->|[->|[? _]]];
        [discriminate|discriminate|assumption]).
  assert (HPn : Forall (fun c => c <> NUL) P)
    by (eapply Forall_impl; [exact HP|]; intros c Hc; apply Hc).
  assert (Hpn : Forall (fun c => c <> NUL) pri)
    by (eapply Forall_impl; [exact Hpc|]; intros c Hc; apply Hc).
  remember (P ++ "," :: pri ++ "," :: A) as DD eqn:EDD.
  assert (HDD : Forall (fun c => c <> NUL) DD).
  { subst DD. apply Forall_app. split; [exact HPn|].
    constructor; [discriminate|]. apply Forall_app. split; [exact Hpn|].
    constructor; [discriminate|exact HA]. }
  remember (of_cstring (lit "exten => " ++ DD)) as m0 eqn:Em0.
  assert (Hline : cstr m0 0 = lit "exten => " ++ DD).
  { subst m0. apply (cstr_middle [] (lit "exten => " ++ DD) []).
    apply Forall_app. split; [|exact HDD].
    repeat constructor; discriminate. }
  unfold parse_extension. rewrite Hline.
  change (strstr (lit "exten => " ++ DD) (lit "=>")) with (Some 6%nat).
  cbv beta iota zeta.
  change (skip_space (lit "exten => " ++ DD)) with 0%nat.
  change (0 + 0)%nat with 0%nat. rewrite Hline.
  change (strncasecmp (lit "exten => " ++ DD) (lit "exten") 5) with 0.
  change (0 =? 0) with true. cbn [negb andb].
  assert (HPh : exists c r, P = c :: r /\ isspace c = false).
  { destruct P as [|c r]; [contradiction|]. exists c, r.
    split; [reflexivity|]. inversion HP as [|? ? Hc _]. apply Hc. }
  destruct HPh as (cP & rP & EP & HcP).
  assert (HDl : exists r c, DD = r ++ [c] /\ isspace c = false).
  { destruct A as [|x A' _] using rev_ind.
    - exists (P ++ "," :: pri), ",". split; [|reflexivity].
      rewrite EDD, <- ?app_assoc. reflexivity.
    - exists (P ++ "," :: pri ++ "," :: A'), x. split.
      + rewrite EDD, <- ?app_assoc. simpl. rewrite <- ?app_assoc.
        reflexivity.
      + apply Hl. apply last_snoc. }
  destruct HDl as (rD & cD & ED & HcD).
  assert (Ht0 : trim m0 (0 + 6 + 2) = (m0, 9%nat)).
  { rewrite Em0.
    refine (trim_field (lit "exten =>") [" "] DD [] cP
              (rP ++ "," :: pri ++ "," :: A) rD cD _ HDD _ HcP ED HcD).
    - repeat constructor.
    - rewrite EDD, EP. reflexivity. }
  rewrite Ht0.
  assert (Hd : cstr m0 9 = DD)
    by (rewrite Em0; exact (cstr_middle (lit "exten => ") DD [] HDD)).
  rewrite Hd.
  assert (Hfc : find_commas DD 9 0 0 None
                = (Some (9 + length P)%nat,
                   Some (9 + length P + 1 + length pri)%nat))
    by (rewrite EDD; apply find_commas_fields; assumption).
  rewrite Hfc.
  remember (lit "exten => " ++ P ++ NUL :: pri ++ NUL :: A ++ [NUL])
    as m2 eqn:Em2.
  assert (Hm2 : poke (poke m0 (9 + length P) NUL)
                  (9 + length P + 1 + length pri) NUL = m2).
  { rewrite Em0, EDD, Em2. unfold of_cstring.
    replace ((lit "exten => " ++ P ++ "," :: pri ++ "," :: A) ++ [NUL])
      with ((lit "exten => " ++ P) ++ "," :: pri ++ "," :: A ++ [NUL])
      by (rewrite <- ?app_assoc; simpl; rewrite <- ?app_assoc;
          reflexivity).
    replace (9 + length P)%nat with (length (lit "exten => " ++ P))
      by (rewrite length_app; reflexivity).
    rewrite poke_middle.
    replace ((lit "exten => " ++ P) ++ NUL :: pri ++ "," :: A ++ [NUL])
      with ((lit "exten => " ++ P ++ NUL :: pri) ++ "," :: A ++ [NUL])
      by (rewrite <- ?app_assoc; simpl; rewrite <- ?app_assoc;
          reflexivity).
    replace (length (lit "exten => " ++ P) + 1 + length pri)%nat
      with (length (lit "exten => " ++ P ++ NUL :: pri))
      by (rewrite ?length_app; simpl; rewrite ?length_app; simpl; lia).
    rewrite poke_middle. rewrite <- ?app_assoc. simpl.
    rewrite <- ?app_assoc. reflexivity. }
  rewrite Hm2.
  assert (Ht1 : trim m2 (9 + length P + 1) = (m2, (9 + length P + 1)%nat)).
  { apply (trim_field_at _ _ (lit "exten => " ++ P ++ [NUL]) pri
             (A ++ [NUL])); try apply field_ends; try assumption.
    - rewrite Em2, <- ?app_assoc. simpl. rewrite <- ?app_assoc.
      reflexivity.
    - rewrite ?length_app. simpl. lia. }
  assert (Ht2 : trim m2 (9 + length P + 1 + length pri + 1)
                = (m2, (9 + length P + 1 + length pri + 1)%nat)).
  { apply (trim_field_at _ _ (lit "exten => " ++ P ++ NUL :: pri ++ [NUL])
             A []); try assumption.
    - rewrite Em2, <- ?app_assoc. simpl. rewrite <- ?app_assoc.
      simpl. rewrite <- ?app_assoc. reflexivity.
    - rewrite ?length_app. simpl. rewrite ?length_app. simpl. lia. }
  assert (Ht3 : trim m2 9 = (m2, 9%nat)).
  { apply (trim_field_at _ _ (lit "exten => ") P
             (pri ++ NUL :: A ++ [NUL])); try apply field_ends;
      try assumption; reflexivity. }
  rewrite Ht1, Ht2, Ht3.
  assert (Hs1 : cstr m2 (9 + length P + 1) = pri).
  { apply (cstr_at _ _ (lit "exten => " ++ P ++ [NUL]) pri (A ++ [NUL]));
      try assumption.
    - rewrite Em2, <- ?app_assoc. simpl. rewrite <- ?app_assoc.
      reflexivity.
    - rewrite ?length_app. simpl. lia. }
  assert (Hs2 : cstr m2 (9 + length P + 1 + length pri + 1) = A).
  { apply (cstr_at _ _ (lit "exten => " ++ P ++ NUL :: pri ++ [NUL]) A []);
      try assumption.
    - rewrite Em2, <- ?app_assoc. simpl. rewrite <- ?app_assoc.
      simpl. rewrite <- ?app_assoc. reflexivity.
    - rewrite ?length_app. simpl. rewrite ?length_app. simpl. lia. }
  assert (Hs3 : cstr m2 9 = P).
  { apply (cstr_at _ _ (lit "exten => ") P (pri ++ NUL :: A ++ [NUL]));
      try assumption; reflexivity. }
  rewrite Hs1, Hs2, Hs3.
  rewrite bind_run, (plain_priority_valid pri w Hpri). cbn [fst snd negb].
  assert (Happ : (if (0 <? strlen A)%nat
                  then match strchr A "(" with
                       | Some _ => check_balanced A
                       | None => ret true
                       end
                  else ret true) w = (true, w)).
  { destruct (0 <? strlen A)%nat; [|reflexivity].
    destruct (strchr A "(") eqn:E; [|reflexivity].
    apply (proj2 (check_balanced_accepts A w)). apply Hbal.
    apply found_strchr. rewrite E. reflexivity. }
  rewrite bind_run, Happ. cbn [fst snd negb].
  rewrite bind_run. reflexivity.
Qed.

(** An unclosed reference in the application goes unreported. *)
Lemma plain_extension_is_accepted_witness :
  parse_extension (of_cstring (lit "exten => 100,1,Answer ${X")) 0
    initial_world
  = (true, initial_world).
Proof.
  refine (eq_trans
            (plain_extension_is_accepted (lit "100") (lit "1")
               (lit "Answer ${X") initial_world _ _ _ _ _ _ _) _).
  - discriminate.
  - repeat (constructor; [repeat split; (discriminate || reflexivity)|]).
    constructor.
  - right. right. split; [discriminate|]. split.
    + repeat constructor.
    + left. discriminate.
  - repeat (constructor; [discriminate|]). constructor.
  - intros c [= <-]. reflexivity.
  - intros c [= <-]. reflexivity.
  - simpl. intuition discriminate.
  - unfold check_variable_syntax. rewrite variable_loop_step. reflexivity.
Defined.

(** * Whole lines and whole runs *)

(** ** Pointers into a buffer that is cut by NULs *)

Lemma until_nul_insert_any (l : list ascii) :
  forall e, until_nul (<[e := NUL]> l) = take e (until_nul l).
Proof.
  induction l as [|c l IH]; intros [|e]; simpl; try reflexivity.
  destruct (Ascii.eqb c NUL); [reflexivity|]. simpl. rewrite IH.
  reflexivity.
Qed.

(** What a pointer [p] sees after [*q = 0]. *)
Lemma cstr_poke_nul (m : list ascii) q p :
  cstr (poke m q NUL) p
  = if (q <? p)%nat then cstr m p else take (q - p) (cstr m p).
Proof.
  unfold cstr, poke. destruct (q <? p)%nat eqn:E.
  - apply Nat.ltb_lt in E. rewrite drop_insert_lt by lia. reflexivity.
  - apply Nat.ltb_ge in E. rewrite drop_insert_ge by lia.
    apply until_nul_insert_any.
Qed.

Lemma poke_peek_id (m : list ascii) q : peek m q = NUL -> poke m q NUL = m.
Proof.
  unfold peek, poke. intros H.
  destruct (m !! q) as [c|] eqn:E; simpl in H.
  - subst c. apply list_insert_id, E.
  - apply list_insert_ge. apply lookup_ge_None, E.
Qed.

Lemma cstr_nil_peek m p : cstr m p = [] <-> peek m p = NUL.
Proof.
  pose proof (peek_cstr m p 0 ltac:(lia)) as H.
  rewrite Nat.add_0_r in H. simpl in H. rewrite H.
  pose proof (until_nul_no_nul (drop p m)) as Hn. fold (cstr m p) in Hn.
  destruct (cstr m p) as [|c s]; simpl; [tauto|].
  split; [discriminate|]. intros ->. inversion Hn as [|? ? Hc _].
  contradiction.
Qed.

(** ** [strip] and [trim] *)

Lemma rstrip_blank ws : blank ws -> rstrip ws = [].
Proof.
  induction 1 as [|c ws Hc _ IH]; simpl; [reflexivity|].
  rewrite IH, Hc. reflexivity.
Qed.

Lemma rstrip_snoc r c ws :
  isspace c = false -> blank ws -> rstrip (r ++ c :: ws) = r ++ [c].
Proof.
  intros Hc Hws. induction r as [|x r IH]; simpl.
  - rewrite (rstrip_blank ws Hws), Hc. reflexivity.
  - rewrite IH. destruct r; reflexivity.
Qed.

(** [strip] finds the one way of writing a string as whitespace, a text
    with no whitespace at its ends, and whitespace. *)
Lemma strip_unique ws1 r ws2 :
  blank ws1 -> blank ws2 ->
  (forall c, head r = Some c -> isspace c = false) ->
  (forall c, last r = Some c -> isspace c = false) ->
  strip (ws1 ++ r ++ ws2) = r
  /\ (r <> [] -> skip_space (ws1 ++ r ++ ws2) = length ws1).
Proof.
  intros H1 H2 Hh Hl. unfold strip.
  destruct r as [|c r0].
  - split; [|congruence]. apply rstrip_blank. apply blank_drop.
    apply Forall_app. split; assumption.
  - assert (Hs : skip_space (ws1 ++ (c :: r0) ++ ws2) = length ws1)
      by (apply (skip_space_app ws1 c (r0 ++ ws2) H1), Hh; reflexivity).
    split; [|intros _; exact Hs].
    rewrite Hs, drop_app_length.
    destruct (proj2 (ends_of_nonempty (c :: r0) ltac:(discriminate)))
      as (r' & c' & E).
    rewrite E, <- app_assoc. apply rstrip_snoc; [|exact H2].
    apply Hl. rewrite E. apply last_snoc.
Qed.

(** [trim] in terms of [strip]: the returned pointer skips the leading
    whitespace, the string there is the stripped text, and the one write
    puts the NUL after it. *)
Lemma trim_strip m p :
  let s := cstr m p in
  trim m p
  = (poke m (p + skip_space s + length (strip s)) NUL,
     (p + skip_space s)%nat)
  /\ cstr (fst (trim m p)) (snd (trim m p)) = strip s.
Proof.
  intros s.
  destruct (trim_split m p)
    as (ws1 & ws2 & E & H1 & H2 & Hp & Hh & Hl).
  fold s in E.
  assert (Hst : strip s = cstr (fst (trim m p)) (snd (trim m p)))
    by (rewrite E; apply strip_unique; assumption).
  split; [|symmetry; exact Hst].
  pose proof (proj1 (trim_spec m p)) as Hsnd. cbv zeta in Hsnd. fold s in Hsnd.
  rewrite Hst. clear E H1 H2 Hp Hh Hl Hst ws1 ws2.
  revert Hsnd. unfold trim. fold s.
  set (str := (p + skip_space s)%nat).
  destruct (Ascii.eqb (peek m str) NUL) eqn:En; cbn [fst snd]; intros _.
  - apply Ascii.eqb_eq in En.
    rewrite (proj2 (cstr_nil_peek m str) En). simpl. rewrite Nat.add_0_r.
    rewrite (poke_peek_id m str En). reflexivity.
  - set (e := trim_back m str (strlen (cstr m str) - 1)).
    pose proof (trim_back_bounds m str (strlen (cstr m str) - 1)) as Hb.
    fold e in Hb. unfold strlen in Hb.
    assert (Hne : cstr m str <> []).
    { intros Hnil. apply cstr_nil_peek in Hnil. rewrite Hnil in En.
      discriminate En. }
    assert (Hlen : (0 < length (cstr m str))%nat)
      by (destruct (cstr m str); [contradiction | simpl; lia]).
    replace (e + 1)%nat with (str + (e + 1 - str))%nat by lia.
    rewrite cstr_poke by lia. rewrite length_take.
    f_equal. f_equal. lia.
Qed.

Lemma strip_bounds s : (skip_space s + length (strip s) <= length s)%nat.
Proof.
  unfold strip. pose proof (skip_space_le s) as H.
  assert (Hr : forall t, (length (rstrip t) <= length t)%nat).
  { induction t as [|c t IH]; simpl; [lia|].
    destruct (rstrip t); [destruct (isspace c)|]; simpl in *; lia. }
  specialize (Hr (drop (skip_space s) s)). rewrite length_drop in Hr. lia.
Qed.

Lemma rstrip_prefix t : exists ws, t = rstrip t ++ ws /\ blank ws.
Proof.
  induction t as [|c t (ws & E & Hws)]; simpl.
  - exists []. split; [reflexivity | constructor].
  - destruct (rstrip t) as [|x r] eqn:Er.
    + destruct (isspace c) eqn:Ec.
      * exists (c :: ws). simpl in E. rewrite E at 1.
        split; [reflexivity | constructor; assumption].
      * exists ws. simpl in *. rewrite E at 1. split; [reflexivity|exact Hws].
    + exists ws. rewrite E at 1. split; [reflexivity|exact Hws].
Qed.

(** The stripped text is where [strip] says: after the leading
    whitespace. *)
Lemma strip_take s :
  strip s = take (length (strip s)) (drop (skip_space s) s).
Proof.
  unfold strip. destruct (rstrip_prefix (drop (skip_space s) s)) as (ws & E & _).
  rewrite E at 3. rewrite take_app_length. reflexivity.
Qed.

Lemma strip_nonspace_head c s :
  isspace c = false -> skip_space (c :: s) = 0%nat.
Proof. intros H. simpl. rewrite H. reflexivity. Qed.

(** ** An extension line, field by field *)

Lemma strstr_arrow kw D :
  ~ contains (lit "=>") kw ->
  strstr (kw ++ lit "=>" ++ D) (lit "=>") = Some (length kw).
Proof.
  induction kw as [|c kw IH]; intros Hn; [reflexivity|].
  cbn [app length strstr].
  assert (Hp : is_prefix (lit "=>") (c :: kw ++ lit "=>" ++ D) = false).
  { destruct (is_prefix (lit "=>") (c :: kw ++ lit "=>" ++ D)) eqn:E;
      [|reflexivity].
    exfalso. apply is_prefix_spec in E as [b E].
    destruct kw as [|c' kw]; [discriminate E|].
    injection E as -> -> _. apply Hn. exists [], kw. reflexivity. }
  rewrite Hp, IH; [reflexivity|].
  intros (a & b & E). apply Hn. exists (c :: a), b. rewrite E. reflexivity.
Qed.

(** The comma scan passes over text that has no comma outside parentheses
    and brackets, keeping count of the open ones. *)
Lemma find_commas_skip s rest :
  forall p pa br c1,
    (forall a b, s = a ++ "," :: b ->
                 pa + net Paren a <> 0 \/ br + net Bracket a <> 0) ->
    find_commas (s ++ rest) p pa br c1
    = find_commas rest (p + length s) (pa + net Paren s)
        (br + net Bracket s) c1.
Proof.
  induction s as [|c s IH]; intros p pa br c1 H.
  - rewrite !net_nil, !Z.add_0_r, Nat.add_0_r. reflexivity.
  - assert (Hstep : forall a b, s = a ++ "," :: b ->
               pa + ((if Ascii.eqb c "(" then 1 else 0)
                     - (if Ascii.eqb c ")" then 1 else 0) + net Paren a) <> 0
               \/ br + ((if Ascii.eqb c "[" then 1 else 0)
                        - (if Ascii.eqb c "]" then 1 else 0)
                        + net Bracket a) <> 0).
    { intros a b E.
      pose proof (H (c :: a) b ltac:(rewrite E; reflexivity)) as Hx.
      rewrite !net_cons in Hx. exact Hx. }
    assert (Hhere : Ascii.eqb c "," = true -> pa <> 0 \/ br <> 0).
    { intros Ec. apply Ascii.eqb_eq in Ec. subst c.
      specialize (H [] s eq_refl). rewrite !net_nil, !Z.add_0_r in H.
      exact H. }
    clear H. rewrite !(net_cons _ c s).
    cbn [app find_commas length opener closer] in *.
    replace (p + S (length s))%nat with (S p + length s)%nat by lia.
    destruct (Ascii.eqb c "(") eqn:E1.
    { apply Ascii.eqb_eq in E1. subst c. simpl in Hstep.
      rewrite IH by (intros a b E; specialize (Hstep a b E); lia).
      simpl. f_equal; lia. }
    destruct (Ascii.eqb c ")") eqn:E2.
    { apply Ascii.eqb_eq in E2. subst c. simpl in Hstep.
      rewrite IH by (intros a b E; specialize (Hstep a b E); lia).
      simpl. f_equal; lia. }
    destruct (Ascii.eqb c "[") eqn:E3.
    { apply Ascii.eqb_eq in E3. subst c. simpl in Hstep.
      rewrite IH by (intros a b E; specialize (Hstep a b E); lia).
      simpl. f_equal; lia. }
    destruct (Ascii.eqb c "]") eqn:E4.
    { apply Ascii.eqb_eq in E4. subst c. simpl in Hstep.
      rewrite IH by (intros a b E; specialize (Hstep a b E); lia).
      simpl. f_equal; lia. }
    assert (Hc : (Ascii.eqb c "," && (pa =? 0) && (br =? 0)) = false).
    { destruct (Ascii.eqb c ","); [|reflexivity].
      destruct (Hhere eq_refl) as [Hz|Hz]; apply Z.eqb_neq in Hz;
        rewrite Hz, ?andb_false_r; reflexivity. }
    rewrite Hc.
    rewrite IH by (intros a b E; specialize (Hstep a b E); lia).
    f_equal; lia.
Qed.

Lemma find_commas_three Pf Ff Af p :
  top_level_field Pf -> top_level_field Ff ->
  find_commas (Pf ++ "," :: Ff ++ "," :: Af) p 0 0 None
  = (Some (p + length Pf)%nat, Some (p + length Pf + 1 + length Ff)%nat).
Proof.
  intros (P1 & P2 & P3) (F1 & F2 & F3).
  rewrite find_commas_skip by (intros a b E; apply (P3 a b E)).
  rewrite P1, P2. cbn [find_commas]. simpl Ascii.eqb. cbn [andb Z.eqb Z.add].
  rewrite find_commas_skip by (intros a b E; apply (F3 a b E)).
  rewrite F1, F2. cbn [find_commas]. simpl Ascii.eqb. cbn [andb Z.eqb Z.add].
  repeat f_equal; lia.
Qed.

Lemma drop_app_at (a b : list ascii) n : n = length a -> drop n (a ++ b) = b.
Proof. intros ->. apply drop_app_length. Qed.

Lemma take_app_at (a b : list ascii) n : n = length a -> take n (a ++ b) = a.
Proof. intros ->. apply take_app_length. Qed.

Lemma strip_head s c : head (strip s) = Some c -> isspace c = false.
Proof.
  unfold strip. intros H.
  destruct (rstrip_prefix (drop (skip_space s) s)) as (ws & E & _).
  pose proof (skip_space_stops s) as Hs. rewrite E in Hs.
  destruct (rstrip (drop (skip_space s) s)); [discriminate H|].
  injection H as ->. exact Hs.
Qed.

(** Settles every test [a <? b] on offsets that arithmetic decides. *)
Ltac offsets :=
  repeat match goal with
    | |- context [(?a <? ?b)%nat] =>
        first
          [ replace (a <? b)%nat with true
              by (symmetry; apply Nat.ltb_lt; lia)
          | replace (a <? b)%nat with false
              by (symmetry; apply Nat.ltb_ge; lia) ]
    end.

(** [parse_extension] from [data = trim(arrow + 2)] on, for a line with
    three fields: the priority block sees the stripped second field, the
    application check the stripped third one, and the variable check the
    stripped first one, which is what is left at [data] once the first
    comma is overwritten. *)
Lemma extension_body m line w kw D Pf Ff Af (is_same : bool) :
  cstr m line = kw ++ lit "=>" ++ D ->
  strip D = Pf ++ "," :: Ff ++ "," :: Af ->
  top_level_field Pf -> top_level_field Ff ->
  (let '(m, data) := trim m (line + length kw + 2) in
   let pattern := data in
   match find_commas (cstr m data) data 0 0 None with
   | (Some comma1, Some comma2) =>
       let m := poke m comma1 NUL in
       let m := poke m comma2 NUL in
       let '(m, priority_str) := trim m (comma1 + 1) in
       let '(m, app) := trim m (comma2 + 1) in
       let '(m, pattern) := trim m pattern in
       let* ok := (if negb is_same
                   then validate_priority (cstr m priority_str)
                   else ret true) in
       if negb ok then ret false
       else
         let* ok := (if (0 <? strlen (cstr m app))%nat then
                       match strchr (cstr m app) "(" with
                       | Some _ => check_balanced (cstr m app)
                       | None => ret true
                       end
                     else ret true) in
         if negb ok then ret false
         else
           let* _ := check_variable_syntax (cstr m data) in
           ret true
   | _ =>
       let* _ := emit MExtensionFormat in
       let* _ := incr_errors in ret false
   end) w
  = (let* ok := (if negb is_same
                 then validate_priority (strip Ff)
                 else ret true) in
     if negb ok then ret false
     else extension_tail (strip Af) (strip Pf)) w.
Proof.
  intros ET ED HP HF.
  assert (HD : cstr m (line + length kw + 2) = D).
  { rewrite <- Nat.add_assoc, cstr_add, ET
      by (rewrite ET, !length_app; simpl; lia).
    rewrite app_assoc. apply drop_app_at. rewrite length_app. reflexivity. }
  destruct (trim_strip m (line + length kw + 2)) as [Ht0 Hs0].
  cbv zeta in Ht0, Hs0. rewrite HD in Ht0, Hs0. rewrite Ht0 in Hs0 |- *.
  cbn [fst snd] in Hs0.
  remember (line + length kw + 2 + skip_space D)%nat as d eqn:Ed.
  remember (poke m (d + length (strip D)) NUL) as m1 eqn:Em1.
  cbv beta iota zeta. rewrite Hs0, ED.
  rewrite (find_commas_three Pf Ff Af d HP HF).
  remember (d + length Pf)%nat as c1 eqn:Ec1.
  remember (c1 + 1 + length Ff)%nat as c2 eqn:Ec2.
  rewrite ED in Hs0.
  pose proof (strip_bounds Pf) as BP. pose proof (strip_bounds Ff) as BF.
  pose proof (strip_bounds Af) as BA.
  assert (A1 : cstr m1 (c1 + 1) = Ff ++ "," :: Af).
  { rewrite Ec1, <- Nat.add_assoc, cstr_add, Hs0
      by (rewrite Hs0, !length_app; simpl; lia).
    change (Pf ++ "," :: Ff ++ "," :: Af)
      with (Pf ++ [","] ++ Ff ++ "," :: Af).
    rewrite app_assoc. apply drop_app_at. rewrite length_app. reflexivity. }
  assert (A2 : cstr m1 (c2 + 1) = Af).
  { rewrite Ec2, Ec1.
    replace (d + length Pf + 1 + length Ff + 1)%nat
      with (d + (length Pf + 1 + length Ff + 1))%nat by lia.
    rewrite cstr_add, Hs0
      by (rewrite Hs0, !length_app; simpl; rewrite length_app; simpl; lia).
    change (Pf ++ "," :: Ff ++ "," :: Af)
      with (Pf ++ [","] ++ Ff ++ [","] ++ Af).
    rewrite !app_assoc. apply drop_app_at. rewrite !length_app. simpl. lia. }
  assert (HF3 : cstr (poke (poke m1 c1 NUL) c2 NUL) (c1 + 1) = Ff).
  { rewrite !cstr_poke_nul. offsets. rewrite A1.
    apply take_app_at. lia. }
  destruct (trim_strip (poke (poke m1 c1 NUL) c2 NUL) (c1 + 1)) as [Ht1 Hs1].
  cbv zeta in Ht1, Hs1. rewrite HF3 in Ht1, Hs1. rewrite Ht1 in Hs1 |- *.
  cbn [fst snd] in Hs1.
  remember (c1 + 1 + skip_space Ff)%nat as ps eqn:Eps.
  remember (poke (poke (poke m1 c1 NUL) c2 NUL) (ps + length (strip Ff)) NUL)
    as m4 eqn:Em4.
  assert (HA4 : cstr m4 (c2 + 1) = Af).
  { rewrite Em4, !cstr_poke_nul. offsets. exact A2. }
  destruct (trim_strip m4 (c2 + 1)) as [Ht2 Hs2].
  cbv zeta in Ht2, Hs2. rewrite HA4 in Ht2, Hs2. rewrite Ht2 in Hs2 |- *.
  cbn [fst snd] in Hs2.
  remember (c2 + 1 + skip_space Af)%nat as app eqn:Eapp.
  remember (poke m4 (app + length (strip Af)) NUL) as m5 eqn:Em5.
  assert (HP5 : cstr m5 d = Pf).
  { rewrite Em5, Em4, !cstr_poke_nul. offsets. rewrite Hs0, !take_take.
    apply take_app_at. lia. }
  destruct (trim_strip m5 d) as [Ht3 Hs3].
  cbv zeta in Ht3, Hs3. rewrite HP5 in Ht3, Hs3. rewrite Ht3 in Hs3 |- *.
  cbn [fst snd] in Hs3.
  assert (HskP : skip_space Pf = 0%nat).
  { destruct Pf as [|c Pf']; [reflexivity|].
    apply strip_nonspace_head. apply (strip_head D). rewrite ED.
    reflexivity. }
  rewrite HskP, Nat.add_0_r in Hs3 |- *.
  remember (poke m5 (d + length (strip Pf)) NUL) as m6 eqn:Em6.
  assert (Hpri : cstr m6 ps = strip Ff).
  { rewrite Em6, Em5, !cstr_poke_nul. offsets. rewrite Hs1.
    apply take_ge. lia. }
  assert (Happ : cstr m6 app = strip Af).
  { rewrite Em6, !cstr_poke_nul. offsets. exact Hs2. }
  cbv beta iota zeta. rewrite Hpri, Happ, Hs3. reflexivity.
Qed.

(** [parse_extension] on a line with three fields: on an [exten] line the
    priority block runs on the stripped second field; on a [same] line it
    does not run. *)
Lemma parse_extension_fields m line w Pf Ff Af :
  extension_fields (cstr m line) Pf Ff Af ->
  (keyword_is "exten" (cstr m line) ->
   parse_extension m line w
   = (let* ok := validate_priority (strip Ff) in
      if negb ok then ret false
      else extension_tail (strip Af) (strip Pf)) w)
  /\ (keyword_is "same" (cstr m line) ->
      parse_extension m line w = extension_tail (strip Af) (strip Pf) w).
Proof.
  intros (kw & D & ET & Hkw & ED & HP & HF).
  pose proof (extension_body m line w kw D Pf Ff Af) as Hbody.
  assert (Harrow : strstr (cstr m line) (lit "=>") = Some (length kw))
    by (rewrite ET; apply strstr_arrow, Hkw).
  assert (Hk : cstr m (line + skip_space (cstr m line))
               = drop (skip_space (cstr m line)) (cstr m line))
    by apply cstr_add, skip_space_le.
  split; intros Hkey; unfold parse_extension; rewrite Harrow; cbv zeta.
  - assert (He : (strncasecmp (cstr m (line + skip_space (cstr m line)))
                    (lit "exten") 5 =? 0) = true).
    { rewrite Hk. apply Z.eqb_eq.
      apply (strncasecmp_begins (lit "exten")); [|exact Hkey].
      repeat constructor; discriminate. }
    rewrite He. cbn [negb andb].
    exact (Hbody false ET ED HP HF).
  - destruct (keyword_same m line Hkey) as [He Hs]. cbv zeta in He, Hs.
    rewrite He, Hs. cbn [negb andb].
    refine (eq_trans (Hbody true ET ED HP HF) _).
    cbn [negb]. rewrite bind_run. reflexivity.
Qed.

Lemma logs_extension_tail app data :
  logs (fun msg => ~ priority_message msg) (extension_tail app data).
Proof.
  unfold extension_tail.
  apply logs_bind.
  - destruct (0 <? strlen app)%nat; [|apply logs_ret].
    destruct (strchr app "("); [apply logs_check_balanced_other|apply logs_ret].
  - intros ok. destruct (negb ok); [apply logs_ret|].
    apply logs_bind; [apply logs_check_variable_syntax_other|].
    intros _. apply logs_ret.
Qed.

(** ** Priorities, on whole lines *)

Lemma comma_free_field s :
  ~ In "," s -> net Paren s = 0 -> net Bracket s = 0 -> top_level_field s.
Proof.
  intros Hn H1 H2. split; [exact H1|]. split; [exact H2|].
  intros a b E. exfalso. apply Hn. rewrite E.
  apply in_or_app. right. left. reflexivity.
Qed.

(** C5.  On an [exten] line with an arrow and three fields, whatever the
    pattern, the application and the spacing: the priority ["0"] is
    rejected with the must-be->=-1 error and ["abc"] as an invalid
    priority, each as the only diagnostic of the line; ["1"], ["n"],
    ["hint"] and ["5(label)"] are accepted, the line going on to the
    checks of the application and of the variable references, which
    write no priority error.  On a [same] line the priority block is
    skipped: no priority error is ever written, and a line with three
    fields goes on to the same checks whatever its priority is. *)
Theorem priority_rules :
  (forall m line w Pf Ff Af,
      extension_fields (cstr m line) Pf Ff Af ->
      keyword_is "exten" (cstr m line) ->
      (strip Ff = lit "0" ->
       parse_extension m line w = (false, report_error MPriorityTooLow w))
      /\ (strip Ff = lit "abc" ->
          parse_extension m line w
          = (false, report_error (MInvalidPriority (lit "abc")) w))
      /\ (strip Ff = lit "1" \/ strip Ff = lit "n" \/ strip Ff = lit "hint"
          \/ strip Ff = lit "5(label)" ->
          parse_extension m line w
          = extension_tail (strip Af) (strip Pf) w))
  /\ (forall app data,
         logs (fun msg => ~ priority_message msg) (extension_tail app data))
  /\ (forall m line,
         keyword_is "same" (cstr m line) ->
         logs (fun msg => ~ priority_message msg) (parse_extension m line))
  /\ (forall m line w Pf Ff Af,
         extension_fields (cstr m line) Pf Ff Af ->
         keyword_is "same" (cstr m line) ->
         parse_extension m line w = extension_tail (strip Af) (strip Pf) w).
Proof.
  split; [|split; [|split]].
  - intros m line w Pf Ff Af Hf Hk.
    rewrite (proj1 (parse_extension_fields m line w Pf Ff Af Hf) Hk).
    rewrite bind_run.
    split; [|split].
    + intros ->. destruct w as [[e wn l c] ds]. reflexivity.
    + intros ->. destruct w as [[e wn l c] ds]. reflexivity.
    + intros H.
      assert (Hok : validate_priority (strip Ff) w = (true, w)).
      { destruct w as [[e wn l c] ds].
        destruct H as [->|[->|[->| ->]]]; reflexivity. }
      rewrite Hok. reflexivity.
  - apply logs_extension_tail.
  - intros m line. apply logs_parse_extension_same.
  - intros m line w Pf Ff Af Hf Hk.
    apply (proj2 (parse_extension_fields m line w Pf Ff Af Hf) Hk).
Qed.

(** ["  Exten =>  _[1-3]XX , 5(label) , Dial(SIP/a,b) "]: a pattern with
    brackets, spaces around every field and a comma inside the
    parentheses of the application; the priority is accepted and the
    line passes the later checks. *)
Lemma priority_rules_witness :
  parse_extension
    (of_cstring (lit "  Exten =>  _[1-3]XX , 5(label) , Dial(SIP/a,b) "))
    O initial_world
  = (true, initial_world).
Proof.
  refine (eq_trans
            (proj2 (proj2
               (proj1 priority_rules
                  (of_cstring
                     (lit "  Exten =>  _[1-3]XX , 5(label) , Dial(SIP/a,b) "))
                  O initial_world (lit "_[1-3]XX ") (lit " 5(label) ")
                  (lit " Dial(SIP/a,b)") _ _)) _) _).
  - exists (lit "  Exten "), (lit "  _[1-3]XX , 5(label) , Dial(SIP/a,b) ").
    split; [reflexivity|]. split.
    { intros H. apply found_strstr in H. discriminate H. }
    split; [reflexivity|].
    split; apply comma_free_field; try reflexivity;
      simpl; intuition discriminate.
  - exists (lit "Exten"), (lit " =>  _[1-3]XX , 5(label) , Dial(SIP/a,b) ").
    split; reflexivity.
  - right. right. right. reflexivity.
  - vm_compute. reflexivity.
Defined.

(** X14.  On an [exten] line with three fields, a priority written as a
    decimal number, alone or followed by a label in parentheses, is
    accepted when some digit is not zero and rejected with the
    must-be->=-1 error when all digits are zero; what the label holds is
    not looked at. *)
Theorem numeric_priorities m line w Pf Ff Af ds tail :
  extension_fields (cstr m line) Pf Ff Af ->
  keyword_is "exten" (cstr m line) ->
  strip Ff = ds ++ tail ->
  ds <> [] -> Forall (fun c => isdigit c = true) ds ->
  tail = [] \/ (exists label, tail = "(" :: label) ->
  (Exists (fun c => c <> "0") ds ->
   parse_extension m line w = extension_tail (strip Af) (strip Pf) w)
  /\ (Forall (fun c => c = "0") ds ->
      parse_extension m line w = (false, report_error MPriorityTooLow w)).
Proof.
  intros Hf Hk E Hne Hd Htail.
  rewrite (proj1 (parse_extension_fields m line w Pf Ff Af Hf) Hk).
  rewrite bind_run, E.
  destruct (numeric_priority_run ds tail w Hne Hd Htail) as [H1 H0].
  split; intros H; [rewrite (H1 H) | rewrite (H0 H)]; reflexivity.
Qed.

(** ["exten => 2XX, 10(retry) ,Dial(x)"]: accepted, the label is passed
    over. *)
Lemma numeric_priorities_witness :
  parse_extension (of_cstring (lit "exten => 2XX, 10(retry) ,Dial(x)")) O
    initial_world
  = (true, initial_world).
Proof.
  refine (eq_trans
            (proj1
               (numeric_priorities
                  (of_cstring (lit "exten => 2XX, 10(retry) ,Dial(x)")) O
                  initial_world (lit "2XX") (lit " 10(retry) ")
                  (lit "Dial(x)") (lit "10") (lit "(retry)") _ _ _ _ _ _) _)
            _).
  - exists (lit "exten "), (lit " 2XX, 10(retry) ,Dial(x)").
    split; [reflexivity|]. split.
    { intros H. apply found_strstr in H. discriminate H. }
    split; [reflexivity|].
    split; apply comma_free_field; try reflexivity;
      simpl; intuition discriminate.
  - exists (lit "exten"), (lit " => 2XX, 10(retry) ,Dial(x)").
    split; reflexivity.
  - reflexivity.
  - discriminate.
  - repeat constructor.
  - right. exists (lit "retry)"). reflexivity.
  - left. discriminate.
  - vm_compute. reflexivity.
Defined.

(** ** Files whose lines fit the buffer *)

Lemma fgets_all_text t rest :
  forall room cur,
    ~ In NEWLINE t -> (length t < room)%nat ->
    fgets_all room cur (t ++ NEWLINE :: rest)
    = (rev cur ++ t ++ [NEWLINE]) :: fgets_all (MAX_LINE - 1) [] rest.
Proof.
  induction t as [|c t IH]; intros room cur Hn Hlen.
  - cbn [app fgets_all]. rewrite Ascii.eqb_refl. reflexivity.
  - cbn [app fgets_all].
    assert (Hc : Ascii.eqb c NEWLINE = false)
      by (apply Ascii.eqb_neq; intros ->; apply Hn; left; reflexivity).
    assert (Hr : (room =? 1)%nat = false)
      by (apply Nat.eqb_neq; simpl in Hlen; lia).
    rewrite Hc, Hr. cbn [orb].
    rewrite IH; [| intros H; apply Hn; right; exact H | simpl in Hlen; lia].
    cbn [rev]. rewrite <- app_assoc. reflexivity.
Qed.

(** A file made of lines that fit the buffer is read back line by line. *)
Lemma read_lines_concat ls :
  Forall text_line ls -> read_lines (concat ls) = ls.
Proof.
  unfold read_lines.
  induction 1 as [|l ls (t & -> & Hn & Hlen) _ IH]; [reflexivity|].
  cbn [concat]. rewrite <- app_assoc. cbn [app].
  rewrite fgets_all_text; [|exact Hn|].
  - rewrite IH. reflexivity.
  - rewrite length_app in Hlen. cbn [length] in Hlen. lia.
Qed.

(** ** The stored context name *)

(** C10.  The stored context name is written and never read: two runs on
    line sequences that differ only in the names of context headers (each
    name with something besides whitespace in it, each header with its
    closing bracket) write the same diagnostics, end with the same counts
    and give the same summary and exit status.  The lines are those that
    [fgets] delivers: the second part says the same of two files that
    [fgets] cuts into such lines, the third of two files made of such
    lines, each with its newline and short enough for the line buffer. *)
Theorem context_name_is_never_read :
  (forall chunks1 chunks2,
      Forall2 name_variant chunks1 chunks2 ->
      let o1 := validate_chunks chunks1 in
      let o2 := validate_chunks chunks2 in
      diagnostics o1 = diagnostics o2
      /\ errors (vstate (final o1)) = errors (vstate (final o2))
      /\ warnings (vstate (final o1)) = warnings (vstate (final o2))
      /\ stdout_summary o1 = stdout_summary o2
      /\ exit_status o1 = exit_status o2)
  /\ (forall content1 content2,
         Forall2 name_variant (read_lines content1) (read_lines content2) ->
         let o1 := validate_dialplan (Some content1) in
         let o2 := validate_dialplan (Some content2) in
         diagnostics o1 = diagnostics o2
         /\ errors (vstate (final o1)) = errors (vstate (final o2))
         /\ warnings (vstate (final o1)) = warnings (vstate (final o2))
         /\ stdout_summary o1 = stdout_summary o2
         /\ exit_status o1 = exit_status o2)
  /\ (forall lines1 lines2,
         Forall text_line lines1 -> Forall text_line lines2 ->
         Forall2 name_variant lines1 lines2 ->
         let o1 := validate_dialplan (Some (concat lines1)) in
         let o2 := validate_dialplan (Some (concat lines2)) in
         diagnostics o1 = diagnostics o2
         /\ errors (vstate (final o1)) = errors (vstate (final o2))
         /\ warnings (vstate (final o1)) = warnings (vstate (final o2))
         /\ stdout_summary o1 = stdout_summary o2
         /\ exit_status o1 = exit_status o2).
Proof.
  assert (H : forall chunks1 chunks2,
             Forall2 name_variant chunks1 chunks2 ->
             let o1 := validate_chunks chunks1 in
             let o2 := validate_chunks chunks2 in
             diagnostics o1 = diagnostics o2
             /\ errors (vstate (final o1)) = errors (vstate (final o2))
             /\ warnings (vstate (final o1)) = warnings (vstate (final o2))
             /\ stdout_summary o1 = stdout_summary o2
             /\ exit_status o1 = exit_status o2).
  { intros chunks1 chunks2 Hv.
    destruct (agree_validate_lines chunks1 chunks2 Hv false
                initial_world initial_world
                (same_but_context_refl _)) as [_ Hw].
    unfold diagnostics, validate_chunks.
    destruct (validate_lines chunks1 false initial_world) as [b1 w1].
    destruct (validate_lines chunks2 false initial_world) as [b2 w2].
    simpl in Hw. destruct Hw as (E1 & E2 & E3 & E4).
    rewrite E1, E2.
    destruct ((errors (vstate w2) =? 0) && (warnings (vstate w2) =? 0));
      simpl; rewrite ?E1, ?E2; auto. }
  split; [exact H|]. split.
  - intros content1 content2 Hv. apply (H _ _ Hv).
  - intros lines1 lines2 H1 H2 Hv. cbv zeta. unfold validate_dialplan.
    rewrite (read_lines_concat lines1 H1), (read_lines_concat lines2 H2).
    apply (H _ _ Hv).
Qed.

(** Two files of two lines that differ in the name of the one context. *)
Lemma context_name_is_never_read_witness :
  diagnostics
    (validate_dialplan
       (Some (concat [line "[default]"; line "exten => s,0,NoOp()"])))
  = diagnostics
      (validate_dialplan
         (Some (concat [line "[from-internal]";
                        line "exten => s,0,NoOp()"]))).
Proof.
  refine (proj1 (proj2 (proj2 context_name_is_never_read)
                   [line "[default]"; line "exten => s,0,NoOp()"]
                   [line "[from-internal]"; line "exten => s,0,NoOp()"]
                   _ _ _)).
  - repeat constructor.
    + exists (lit "[default]"). split; [reflexivity|].
      split; [simpl; intuition discriminate | vm_compute; lia].
    + exists (lit "exten => s,0,NoOp()"). split; [reflexivity|].
      split; [simpl; intuition discriminate | vm_compute; lia].
  - repeat constructor.
    + exists (lit "[from-internal]"). split; [reflexivity|].
      split; [simpl; intuition discriminate | vm_compute; lia].
    + exists (lit "exten => s,0,NoOp()"). split; [reflexivity|].
      split; [simpl; intuition discriminate | vm_compute; lia].
  - constructor.
    + apply (variant_renamed [] (lit "default") (lit "from-internal")
               [NEWLINE]).
      * constructor.
      * split; [repeat constructor; discriminate|].
        constructor. reflexivity.
      * split; [repeat constructor; discriminate|].
        constructor. reflexivity.
    + constructor; [apply variant_same | constructor].
Defined.

(** A header that does not fit the line buffer: [fgets] cuts the line
    ["[aa...a]"], with a name of 4500 characters, after 4095 bytes.  The
    first piece has no [']'] and is reported as a malformed context, the
    second one is an unknown directive; the same file with the name ["a"]
    is valid. *)
Lemma a_long_name_is_cut :
  let header1 := "[" :: lit "a" ++ "]" :: [NEWLINE] in
  let header2 := "[" :: repeat "a" 4500 ++ "]" :: [NEWLINE] in
  let o1 := validate_dialplan (Some header1) in
  let o2 := validate_dialplan (Some header2) in
  name_variant header1 header2
  /\ diagnostics o1 = []
  /\ map d_line (diagnostics o2) = [1; 2]
  /\ errors (vstate (final o1)) = 0 /\ errors (vstate (final o2)) = 1
  /\ warnings (vstate (final o1)) = 0 /\ warnings (vstate (final o2)) = 1
  /\ stdout_summary o1 = Some SyntaxValid
  /\ stdout_summary o2 = Some (ValidationComplete 1 1)
  /\ exit_status o1 = 0 /\ exit_status o2 = 1.
Proof.
  cbv zeta. split.
  - apply (variant_renamed [] (lit "a") (repeat "a" 4500) [NEWLINE]).
    + constructor.
    + split; [repeat constructor; discriminate|].
      constructor. reflexivity.
    + split.
      * apply List.Forall_forall. intros x Hx.
        apply repeat_spec in Hx. subst x. repeat split; discriminate.
      * constructor. reflexivity.
  - vm_compute. repeat split; reflexivity.
Qed.

(** ** The counters along a run *)

Lemma validate_lines_app pre post :
  forall in_context w,
    validate_lines (pre ++ post) in_context w
    = validate_lines post (fst (validate_lines pre in_context w))
        (snd (validate_lines pre in_context w)).
Proof.
  induction pre as [|chunk pre IH]; intros b w; [reflexivity|].
  cbn [app validate_lines]. rewrite !bind_run. apply IH.
Qed.

Lemma diags_split ds :
  length ds = (length (error_diags ds) + length (warning_diags ds))%nat.
Proof.
  unfold error_diags, warning_diags.
  induction ds as [|d ds IH]; [reflexivity|].
  rewrite !filter_cons.
  destruct (decide (is_error (d_msg d) = true)) as [He|He],
           (decide (is_warning (d_msg d) = true)) as [Hw|Hw];
    simpl; try lia; exfalso; unfold is_error in He;
    destruct (is_warning (d_msg d)); simpl in *; congruence.
Qed.

(** The counters after a run from the initial state: they count the
    diagnostics, of which there is at most one for each line. *)
Lemma counters_bounded chunks :
  let w := snd (validate_lines chunks false initial_world) in
  errors (vstate w) = Z.of_nat (length (error_diags (err_stream w)))
  /\ warnings (vstate w) = Z.of_nat (length (warning_diags (err_stream w)))
  /\ line_num (vstate w) = Z.of_nat (length chunks)
  /\ (length (err_stream w) <= length chunks)%nat.
Proof.
  cbv zeta.
  destruct (logs_validate_lines chunks false initial_world)
    as (ds & (E1 & E2 & E3) & _).
  destruct (validate_lines_numbered chunks false initial_world)
    as (ds' & E & Hl & Hlen & _).
  cbv zeta in E, Hl. simpl in E1, E2, E3, E, Hl.
  rewrite E1, E2, E3, Hl. rewrite E1 in E. subst ds'.
  repeat split; lia.
Qed.

Lemma error_diags_length ds : (length (error_diags ds) <= length ds)%nat.
Proof. pose proof (diags_split ds). lia. Qed.

Lemma warning_diags_length ds : (length (warning_diags ds) <= length ds)%nat.
Proof. pose proof (diags_split ds). lia. Qed.

(** One line from a state reached by a run: each counter grows by at
    most one. *)
Lemma validate_line_counts chunk in_context w :
  let w' := snd (validate_line chunk in_context w) in
  errors (vstate w) <= errors (vstate w') <= errors (vstate w) + 1
  /\ warnings (vstate w) <= warnings (vstate w') <= warnings (vstate w) + 1
  /\ line_num (vstate w') = line_num (vstate w) + 1.
Proof.
  cbv zeta.
  destruct (logs_validate_line chunk in_context w) as (ds & (E1 & E2 & E3) & _).
  destruct (validate_line_step chunk in_context w) as [Hn Hd].
  cbv zeta in Hn, Hd.
  assert (Hlen : (length ds <= 1)%nat).
  { destruct Hd as [Hd|[msg Hd]]; rewrite Hd in E1.
    - rewrite <- (app_nil_r (err_stream w)) in E1 at 1.
      apply app_inv_head in E1. subst ds. simpl. lia.
    - apply app_inv_head in E1. subst ds. simpl. lia. }
  pose proof (error_diags_length ds). pose proof (warning_diags_length ds).
  rewrite E2, E3, Hn. repeat split; lia.
Qed.

(** The summary of a run reports the counts of its diagnostics. *)
Lemma summary_reports_counts chunks :
  let o := validate_chunks chunks in
  errors (vstate (final o))
  = Z.of_nat (length (error_diags (diagnostics o)))
  /\ warnings (vstate (final o))
     = Z.of_nat (length (warning_diags (diagnostics o)))
  /\ ((stdout_summary o = Some SyntaxValid /\ diagnostics o = [])
      \/ (stdout_summary o
          = Some (ValidationComplete
                    (Z.of_nat (length (error_diags (diagnostics o))))
                    (Z.of_nat (length (warning_diags (diagnostics o)))))
          /\ diagnostics o <> [])).
Proof.
  cbv zeta. unfold diagnostics.
  destruct (counters_bounded chunks) as (E1 & E2 & _).
  cbv zeta in E1, E2. rewrite validate_chunks_final.
  split; [exact E1|]. split; [exact E2|].
  unfold validate_chunks.
  destruct (validate_lines chunks false initial_world) as [b w].
  cbn [snd] in *.
  destruct ((errors (vstate w) =? 0) && (warnings (vstate w) =? 0)) eqn:Ez;
    cbn [stdout_summary].
  - left. split; [reflexivity|].
    apply andb_true_iff in Ez as [Ze Zw].
    apply Z.eqb_eq in Ze, Zw.
    pose proof (diags_split (err_stream w)) as Hs.
    destruct (err_stream w); [reflexivity | simpl in Hs; lia].
  - right. rewrite E1, E2. split; [reflexivity|].
    intros Hnil. rewrite Hnil in E1, E2. simpl in E1, E2.
    rewrite E1, E2 in Ez. discriminate Ez.
Qed.

(** C8.  On a run of at most [INT_MAX] lines, as [fgets] delivers them,
    the counters behave as counters.  The loop reaches each line in the
    state left by the lines before it; from that state to the one in
    which it leaves the line, [errors] and [warnings] do not decrease, and
    they and [line_num] stay within the range of an [int].  At the end
    [errors] and [warnings] are the numbers of error and of warning
    diagnostics written during the run, and these are the numbers that
    the summary prints (it prints no number when the run wrote no
    diagnostic at all).  The second part says the last of a file. *)
Theorem counts_follow_diagnostics :
  (forall chunks,
      Z.of_nat (length chunks) <= INT_MAX ->
      let o := validate_chunks chunks in
      (forall pre chunk post,
          chunks = pre ++ chunk :: post ->
          let before := validate_lines pre false initial_world in
          let step := validate_line chunk (fst before) (snd before) in
          let after := snd step in
          validate_lines chunks false initial_world
          = validate_lines post (fst step) after
          /\ 0 <= errors (vstate (snd before)) <= errors (vstate after)
          /\ errors (vstate after) <= INT_MAX
          /\ 0 <= warnings (vstate (snd before)) <= warnings (vstate after)
          /\ warnings (vstate after) <= INT_MAX
          /\ 0 <= line_num (vstate (snd before)) < line_num (vstate after)
          /\ line_num (vstate after) <= INT_MAX)
      /\ 0 <= errors (vstate (final o)) <= INT_MAX
      /\ 0 <= warnings (vstate (final o)) <= INT_MAX
      /\ errors (vstate (final o))
         = Z.of_nat (length (error_diags (diagnostics o)))
      /\ warnings (vstate (final o))
         = Z.of_nat (length (warning_diags (diagnostics o)))
      /\ ((stdout_summary o = Some SyntaxValid /\ diagnostics o = [])
          \/ (stdout_summary o
              = Some (ValidationComplete
                        (Z.of_nat (length (error_diags (diagnostics o))))
                        (Z.of_nat (length (warning_diags (diagnostics o)))))
              /\ diagnostics o <> [])))
  /\ (forall content,
         Z.of_nat (length (read_lines content)) <= INT_MAX ->
         let o := validate_dialplan (Some content) in
         0 <= errors (vstate (final o)) <= INT_MAX
         /\ 0 <= warnings (vstate (final o)) <= INT_MAX
         /\ errors (vstate (final o))
            = Z.of_nat (length (error_diags (diagnostics o)))
         /\ warnings (vstate (final o))
            = Z.of_nat (length (warning_diags (diagnostics o)))
         /\ ((stdout_summary o = Some SyntaxValid /\ diagnostics o = [])
             \/ (stdout_summary o
                 = Some (ValidationComplete
                           (Z.of_nat (length (error_diags (diagnostics o))))
                           (Z.of_nat
                              (length (warning_diags (diagnostics o)))))
                 /\ diagnostics o <> []))).
Proof.
  assert (Hend : forall chunks,
             Z.of_nat (length chunks) <= INT_MAX ->
             let o := validate_chunks chunks in
             0 <= errors (vstate (final o)) <= INT_MAX
             /\ 0 <= warnings (vstate (final o)) <= INT_MAX).
  { intros chunks Hbound. cbv zeta. rewrite validate_chunks_final.
    destruct (counters_bounded chunks) as (E1 & E2 & _ & Hlen).
    cbv zeta in E1, E2, Hlen.
    pose proof (error_diags_length
                  (err_stream (snd (validate_lines chunks false
                                      initial_world)))).
    pose proof (warning_diags_length
                  (err_stream (snd (validate_lines chunks false
                                      initial_world)))).
    lia. }
  split.
  - intros chunks Hbound. cbv zeta.
    split; [|destruct (Hend chunks Hbound) as [H1 H2];
             split; [exact H1|]; split; [exact H2|];
             apply summary_reports_counts].
    intros pre chunk post ->.
    destruct (counters_bounded pre) as (E1 & E2 & E3 & Hlen).
    cbv zeta in E1, E2, E3, Hlen.
    destruct (validate_line_counts chunk
                (fst (validate_lines pre false initial_world))
                (snd (validate_lines pre false initial_world)))
      as (He & Hw & Hl).
    cbv zeta in He, Hw, Hl.
    pose proof (error_diags_length
                  (err_stream (snd (validate_lines pre false initial_world)))).
    pose proof (warning_diags_length
                  (err_stream (snd (validate_lines pre false initial_world)))).
    rewrite length_app in Hbound. cbn [length] in Hbound.
    split; [|repeat split; lia].
    rewrite validate_lines_app. cbn [validate_lines]. rewrite bind_run.
    reflexivity.
  - intros content Hbound. cbv zeta. unfold validate_dialplan.
    destruct (Hend (read_lines content) Hbound) as [H1 H2].
    split; [exact H1|]. split; [exact H2|].
    apply summary_reports_counts.
Qed.

(** A run of two lines with one warning. *)
Lemma counts_follow_diagnostics_witness :
  let o := validate_dialplan (Some (line "[default]" ++ line "bogus")) in
  Z.of_nat (length (read_lines (line "[default]" ++ line "bogus")))
  <= INT_MAX
  /\ warnings (vstate (final o))
     = Z.of_nat (length (warning_diags (diagnostics o)))
  /\ stdout_summary o = Some (ValidationComplete 0 1).
Proof.
  cbv zeta.
  assert (Hb : Z.of_nat
                 (length (read_lines (line "[default]" ++ line "bogus")))
               <= INT_MAX) by (vm_compute; discriminate).
  split; [exact Hb|].
  destruct (proj2 counts_follow_diagnostics
              (line "[default]" ++ line "bogus") Hb)
    as (_ & _ & _ & Hw & _).
  split; [exact Hw | reflexivity].
Defined.

Lemma malformed_header_step in_context w :
  validate_line (line "[") in_context w
  = (true, report_error MMalformedContext (snd (incr_line_num w))).
Proof. destruct w as [[e wn l c] ds]. reflexivity. Qed.

Lemma count_malformed n :
  forall in_context w,
    length (error_diags
              (err_stream
                 (snd (validate_lines (repeat (line "[") n) in_context w))))
    = (length (error_diags (err_stream w)) + n)%nat.
Proof.
  induction n as [|n IH]; intros b w.
  - cbn [repeat validate_lines]. unfold ret. cbn [snd]. lia.
  - cbn [repeat validate_lines]. rewrite bind_run, malformed_header_step.
    cbn [fst snd]. rewrite IH.
    destruct w as [[e wn l c] ds]. unfold report_error, incr_line_num.
    cbn [snd bind emit incr_errors vstate err_stream fst].
    unfold error_diags. rewrite filter_app, length_app.
    cbn [filter]. simpl. lia.
Qed.

(** C8 as stated, for every input, fails: a file of [INT_MAX + 1] lines
    ["["] has that many lines, each of which writes one error, and no
    [int] is the number of error diagnostics of the run.  The counter of
    the model, which does not overflow, has left the range of an [int]
    there. *)
Lemma one_line_too_many_for_int :
  let content := concat (repeat (line "[") (Z.to_nat (INT_MAX + 1))) in
  let o := validate_dialplan (Some content) in
  Z.of_nat (length (read_lines content)) = INT_MAX + 1
  /\ Z.of_nat (length (error_diags (diagnostics o))) = INT_MAX + 1
  /\ (forall count,
        fits_int count ->
        count <> Z.of_nat (length (error_diags (diagnostics o))))
  /\ ~ fits_int (errors (vstate (final o))).
Proof.
  cbv zeta. unfold validate_dialplan.
  assert (Hn : Z.of_nat (Z.to_nat (INT_MAX + 1)) = INT_MAX + 1)
    by (apply Z2Nat.id; unfold INT_MAX; lia).
  remember (Z.to_nat (INT_MAX + 1)) as n eqn:En. clear En.
  assert (Hlines : Forall text_line (repeat (line "[") n)).
  { apply List.Forall_forall. intros l Hl.
    apply repeat_spec in Hl. subst l. exists (lit "[").
    split; [reflexivity|].
    split; [simpl; intuition discriminate | vm_compute; lia]. }
  rewrite (read_lines_concat _ Hlines).
  destruct (summary_reports_counts (repeat (line "[") n)) as (E & _).
  cbv zeta in E. rewrite E. clear E.
  unfold diagnostics. rewrite validate_chunks_final, count_malformed.
  rewrite repeat_length.
  change (length (error_diags (err_stream initial_world))) with 0%nat.
  rewrite Nat.add_0_l, Hn.
  split; [reflexivity|]. split; [reflexivity|]. split.
  - intros count [_ Hc]. lia.
  - intros [_ Hc]. lia.
Qed.
